(** * The CUDA bilinear rescaler of libavfilter (vf_scale_cuda)

    A shallow embedding of the device code [vf_scale_cuda.cu] (the
    conversion functors and the [Subsample_Bilinear] kernel template with
    its 28 named instantiations) and of the host code that selects the
    kernels, computes the plane dimensions and launches them.

    Conventions.
    - C integers are [Z]; every place where the C type wraps is written
      out ([to_unsigned], [uadd], [cast]).
    - [float] is IEEE-754 binary32, computed with the executable
      operations of [SpecFloat] at precision 24 and maximal exponent 128.
    - Device memory reached through the [dst] pointer is a finite map from
      element indices to stored elements. *)

From Stdlib Require Import QArith ZArith Lia Bool List.
From Stdlib Require Import Floats.SpecFloat.
From stdpp Require Import base gmap.

Local Open Scope Z_scope.

(** ** binary32 arithmetic *)

Module Float32.

Definition prec : Z := 24.
Definition emax : Z := 128.

(** A [float] of the device code. *)
Definition float : Type := spec_float.

Definition fadd : float -> float -> float := SFadd prec emax.
Definition fsub : float -> float -> float := SFsub prec emax.
Definition fmul : float -> float -> float := SFmul prec emax.
Definition fdiv : float -> float -> float := SFdiv prec emax.

(** [(float)n] for an [int] n, rounded to nearest even. *)
Definition of_int (n : Z) : float := binary_normalize prec emax n 0 false.

(** The literals [0.0f], [0.5f] and [1.0f]. *)
Definition zero : float := S754_zero false.
Definition half : float := S754_finite false 8388608 (-24).
Definition one : float := S754_finite false 8388608 (-23).

Definition is_nan (a : float) : bool :=
  match a with S754_nan => true | _ => false end.

(** CUDA's [max] and [min] on [float] ([fmaxf], [fminf]): when one
    argument is a NaN the other one is returned. *)
Definition fmaxf (a b : float) : float :=
  if is_nan a then b
  else if is_nan b then a
  else if SFltb a b then b else a.

Definition fminf (a b : float) : float :=
  if is_nan a then b
  else if is_nan b then a
  else if SFltb b a then b else a.

(** Comparison of two floats as a proposition. *)
Definition fle (a b : float) : Prop := SFleb a b = true.
Definition flt (a b : float) : Prop := SFltb a b = true.

(** [2.0f / 3.0f], the binary32 number nearest to 2/3. *)
Definition two_thirds : float := S754_finite false 11184811 (-24).

(** The rational number a zero or a finite float stands for. *)
Definition to_Q (x : float) : option Q :=
  match x with
  | S754_zero _ => Some 0%Q
  | S754_finite s m e =>
      Some (inject_Z (if s then Zneg m else Zpos m) * 2 ^ e)%Q
  | _ => None
  end.

End Float32.

(** ** binary32 values as integers

    The arithmetic of [SpecFloat] is related to integer arithmetic on the
    values of the floats, measured in a unit small enough for all of
    them. *)

Module Round.

Import Float32.

(** The quotient of [V] by [2^s] rounded to the nearest integer, a tie to
    the even one; [s] is positive. *)
Definition rne_shift (V s : Z) : Z :=
  let q := V / 2 ^ s in
  let r := V mod 2 ^ s in
  let h := 2 ^ (s - 1) in
  if r <? h then q
  else if h <? r then q + 1
  else if Z.even q then q else q + 1.

(** Mantissa and exponent of [m * 2^e] rounded to binary32. *)
Definition round_pair (m e : Z) : Z * Z :=
  let n := fexp prec emax (Zdigits2 m + e) - e in
  let M := if 0 <? n then rne_shift m n else m in
  let E := if 0 <? n then e + n else e in
  if M =? 2 ^ prec then (2 ^ (prec - 1), E + 1) else (M, E).

Definition float_of_pair (ME : Z * Z) : float :=
  match fst ME with
  | Z0 => S754_zero false
  | Zpos p =>
      if snd ME <=? emax - prec then S754_finite false p (snd ME)
      else S754_infinity false
  | Zneg _ => S754_nan
  end.

(** Values are measured in units of [2^-U]; [U] is large enough for the
    exponents of all intermediate results. *)
Definition U : Z := 300.

(** [m * 2^e] in units of [2^-U]. *)
Definition scaled (m e : Z) : Z := m * 2 ^ (e + U).

(** The binary32 number nearest to [V] (in units of [2^-U]), a tie to
    the even mantissa; no bound on the exponent. *)
Definition rv (V : Z) : Z :=
  let s := Z.max (Zdigits2 V - prec) (U + emin prec emax) in
  rne_shift V s * 2 ^ s.

(** The value of infinity, for comparisons. *)
Definition top : Z := 2 ^ (emax + U).

(** The value of a float that is not negative, in units of [2^-U]. *)
Definition ord (x : float) : Z :=
  match x with
  | S754_zero _ => 0
  | S754_finite false m e => scaled (Zpos m) e
  | S754_infinity false => top
  | _ => -1
  end.

(** Zero, a positive finite number or plus infinity, in canonical
    form. *)
Definition nonneg (x : float) : bool :=
  match x with
  | S754_zero false => true
  | S754_finite false _ _ => valid_binary prec emax x
  | S754_infinity false => true
  | _ => false
  end.

(** A location as the two bits below the mantissa. *)
Definition code (l : location) : Z :=
  match l with
  | loc_Exact => 0
  | loc_Inexact Lt => 1
  | loc_Inexact Eq => 2
  | loc_Inexact Gt => 3
  end.

(** The quantum of [rv] at [V]. *)
Definition rv_shift (V : Z) : Z := Z.max (Zdigits2 V - 24) (U - 149).

(** Rounding to binary32 with overflow to infinity. *)
Definition cap (V : Z) : Z := Z.min (rv V) top.

(** The value of [weight r] from the value [v] of [r], for [r >= 1]:
    [min(max(0.5f * (r - 1.0f), 0.0f), 1.0f)] with both operations
    rounded. *)
Definition weight_ord (v : Z) : Z :=
  Z.min (cap (cap (v - 2 ^ U) / 2)) (2 ^ U).

End Round.

(** ** C types of the kernels *)

Module Device.

(** [uchar] and [ushort] are the sample types; [unsigned] is the type the
    accumulators have and the type [add_conv_shift2_x] and
    [add_conv_shift2_y] pass on as [SRC]. *)
Inductive basetype := uchar | ushort | unsigned.

(** A sample type or one of CUDA's short vectors of it ([uchar2],
    [ushort4], ...). *)
Inductive ctype :=
| Scalar (b : basetype)
| Vec2 (b : basetype)
| Vec3 (b : basetype)
| Vec4 (b : basetype).

Definition sizeof_base (b : basetype) : Z :=
  match b with uchar => 1 | ushort => 2 | unsigned => 4 end.

Definition sizeof (t : ctype) : Z :=
  match t with
  | Scalar b => sizeof_base b
  | Vec2 b => 2 * sizeof_base b
  | Vec3 b => 3 * sizeof_base b
  | Vec4 b => 4 * sizeof_base b
  end.

(** [decltype(T::x)], and [T] itself for a scalar. *)
Definition base (t : ctype) : basetype :=
  match t with Scalar b | Vec2 b | Vec3 b | Vec4 b => b end.

Definition bits (b : basetype) : Z := 8 * sizeof_base b.

Record vec2 := mk2 { x2 : Z; y2 : Z }.
Record vec3 := mk3 { x3 : Z; y3 : Z; z3 : Z }.
Record vec4 := mk4 { x4 : Z; y4 : Z; z4 : Z; w4 : Z }.

(** The values of a C type. *)
Definition val (t : ctype) : Type :=
  match t with
  | Scalar _ => Z
  | Vec2 _ => vec2
  | Vec3 _ => vec3
  | Vec4 _ => vec4
  end.

Definition components {t : ctype} : val t -> list Z :=
  match t with
  | Scalar _ => fun v => [v]
  | Vec2 _ => fun v => [x2 v; y2 v]
  | Vec3 _ => fun v => [x3 v; y3 v; z3 v]
  | Vec4 _ => fun v => [x4 v; y4 v; z4 v; w4 v]
  end.

(** A value that its type can hold. *)
Definition in_range (b : basetype) (v : Z) : Prop := 0 <= v < 2 ^ bits b.

Definition valid {t : ctype} (v : val t) : Prop :=
  Forall (in_range (base t)) (components v).

(** ** Unsigned arithmetic *)

Definition UINT_MAX : Z := 2 ^ 32 - 1.

(** Conversion to [unsigned] and to [size_t]. *)
Definition to_unsigned (v : Z) : Z := v mod 2 ^ 32.
Definition to_size_t (v : Z) : Z := v mod 2 ^ 64.

(** Addition of two [unsigned] values. *)
Definition uadd (a b : Z) : Z := (a + b) mod 2 ^ 32.

(** The conversion [(dstbase)v] of an unsigned value. *)
Definition cast (dstbase : basetype) (v : Z) : Z := v mod 2 ^ bits dstbase.

(** [(unsigned)i1 + (unsigned)i2 + (unsigned)i3 + (unsigned)i4 + bias], the
    accumulation every functor starts with, left to right in [unsigned]. *)
Definition accumulate (i1 i2 i3 i4 bias : Z) : Z :=
  uadd (uadd (uadd (uadd (to_unsigned i1) (to_unsigned i2)) (to_unsigned i3))
             (to_unsigned i4))
       (to_unsigned bias).

(** ** The conversion functors *)

(** [#define SHIFTDOWN(val) (dstbase)(val >> abs(2 + shift))] *)
Definition SHIFTDOWN (dstbase : basetype) (shift : Z) (val : Z) : Z :=
  cast dstbase (Z.shiftr val (Z.abs (2 + shift))).

(** [#define SHIFTUP(val) (dstbase)(val << abs(-shift - 2))]; the shift is
    one of [unsigned]. *)
Definition SHIFTUP (dstbase : basetype) (shift : Z) (val : Z) : Z :=
  cast dstbase (to_unsigned (Z.shiftl val (Z.abs (- shift - 2)))).

(** The dither bias of [add_conv_shift1_d]:
    [(1 + d) >> (sizeof(SRC) * 8 - dither + 3)].  [1 + d] is an [int], the
    shift count is a [size_t]. *)
Definition dither_bias (SRC : ctype) (dither : Z) (d : Z) : Z :=
  Z.shiftr (1 + d) (to_size_t (sizeof SRC * 8 - dither + 3)).

Definition add_conv_shift1_d (SRC DST : ctype) (shift dither : Z)
    (i1 i2 i3 i4 : Z) (d : Z) : Z :=
  let dstbase := base DST in
  let ret := accumulate i1 i2 i3 i4 (dither_bias SRC dither d) in
  if shift >? -2 then SHIFTDOWN dstbase shift ret
  else SHIFTUP dstbase shift ret.

Definition add_conv_shift1 (SRC DST : ctype) (shift dither : Z)
    (i1 i2 i3 i4 : Z) (d : Z) : Z :=
  let dstbase := base DST in
  let ret := accumulate i1 i2 i3 i4 2 in
  if shift >? -2 then SHIFTDOWN dstbase shift ret
  else SHIFTUP dstbase shift ret.

Definition add_conv_shift2 (SRC DST : ctype) (shift dither : Z)
    (i1 i2 i3 i4 : vec2) (d : Z) : vec2 :=
  let dstbase := base DST in
  let retx := accumulate (x2 i1) (x2 i2) (x2 i3) (x2 i4) 2 in
  let rety := accumulate (y2 i1) (y2 i2) (y2 i3) (y2 i4) 2 in
  if shift >? -2
  then mk2 (SHIFTDOWN dstbase shift retx) (SHIFTDOWN dstbase shift rety)
  else mk2 (SHIFTUP dstbase shift retx) (SHIFTUP dstbase shift rety).

Definition add_conv_shift2_x (SRC DST : ctype) (shift dither : Z)
    (i1 i2 i3 i4 : vec2) (d : Z) : Z :=
  add_conv_shift1 (Scalar unsigned) DST shift dither
    (x2 i1) (x2 i2) (x2 i3) (x2 i4) d.

Definition add_conv_shift2_y (SRC DST : ctype) (shift dither : Z)
    (i1 i2 i3 i4 : vec2) (d : Z) : Z :=
  add_conv_shift1 (Scalar unsigned) DST shift dither
    (y2 i1) (y2 i2) (y2 i3) (y2 i4) d.

Definition add_conv_shift3 (SRC DST : ctype) (shift dither : Z)
    (i1 i2 i3 i4 : vec3) (d : Z) : vec3 :=
  let dstbase := base DST in
  let retx := accumulate (x3 i1) (x3 i2) (x3 i3) (x3 i4) 2 in
  let rety := accumulate (y3 i1) (y3 i2) (y3 i3) (y3 i4) 2 in
  let retz := accumulate (z3 i1) (z3 i2) (z3 i3) (z3 i4) 2 in
  if shift >? -2
  then mk3 (SHIFTDOWN dstbase shift retx) (SHIFTDOWN dstbase shift rety)
           (SHIFTDOWN dstbase shift retz)
  else mk3 (SHIFTUP dstbase shift retx) (SHIFTUP dstbase shift rety)
           (SHIFTUP dstbase shift retz).

Definition add_conv_shift4 (SRC DST : ctype) (shift dither : Z)
    (i1 i2 i3 i4 : vec4) (d : Z) : vec4 :=
  let dstbase := base DST in
  let retx := accumulate (x4 i1) (x4 i2) (x4 i3) (x4 i4) 2 in
  let rety := accumulate (y4 i1) (y4 i2) (y4 i3) (y4 i4) 2 in
  let retz := accumulate (z4 i1) (z4 i2) (z4 i3) (z4 i4) 2 in
  let retw := accumulate (w4 i1) (w4 i2) (w4 i3) (w4 i4) 2 in
  if shift >? -2
  then mk4 (SHIFTDOWN dstbase shift retx) (SHIFTDOWN dstbase shift rety)
           (SHIFTDOWN dstbase shift retz) (SHIFTDOWN dstbase shift retw)
  else mk4 (SHIFTUP dstbase shift retx) (SHIFTUP dstbase shift rety)
           (SHIFTUP dstbase shift retz) (SHIFTUP dstbase shift retw).

(** ** Textures *)

Import Float32.

(** A texture object read with [tex2D<S>(tex, x, y)]: what the texture
    unit returns for every coordinate pair. *)
Definition texture (S : Type) : Type := float -> float -> S.

Definition tex2D {S : Type} (tex : texture S) (x y : float) : S := tex x y.

(** The square matrix of thresholds behind [ditherTex], entry by column
    and row, and its side. *)
Record dither_texture := {
  dither_matrix : Z -> Z -> Z;
  dither_size : Z
}.

(** Modelled from the spec: the fetch [tex2D<ushort>(ditherTex, xo, yo)]
    from the dither texture, whose matrix ([dither_matrix.h]) and whose
    addressing by the texture unit are not part of the sources at hand.
    The matrix of 16-bit thresholds is tiled across the destination plane
    by coordinate modulo the matrix size. *)
Definition tex2D_dither (ditherTex : dither_texture) (xo yo : Z) : Z :=
  dither_matrix ditherTex (xo mod dither_size ditherTex)
                          (yo mod dither_size ditherTex).

(** ** The kernel template *)

(** Conversion of an [unsigned] value to [int] (two's complement). *)
Definition to_int (v : Z) : Z := (v + 2 ^ 31) mod 2 ^ 32 - 2 ^ 31.

(** [float hscale = (float)src_width / (float)dst_width;] *)
Definition scale (src dst : Z) : float := fdiv (of_int src) (of_int dst).

(** [float xi = (xo + 0.5f) * hscale;] *)
Definition center (o : Z) (scale : float) : float :=
  fmul (fadd (of_int o) half) scale.

(** [float wh = min(max(0.5f * (hscale - 1.0f), 0.0f), 1.0f);] *)
Definition weight (scale : float) : float :=
  fminf (fmaxf (fmul half (fsub scale one)) zero) one.

(** [float dx = wh / (0.5f + wh);] *)
Definition displacement (w : float) : float := fdiv w (fadd half w).

(** The coordinates of the four texture reads of one thread, in the order
    [i0], [i1], [i2], [i3]. *)
Definition taps (xi yi dx dy : float) : list (float * float) :=
  [ (fsub xi dx, fsub yi dy); (fadd xi dx, fsub yi dy);
    (fsub xi dx, fadd yi dy); (fadd xi dx, fadd yi dy) ].

(** [yo*(dst_pitch / sizeof(DST))+xo*pitch]: the division and the sum are
    computed in [size_t], the product [xo*pitch] in [int]. *)
Definition dst_index (sizeof_DST pitch dst_pitch xo yo : Z) : Z :=
  to_size_t (to_size_t (to_size_t yo * (to_size_t dst_pitch / sizeof_DST))
             + to_size_t (to_int (xo * pitch))).

Section Subsample_Bilinear.

(** The template parameters: the value types of [SRC] and [DST], the
    functor [conv<SRC, DST, shift, dither>()], [pitch] and [dither]. *)
Context {SRC_val DST_val : Type}.
Variable sizeof_DST : Z.
Variable conv : SRC_val -> SRC_val -> SRC_val -> SRC_val -> Z -> DST_val.
Variables pitch dither : Z.

(** [ushort ditherVal = dither ? tex2D<ushort>(ditherTex, xo, yo) : 0;] *)
Definition ditherVal (ditherTex : dither_texture) (xo yo : Z) : Z :=
  if negb (dither =? 0) then tex2D_dither ditherTex xo yo else 0.

(** The four texture reads [i0], [i1], [i2], [i3] of one thread. *)
Definition Subsample_Bilinear_reads (tex : texture SRC_val)
    (dst_width dst_height src_width src_height : Z) (xo yo : Z)
    : SRC_val * SRC_val * SRC_val * SRC_val :=
  let hscale := scale src_width dst_width in
  let vscale := scale src_height dst_height in
  let xi := center xo hscale in
  let yi := center yo vscale in
  let wh := weight hscale in
  let wv := weight vscale in
  let dx := displacement wh in
  let dy := displacement wv in
  let i0 := tex2D tex (fsub xi dx) (fsub yi dy) in
  let i1 := tex2D tex (fadd xi dx) (fsub yi dy) in
  let i2 := tex2D tex (fsub xi dx) (fadd yi dy) in
  let i3 := tex2D tex (fadd xi dx) (fadd yi dy) in
  (i0, i1, i2, i3).

(** The element one thread computes:
    [conv<SRC, DST, shift, dither>()(i0, i1, i2, i3, ditherVal)]. *)
Definition Subsample_Bilinear_value (tex : texture SRC_val)
    (dst_width dst_height src_width src_height : Z)
    (ditherTex : dither_texture) (xo yo : Z) : DST_val :=
  let '(i0, i1, i2, i3) :=
    Subsample_Bilinear_reads tex dst_width dst_height
      src_width src_height xo yo in
  conv i0 i1 i2 i3 (ditherVal ditherTex xo yo).

(** The store of the thread at [(xo, yo)], if it makes one:
    [dst[yo*(dst_pitch / sizeof(DST))+xo*pitch] = conv(...)] under the
    guard [yo < dst_height && xo < dst_width]. *)
Definition Subsample_Bilinear_store (tex : texture SRC_val)
    (dst_width dst_height dst_pitch src_width src_height : Z)
    (ditherTex : dither_texture) (xo yo : Z) : option (Z * DST_val) :=
  if (yo <? dst_height) && (xo <? dst_width) then
    Some (dst_index sizeof_DST pitch dst_pitch xo yo,
          Subsample_Bilinear_value tex dst_width dst_height
            src_width src_height ditherTex xo yo)
  else None.

(** The body of [Subsample_Bilinear] for the thread at [(xo, yo)], as
    its effect on the memory behind [dst]. *)
Definition Subsample_Bilinear_at (tex : texture SRC_val)
    (dst : gmap Z DST_val)
    (dst_width dst_height dst_pitch src_width src_height : Z)
    (ditherTex : dither_texture) (xo yo : Z) : gmap Z DST_val :=
  match Subsample_Bilinear_store tex dst_width dst_height dst_pitch
          src_width src_height ditherTex xo yo with
  | Some (i, v) => <[ i := v ]> dst
  | None => dst
  end.

(** [int xo = blockIdx.x * blockDim.x + threadIdx.x;] (and [yo]): the
    sum is one of [unsigned int]. *)
Definition thread_coord (blockIdx blockDim threadIdx : Z) : Z :=
  to_int (to_unsigned (blockIdx * blockDim + threadIdx)).

Definition Subsample_Bilinear (tex : texture SRC_val)
    (dst : gmap Z DST_val)
    (dst_width dst_height dst_pitch src_width src_height : Z)
    (ditherTex : dither_texture)
    (blockIdx blockDim threadIdx : Z * Z) : gmap Z DST_val :=
  let xo := thread_coord (fst blockIdx) (fst blockDim) (fst threadIdx) in
  let yo := thread_coord (snd blockIdx) (snd blockDim) (snd threadIdx) in
  Subsample_Bilinear_at tex dst dst_width dst_height dst_pitch
    src_width src_height ditherTex xo yo.

End Subsample_Bilinear.

(** ** The named kernels *)

(** The arguments of one [VARIANT(SRC, DST, CONV, SHIFT, PITCH, DITHER,
    NAME)]; [CONV] is the functor template, whose value types follow from
    [SRC] and [DST]. *)
Record variant := VARIANT {
  SRC : ctype;
  DST : ctype;
  CONV : ctype -> ctype -> Z -> Z ->
         val SRC -> val SRC -> val SRC -> val SRC -> Z -> val DST;
  SHIFT : Z;
  PITCH : Z;
  DITHER : Z
}.

(** The suffix that [VARIANTSET2] appends to [NAME]. *)
Inductive suffix := sfx_ | sfx_c | sfx_p2 | sfx_2 | sfx_2_u | sfx_2_v | sfx_4.

Definition VARIANTSET2 (SRC DST : basetype) (SHIFT : Z) (s : suffix)
    : variant :=
  match s with
  | sfx_ =>
      VARIANT (Scalar SRC) (Scalar DST) add_conv_shift1_d SHIFT 1
        (if sizeof (Scalar DST) <? sizeof (Scalar SRC)
         then sizeof (Scalar DST) else 0)
  | sfx_c => VARIANT (Scalar SRC) (Scalar DST) add_conv_shift1 SHIFT 1 0
  | sfx_p2 => VARIANT (Scalar SRC) (Scalar DST) add_conv_shift1 SHIFT 2 0
  | sfx_2 => VARIANT (Vec2 SRC) (Vec2 DST) add_conv_shift2 SHIFT 1 0
  | sfx_2_u => VARIANT (Vec2 SRC) (Scalar DST) add_conv_shift2_x SHIFT 1 0
  | sfx_2_v => VARIANT (Vec2 SRC) (Scalar DST) add_conv_shift2_y SHIFT 1 0
  | sfx_4 => VARIANT (Vec4 SRC) (Vec4 DST) add_conv_shift4 SHIFT 1 0
  end.

Definition VARIANTSET (SRC DST : basetype) (SRCSIZE DSTSIZE : Z)
    : suffix -> variant :=
  VARIANTSET2 SRC DST (SRCSIZE - DSTSIZE).

(** The four instantiated sets, [8_8], [16_16], [8_16] and [16_8]. *)
Inductive depths := d8_8 | d16_16 | d8_16 | d16_8.

(** The kernel [Subsample_Bilinear_<depths><suffix>]. *)
Definition kernel_name : Type := depths * suffix.

Definition instantiation (n : kernel_name) : variant :=
  match fst n with
  | d8_8 => VARIANTSET uchar uchar 8 8 (snd n)
  | d16_16 => VARIANTSET ushort ushort 16 16 (snd n)
  | d8_16 => VARIANTSET uchar ushort 8 16 (snd n)
  | d16_8 => VARIANTSET ushort uchar 16 8 (snd n)
  end.

(** The functor object [conv<SRC, DST, shift, dither>()] of a variant. *)
Definition functor (V : variant)
    : val (SRC V) -> val (SRC V) -> val (SRC V) -> val (SRC V) -> Z ->
      val (DST V) :=
  CONV V (SRC V) (DST V) (SHIFT V) (DITHER V).

(** The body of the [__global__] function a [VARIANT] defines. *)
Definition Subsample_Bilinear_ (V : variant) :=
  Subsample_Bilinear (sizeof (DST V)) (functor V) (PITCH V) (DITHER V).

End Device.

(** ** The host side *)

Module Host.

Import Device.

(** The fields of [AVComponentDescriptor] and [AVPixFmtDescriptor]
    (libavutil/pixdesc.h) that the filter reads. *)
Record AVComponentDescriptor := {
  plane : Z;
  offset : Z;
  depth : Z
}.

Record AVPixFmtDescriptor := {
  nb_components : Z;
  log2_chroma_w : Z;
  log2_chroma_h : Z;
  comp : list AVComponentDescriptor
}.

(** [desc->comp[i]] *)
Definition comp_at (desc : AVPixFmtDescriptor) (i : Z) : AVComponentDescriptor :=
  nth (Z.to_nat i) (comp desc) {| plane := 0; offset := 0; depth := 0 |}.

(** The fields of [AVFrame] that [scalecuda_resize] reads; [data[i]] is
    named by its index. *)
Record AVFrame := {
  width : Z;
  height : Z;
  linesize : Z -> Z
}.

(** A device pointer [frame->data[i] + off]. *)
Record devptr := { data_index : Z; byte_offset : Z }.

(** A [CUfunction] is the kernel that [cuModuleGetFunction] looked up, or
    0. *)
Definition CUfunction : Type := option kernel_name.

Record plane_size := { pl_width : Z; pl_height : Z }.

Record CUDAScaleContext := {
  planes_in : list plane_size;
  planes_out : list plane_size;
  cu_func_luma : CUfunction;
  cu_func_chroma_u : CUfunction;
  cu_func_chroma_v : CUfunction;
  in_desc : AVPixFmtDescriptor;
  out_desc : AVPixFmtDescriptor;
  in_planes : Z;
  out_planes : Z;
  ditherTex : option dither_texture
}.

Inductive error := AVERROR_BUG | AVERROR_EXTERNAL.

Inductive result (A : Type) :=
| Ok (a : A)
| Error (e : error).
Arguments Ok {A} a.
Arguments Error {A} e.

(** [#define DIV_UP(a, b) ( ((a) + (b) - 1) / (b) )] *)
Definition DIV_UP (a b : Z) : Z := (a + b - 1) / b.
Definition BLOCKX : Z := 32.
Definition BLOCKY : Z := 16.

(** [#define BITS(n) ((n + 7) & ~7)] *)
Definition BITS (n : Z) : Z := Z.land (n + 7) (Z.lnot 7).

(** [#define DEPTH_BYTES(depth) (((depth) + 7) / 8)] *)
Definition DEPTH_BYTES (depth : Z) : Z := (depth + 7) / 8.

(** [FFMAX] of libavutil/common.h: [((a) > (b) ? (a) : (b))]. *)
Definition FFMAX (a b : Z) : Z := if a >? b then a else b.

(** Modelled from the spec: [AV_CEIL_RSHIFT(a, b)] of libavutil/common.h,
    which is not among the sources at hand: the right shift of [a] by [b]
    as a ceiling division, not a truncation. *)
Definition AV_CEIL_RSHIFT (a b : Z) : Z := (a + 2 ^ b - 1) / 2 ^ b.

(** *** [init_stage]: the plane table *)

(** The loop [for (i = 1; i < FF_ARRAY_ELEMS(s->planes_in); i++)], with
    the chroma shifts [in_sw], [in_sh], [out_sw], [out_sh] that
    [av_pix_fmt_get_chroma_sub_sample] returned. *)
Definition init_stage_planes (in_sw in_sh out_sw out_sh : Z)
    (in0 out0 : plane_size) : list plane_size * list plane_size :=
  let chroma_in := {| pl_width := Z.shiftr (pl_width in0) in_sw;
                      pl_height := Z.shiftr (pl_height in0) in_sh |} in
  let chroma_out := {| pl_width := Z.shiftr (pl_width out0) out_sw;
                       pl_height := Z.shiftr (pl_height out0) out_sh |} in
  ([in0; chroma_in; chroma_in], [out0; chroma_out; chroma_out]).

(** *** [cudascale_config_props]: kernels and dither *)

(** [for (i = 0; i < n; i++) planes = FFMAX(planes, desc->comp[i].plane + 1);] *)
Definition count_planes (n : Z) (desc : AVPixFmtDescriptor) (planes : Z) : Z :=
  fold_left (fun acc i => FFMAX acc (plane (comp_at desc i) + 1))
            (seqZ 0 n) planes.

(** One [VARIANTSET(INDEPTH, OUTDEPTH)] block of the [else if] chain, once
    its depth test has passed. *)
Definition VARIANTSET (d : depths) (s : CUDAScaleContext)
    : result CUDAScaleContext :=
  let s := {| planes_in := planes_in s; planes_out := planes_out s;
              cu_func_luma := Some (d, sfx_);
              cu_func_chroma_u := cu_func_chroma_u s;
              cu_func_chroma_v := cu_func_chroma_v s;
              in_desc := in_desc s; out_desc := out_desc s;
              in_planes := in_planes s; out_planes := out_planes s;
              ditherTex := ditherTex s |} in
  let with_chroma (u v : CUfunction) :=
    {| planes_in := planes_in s; planes_out := planes_out s;
       cu_func_luma := cu_func_luma s;
       cu_func_chroma_u := u;
       cu_func_chroma_v := v;
       in_desc := in_desc s; out_desc := out_desc s;
       in_planes := in_planes s; out_planes := out_planes s;
       ditherTex := ditherTex s |} in
  if (in_planes s =? 3) && (out_planes s =? 3) then
    Ok (with_chroma (Some (d, sfx_c)) (Some (d, sfx_c)))
  else if (in_planes s =? 3) && (out_planes s =? 2) then
    Ok (with_chroma (Some (d, sfx_p2)) (Some (d, sfx_p2)))
  else if (in_planes s =? 2) && (out_planes s =? 2) then
    Ok (with_chroma (Some (d, sfx_2)) (cu_func_chroma_v s))
  else if (in_planes s =? 2) && (out_planes s =? 3) then
    Ok (with_chroma (Some (d, sfx_2_u)) (Some (d, sfx_2_v)))
  else Error AVERROR_BUG.

(** The chain [if (0) {} VARIANTSET(8, 8) VARIANTSET(16, 16)
    VARIANTSET(8, 16) VARIANTSET(16, 8) else { ret = AVERROR_BUG; }]. *)
Definition select_kernels (s : CUDAScaleContext) : result CUDAScaleContext :=
  let indepth := BITS (depth (comp_at (in_desc s) 0)) in
  let outdepth := BITS (depth (comp_at (out_desc s) 0)) in
  if (indepth =? 8) && (outdepth =? 8) then VARIANTSET d8_8 s
  else if (indepth =? 16) && (outdepth =? 16) then VARIANTSET d16_16 s
  else if (indepth =? 8) && (outdepth =? 16) then VARIANTSET d8_16 s
  else if (indepth =? 16) && (outdepth =? 8) then VARIANTSET d16_8 s
  else Error AVERROR_BUG.

(** [cudascale_setup_dither]: the matrix is copied to the device and
    [s->ditherTex] is created on it; [created] is what the driver calls
    returned ([None] when one of them failed). *)
Definition cudascale_setup_dither (created : option dither_texture)
    (s : CUDAScaleContext) : result CUDAScaleContext :=
  match created with
  | Some t =>
      Ok {| planes_in := planes_in s; planes_out := planes_out s;
            cu_func_luma := cu_func_luma s;
            cu_func_chroma_u := cu_func_chroma_u s;
            cu_func_chroma_v := cu_func_chroma_v s;
            in_desc := in_desc s; out_desc := out_desc s;
            in_planes := in_planes s; out_planes := out_planes s;
            ditherTex := Some t |}
  | None => Error AVERROR_EXTERNAL
  end.

(** Whether [cudascale_config_props] calls [cudascale_setup_dither]:
    [if (s->in_desc->comp[0].depth > s->out_desc->comp[0].depth)]. *)
Definition wants_dither (s : CUDAScaleContext) : bool :=
  depth (comp_at (in_desc s) 0) >? depth (comp_at (out_desc s) 0).

(** [cudascale_config_props] from the point where the two descriptors
    are known: the plane counts, the kernels, the dither matrix. *)
Definition cudascale_config_props (created : option dither_texture)
    (s : CUDAScaleContext) : result CUDAScaleContext :=
  let s := {| planes_in := planes_in s; planes_out := planes_out s;
              cu_func_luma := cu_func_luma s;
              cu_func_chroma_u := cu_func_chroma_u s;
              cu_func_chroma_v := cu_func_chroma_v s;
              in_desc := in_desc s; out_desc := out_desc s;
              in_planes :=
                count_planes (nb_components (in_desc s)) (in_desc s)
                             (in_planes s);
              out_planes :=
                count_planes (nb_components (in_desc s)) (out_desc s)
                             (out_planes s);
              ditherTex := ditherTex s |} in
  match select_kernels s with
  | Error e => Error e
  | Ok s =>
      if wants_dither s then cudascale_setup_dither created s else Ok s
  end.

(** *** [scalecuda_resize]: the launches *)

(** What one call of [call_resize_kernel] hands to [cuLaunchKernel]. *)
Record launch := {
  l_func : CUfunction;
  l_channels : Z;
  l_src : devptr;
  l_src_width : Z;
  l_src_height : Z;
  l_src_pitch : Z;
  l_dst : devptr;
  l_dst_width : Z;
  l_dst_height : Z;
  l_dst_pitch : Z;
  l_pixel_size : Z;
  l_gridDim : Z * Z;
  l_blockDim : Z * Z;
  l_ditherTex : option dither_texture
}.

Definition call_resize_kernel (s : CUDAScaleContext) (func : CUfunction)
    (channels : Z)
    (src_dptr : devptr) (src_width src_height src_pitch : Z)
    (dst_dptr : devptr) (dst_width dst_height dst_pitch : Z)
    (pixel_size : Z) : launch :=
  {| l_func := func; l_channels := channels;
     l_src := src_dptr; l_src_width := src_width;
     l_src_height := src_height; l_src_pitch := src_pitch;
     l_dst := dst_dptr; l_dst_width := dst_width;
     l_dst_height := dst_height; l_dst_pitch := dst_pitch;
     l_pixel_size := pixel_size;
     l_gridDim := (DIV_UP dst_width BLOCKX, DIV_UP dst_height BLOCKY);
     l_blockDim := (BLOCKX, BLOCKY);
     l_ditherTex := ditherTex s |}.

(** The chroma launches of [scalecuda_resize], first U then (when
    [s->cu_func_chroma_v] is set) V. *)
Definition chroma_launches (s : CUDAScaleContext) (out in_ : AVFrame)
    : list launch :=
  call_resize_kernel s (cu_func_chroma_u s)
    (if in_planes s =? 2 then 2 else 1)
    {| data_index := 1; byte_offset := 0 |}
    (AV_CEIL_RSHIFT (width in_) (log2_chroma_w (in_desc s)))
    (AV_CEIL_RSHIFT (height in_) (log2_chroma_h (in_desc s)))
    (linesize in_ 1)
    {| data_index := 1; byte_offset := 0 |}
    (AV_CEIL_RSHIFT (width out) (log2_chroma_w (out_desc s)))
    (AV_CEIL_RSHIFT (height out) (log2_chroma_h (out_desc s)))
    (linesize out 1)
    (DEPTH_BYTES (depth (comp_at (in_desc s) 1)))
  ::
  match cu_func_chroma_v s with
  | Some _ =>
      [ call_resize_kernel s (cu_func_chroma_v s)
          (if in_planes s =? 2 then 2 else 1)
          {| data_index := plane (comp_at (in_desc s) 2); byte_offset := 0 |}
          (AV_CEIL_RSHIFT (width in_) (log2_chroma_w (in_desc s)))
          (AV_CEIL_RSHIFT (height in_) (log2_chroma_h (in_desc s)))
          (linesize in_ (plane (comp_at (in_desc s) 2)))
          {| data_index := plane (comp_at (out_desc s) 2);
             byte_offset := offset (comp_at (out_desc s) 2) |}
          (AV_CEIL_RSHIFT (width out) (log2_chroma_w (out_desc s)))
          (AV_CEIL_RSHIFT (height out) (log2_chroma_h (out_desc s)))
          (linesize out (plane (comp_at (out_desc s) 2)))
          (DEPTH_BYTES (depth (comp_at (in_desc s) 2))) ]
  | None => []
  end.

(** All the kernel launches of [scalecuda_resize], in order. *)
Definition scalecuda_resize (s : CUDAScaleContext) (out in_ : AVFrame)
    : list launch :=
  call_resize_kernel s (cu_func_luma s) 1
    {| data_index := 0; byte_offset := 0 |}
    (width in_) (height in_) (linesize in_ 0)
    {| data_index := 0; byte_offset := 0 |}
    (width out) (height out) (linesize out 0)
    (DEPTH_BYTES (depth (comp_at (in_desc s) 0)))
  :: chroma_launches s out in_.

(** *** [cuLaunchKernel] *)

(** The block and thread indices of a launch. *)
Definition threads (gridDim blockDim : Z * Z) : list ((Z * Z) * (Z * Z)) :=
  bx ← seqZ 0 (fst gridDim);
  by_ ← seqZ 0 (snd gridDim);
  tx ← seqZ 0 (fst blockDim);
  ty ← seqZ 0 (snd blockDim);
  [((bx, by_), (tx, ty))].

(** The effect of a launch on the destination: every thread of the grid
    runs the kernel; the threads only store, so they are run one after
    the other. *)
Definition cuLaunchKernel {D : Type}
    (kernel : gmap Z D -> Z * Z -> Z * Z -> Z * Z -> gmap Z D)
    (gridDim blockDim : Z * Z) (dst : gmap Z D) : gmap Z D :=
  fold_left (fun m bt => kernel m (fst bt) blockDim (snd bt))
            (threads gridDim blockDim) dst.

(** *** Descriptors of three of the supported formats

    The entries of libavutil's descriptor table for [AV_PIX_FMT_YUV420P],
    [AV_PIX_FMT_NV12] and [AV_PIX_FMT_P010], used as sample inputs. *)

Definition yuv420p : AVPixFmtDescriptor :=
  {| nb_components := 3; log2_chroma_w := 1; log2_chroma_h := 1;
     comp := [ {| plane := 0; offset := 0; depth := 8 |};
               {| plane := 1; offset := 0; depth := 8 |};
               {| plane := 2; offset := 0; depth := 8 |} ] |}.

Definition nv12 : AVPixFmtDescriptor :=
  {| nb_components := 3; log2_chroma_w := 1; log2_chroma_h := 1;
     comp := [ {| plane := 0; offset := 0; depth := 8 |};
               {| plane := 1; offset := 0; depth := 8 |};
               {| plane := 1; offset := 1; depth := 8 |} ] |}.


(** The context as [cudascale_init] leaves it (all zero), with the two
    descriptors filled in. *)
Definition context_of (in_desc out_desc : AVPixFmtDescriptor)
    : CUDAScaleContext :=
  {| planes_in := []; planes_out := [];
     cu_func_luma := None; cu_func_chroma_u := None; cu_func_chroma_v := None;
     in_desc := in_desc; out_desc := out_desc;
     in_planes := 0; out_planes := 0;
     ditherTex := None |}.

(** A frame of the given size whose planes are all [pitch] bytes wide. *)
Definition frame_of (width height pitch : Z) : AVFrame :=
  {| width := width; height := height; linesize := fun _ => pitch |}.

End Host.

(** ** The wording of the specification *)

Module Spec.

Import Device.

(** The last step of a functor as the specification words it: the sum is
    shifted right by [2 + shift] bits when [shift > -2], and left by
    [-shift - 2] bits otherwise, then truncated to the destination
    sample. *)
Definition shift_and_truncate (dstbase : basetype) (shift sum : Z) : Z :=
  if shift >? -2 then cast dstbase (Z.shiftr sum (2 + shift))
  else cast dstbase (Z.shiftl sum (- shift - 2)).

(** The number of dither levels of a conversion from [SRC] to [DST]: the
    byte width of the destination sample when narrowing, else 0. *)
Definition ditherLevels (SRC DST : basetype) : Z :=
  if sizeof_base DST <? sizeof_base SRC then sizeof_base DST else 0.

(** The number of bits of a source sample. *)
Definition bitsInSourceSample (SRC : basetype) : Z := 8 * sizeof_base SRC.

(** [c] is the quotient of [a] by [2^b] rounded up. *)
Definition ceiling_shift (a b c : Z) : Prop :=
  2 ^ b * (c - 1) < a <= 2 ^ b * c.

(** The bound of the specification on a displacement [d]: it is a number
    of the interval from 0 to 2/3. *)
Definition displacement_bounded (d : Float32.float) : Prop :=
  match Float32.to_Q d with
  | Some q => (0 <= q <= 2 # 3)%Q
  | None => False
  end.

(** The input of a kernel at one texel: the texel itself, and for the
    two kernels that split an interleaved plane its first or its second
    component. *)
Definition texel_part (SRCb DSTb : basetype) (SHIFT : Z) (s : suffix)
    : val (SRC (VARIANTSET2 SRCb DSTb SHIFT s)) ->
      val (DST (VARIANTSET2 SRCb DSTb SHIFT s)) :=
  match s return val (SRC (VARIANTSET2 SRCb DSTb SHIFT s)) ->
                 val (DST (VARIANTSET2 SRCb DSTb SHIFT s)) with
  | sfx_ | sfx_c | sfx_p2 => fun v => v
  | sfx_2 => fun v => v
  | sfx_2_u => x2
  | sfx_2_v => y2
  | sfx_4 => fun v => v
  end.

Definition input_sample (n : kernel_name)
    : val (SRC (instantiation n)) -> val (DST (instantiation n)) :=
  match n with
  | (d, s) =>
      match d return val (SRC (instantiation (d, s))) ->
                     val (DST (instantiation (d, s))) with
      | d8_8 => texel_part uchar uchar (8 - 8) s
      | d16_16 => texel_part ushort ushort (16 - 16) s
      | d8_16 => texel_part uchar ushort (8 - 16) s
      | d16_8 => texel_part ushort uchar (16 - 8) s
      end
  end.

End Spec.

(** ** The kernels in unbounded arithmetic

    What the kernels compute, written with the integers of [Z]: no
    wrap-around, no truncation.  The theorems relate the functors to
    these. *)

Module Ideal.

(** The literal [2.0f]. *)
Definition two : Float32.float := S754_finite false 8388608 (-22).


Import Device.

(** The bias of a kernel: the first kernel of a set adds its dither
    bias, which is 0 for every 16-bit dither value; the others add 2. *)
Definition kernel_bias (s : suffix) : Z :=
  match s with sfx_ => 0 | _ => 2 end.

(** The sum of four samples and the bias, divided by [2^(2 + shift)] when
    [shift > -2] and multiplied by [2^(-shift - 2)] otherwise. *)
Definition exact_mean (shift bias a b c e : Z) : Z :=
  let sum := a + b + c + e + bias in
  if shift >? -2 then sum / 2 ^ (2 + shift) else sum * 2 ^ (- shift - 2).

Fixpoint map4 {A B : Type} (f : A -> A -> A -> A -> B)
    (l1 l2 l3 l4 : list A) : list B :=
  match l1, l2, l3, l4 with
  | a :: l1, b :: l2, c :: l3, e :: l4 => f a b c e :: map4 f l1 l2 l3 l4
  | _, _, _, _ => []
  end.

(** What a kernel makes of four equal samples [c]. *)
Definition uniform_out (n : kernel_name) (c : Z) : Z :=
  match fst n with
  | d8_8 | d16_16 => c
  | d8_16 => 256 * c + 64 * kernel_bias (snd n)
  | d16_8 => c / 256
  end.

(** The number of channels of a texel of type [t]. *)
Definition nchannels (t : ctype) : Z :=
  match t with Scalar _ => 1 | Vec2 _ => 2 | Vec3 _ => 3 | Vec4 _ => 4 end.

End Ideal.

(** ** More of the host code *)

Module Setup.

Import Device Host.

(** [#define ALIGN_UP(a, b) (((a) + (b) - 1) & ~((b) - 1))] *)
Definition ALIGN_UP (a b : Z) : Z := Z.land (a + b - 1) (Z.lnot (b - 1)).

(** The set of kernels for two component depths of 1 to 16 bits: 8 stands
    for a depth of at most 8 bits, 16 for a deeper one. *)
Definition depths_of (in_depth out_depth : Z) : depths :=
  if in_depth <=? 8
  then (if out_depth <=? 8 then d8_8 else d8_16)
  else (if out_depth <=? 8 then d16_8 else d16_16).

(** The kernels of the two chroma launches for a number of input and of
    output planes (2 or 3); [None] where [s->cu_func_chroma_v] is left
    as it was. *)
Definition chroma_suffixes (in_planes out_planes : Z)
    : suffix * option suffix :=
  if in_planes =? 3
  then (if out_planes =? 3 then (sfx_c, Some sfx_c)
        else (sfx_p2, Some sfx_p2))
  else (if out_planes =? 3 then (sfx_2_u, Some sfx_2_v)
        else (sfx_2, None)).

End Setup.

Import Float32 Round Device Host Spec.
Import Ideal Setup.

(** * Properties *)

(** ** Unsigned arithmetic *)

Lemma pow2_bits_pos (b : basetype) : 0 < 2 ^ bits b.
Proof. destruct b; reflexivity. Qed.

Lemma bits_le_32 (b : basetype) : (2 ^ bits b | 2 ^ 32).
Proof.
  destruct b; [exists (2 ^ 24) | exists (2 ^ 16) | exists 1]; reflexivity.
Qed.

Lemma to_unsigned_small (v : Z) : 0 <= v <= UINT_MAX -> to_unsigned v = v.
Proof. unfold to_unsigned, UINT_MAX. intros H. apply Z.mod_small. lia. Qed.

Lemma uadd_exact (a b : Z) :
  0 <= a -> 0 <= b -> a + b <= UINT_MAX -> uadd a b = a + b.
Proof. unfold uadd, UINT_MAX. intros Ha Hb H. apply Z.mod_small. lia. Qed.

Lemma cast_to_unsigned (b : basetype) (v : Z) :
  cast b (to_unsigned v) = cast b v.
Proof.
  unfold cast, to_unsigned. apply Z.mod_mod_divide, bits_le_32.
Qed.

Lemma cast_small (b : basetype) (v : Z) : in_range b v -> cast b v = v.
Proof. unfold in_range, cast. intros H. now apply Z.mod_small. Qed.

Lemma accumulate_exact (i1 i2 i3 i4 bias : Z) :
  0 <= i1 -> 0 <= i2 -> 0 <= i3 -> 0 <= i4 -> 0 <= bias ->
  i1 + i2 + i3 + i4 + bias <= UINT_MAX ->
  accumulate i1 i2 i3 i4 bias = i1 + i2 + i3 + i4 + bias.
Proof.
  intros H1 H2 H3 H4 Hb Hs. unfold accumulate.
  rewrite !to_unsigned_small by lia.
  rewrite (uadd_exact i1 i2) by lia.
  rewrite (uadd_exact (i1 + i2) i3) by lia.
  rewrite (uadd_exact (i1 + i2 + i3) i4) by lia.
  apply uadd_exact; lia.
Qed.

Lemma accumulate_range (i1 i2 i3 i4 bias : Z) :
  0 <= accumulate i1 i2 i3 i4 bias <= UINT_MAX.
Proof.
  unfold accumulate, uadd, UINT_MAX.
  match goal with |- 0 <= ?a mod ?m <= _ =>
    pose proof (Z.mod_pos_bound a m eq_refl) end.
  lia.
Qed.

(** ** The shift of the functors *)

Lemma SHIFTDOWN_spec (dstbase : basetype) (shift val : Z) :
  (shift >? -2) = true ->
  SHIFTDOWN dstbase shift val = shift_and_truncate dstbase shift val.
Proof.
  intros H. unfold SHIFTDOWN, shift_and_truncate. rewrite H.
  apply Z.gtb_lt in H. now rewrite Z.abs_eq by lia.
Qed.

Lemma SHIFTUP_spec (dstbase : basetype) (shift val : Z) :
  (shift >? -2) = false ->
  SHIFTUP dstbase shift val = shift_and_truncate dstbase shift val.
Proof.
  intros H. unfold SHIFTUP, shift_and_truncate. rewrite H.
  rewrite cast_to_unsigned.
  assert (shift <= -2) by (destruct (Z.gtb_spec shift (-2)); [discriminate | lia]).
  now rewrite Z.abs_eq by lia.
Qed.

Lemma select_spec (dstbase : basetype) (shift val : Z) :
  (if shift >? -2 then SHIFTDOWN dstbase shift val
   else SHIFTUP dstbase shift val)
  = shift_and_truncate dstbase shift val.
Proof.
  destruct (shift >? -2) eqn:E;
    [now apply SHIFTDOWN_spec | now apply SHIFTUP_spec].
Qed.

Lemma add_conv_shift1_spec (SRC DST : ctype) (shift dither : Z)
    (i1 i2 i3 i4 d : Z) :
  add_conv_shift1 SRC DST shift dither i1 i2 i3 i4 d
  = shift_and_truncate (base DST) shift (accumulate i1 i2 i3 i4 2).
Proof. unfold add_conv_shift1. cbv zeta. apply select_spec. Qed.

Lemma add_conv_shift1_d_spec (SRC DST : ctype) (shift dither : Z)
    (i1 i2 i3 i4 d : Z) :
  add_conv_shift1_d SRC DST shift dither i1 i2 i3 i4 d
  = shift_and_truncate (base DST) shift
      (accumulate i1 i2 i3 i4 (dither_bias SRC dither d)).
Proof. unfold add_conv_shift1_d. cbv zeta. apply select_spec. Qed.

(** The accumulation of a functor is the sum of its five terms modulo
    [2^32]. *)
Lemma accumulate_mod (i1 i2 i3 i4 bias : Z) :
  accumulate i1 i2 i3 i4 bias = (i1 + i2 + i3 + i4 + bias) mod 2 ^ 32.
Proof.
  unfold accumulate, uadd, to_unsigned.
  rewrite <- (Z.add_mod i1 i2) by lia.
  rewrite <- (Z.add_mod (i1 + i2) i3) by lia.
  rewrite <- (Z.add_mod (i1 + i2 + i3) i4) by lia.
  rewrite <- (Z.add_mod (i1 + i2 + i3 + i4) bias) by lia.
  reflexivity.
Qed.

(** The last step of a functor in plain arithmetic. *)
Lemma select_plain (dstbase : basetype) (shift val : Z) :
  (if shift >? -2 then SHIFTDOWN dstbase shift val
   else SHIFTUP dstbase shift val)
  = (if shift >? -2 then Z.shiftr val (2 + shift)
     else Z.shiftl val (- shift - 2)) mod 2 ^ (8 * sizeof_base dstbase).
Proof.
  rewrite select_spec. unfold shift_and_truncate, cast, bits.
  now destruct (shift >? -2).
Qed.

(** C5. Every conversion functor shifts its accumulated sum (the four
    samples and the bias, added modulo [2^32]) right by [2 + shift] bits
    when [shift > -2] and left by [-shift - 2] bits otherwise, and keeps
    of the result the low 8, 16 or 32 bits that the destination sample
    has; the branch is taken on [shift > -2] and on nothing else.  This
    holds for every value of the template parameter [shift] and for every
    input, of each component for the vector functors.  The right-hand
    sides are arithmetic of [Z] only. *)
Theorem functors_shift_and_truncate (SRC DST : ctype) (shift dither : Z) :
  let bytes := fun b : basetype =>
    match b with uchar => 1 | ushort => 2 | unsigned => 4 end in
  let size := fun t : ctype =>
    match t with
    | Scalar b => bytes b
    | Vec2 b => 2 * bytes b
    | Vec3 b => 3 * bytes b
    | Vec4 b => 4 * bytes b
    end in
  let dstbase := match DST with Scalar b | Vec2 b | Vec3 b | Vec4 b => b end in
  let convert := fun sum : Z =>
    (if shift >? -2 then Z.shiftr sum (2 + shift)
     else Z.shiftl sum (- shift - 2)) mod 2 ^ (8 * bytes dstbase) in
  let sum4 := fun a b c e bias : Z => (a + b + c + e + bias) mod 2 ^ 32 in
  (forall i1 i2 i3 i4 d,
     add_conv_shift1_d SRC DST shift dither i1 i2 i3 i4 d
     = convert (sum4 i1 i2 i3 i4
                  (Z.shiftr (1 + d)
                     ((size SRC * 8 - dither + 3) mod 2 ^ 64))))
  /\ (forall i1 i2 i3 i4 d,
     add_conv_shift1 SRC DST shift dither i1 i2 i3 i4 d
     = convert (sum4 i1 i2 i3 i4 2))
  /\ (forall i1 i2 i3 i4 d,
     add_conv_shift2 SRC DST shift dither i1 i2 i3 i4 d
     = mk2 (convert (sum4 (x2 i1) (x2 i2) (x2 i3) (x2 i4) 2))
           (convert (sum4 (y2 i1) (y2 i2) (y2 i3) (y2 i4) 2)))
  /\ (forall i1 i2 i3 i4 d,
     add_conv_shift2_x SRC DST shift dither i1 i2 i3 i4 d
     = convert (sum4 (x2 i1) (x2 i2) (x2 i3) (x2 i4) 2))
  /\ (forall i1 i2 i3 i4 d,
     add_conv_shift2_y SRC DST shift dither i1 i2 i3 i4 d
     = convert (sum4 (y2 i1) (y2 i2) (y2 i3) (y2 i4) 2))
  /\ (forall i1 i2 i3 i4 d,
     add_conv_shift3 SRC DST shift dither i1 i2 i3 i4 d
     = mk3 (convert (sum4 (x3 i1) (x3 i2) (x3 i3) (x3 i4) 2))
           (convert (sum4 (y3 i1) (y3 i2) (y3 i3) (y3 i4) 2))
           (convert (sum4 (z3 i1) (z3 i2) (z3 i3) (z3 i4) 2)))
  /\ (forall i1 i2 i3 i4 d,
     add_conv_shift4 SRC DST shift dither i1 i2 i3 i4 d
     = mk4 (convert (sum4 (x4 i1) (x4 i2) (x4 i3) (x4 i4) 2))
           (convert (sum4 (y4 i1) (y4 i2) (y4 i3) (y4 i4) 2))
           (convert (sum4 (z4 i1) (z4 i2) (z4 i3) (z4 i4) 2))
           (convert (sum4 (w4 i1) (w4 i2) (w4 i3) (w4 i4) 2))).
Proof.
  intros bytes size dstbase convert sum4.
  assert (Eb : forall b, bytes b = sizeof_base b) by (now intros []).
  assert (Es : size SRC = sizeof SRC) by (now destruct SRC as [[] | [] | [] | []]).
  assert (Ed : dstbase = base DST) by (now destruct DST).
  subst convert sum4. cbv beta. rewrite Es, Ed, (Eb (base DST)).
  clearbody bytes size dstbase.
  repeat split; intros.
  - unfold add_conv_shift1_d. cbv zeta.
    now rewrite select_plain, accumulate_mod.
  - unfold add_conv_shift1. cbv zeta.
    now rewrite select_plain, accumulate_mod.
  - unfold add_conv_shift2. cbv zeta. rewrite <- !accumulate_mod.
    rewrite <- !select_plain. now destruct (shift >? -2).
  - unfold add_conv_shift2_x, add_conv_shift1. cbv zeta.
    now rewrite select_plain, accumulate_mod.
  - unfold add_conv_shift2_y, add_conv_shift1. cbv zeta.
    now rewrite select_plain, accumulate_mod.
  - unfold add_conv_shift3. cbv zeta. rewrite <- !accumulate_mod.
    rewrite <- !select_plain. now destruct (shift >? -2).
  - unfold add_conv_shift4. cbv zeta. rewrite <- !accumulate_mod.
    rewrite <- !select_plain. now destruct (shift >? -2).
Qed.

(** ** Rounding and the dither bias *)

Lemma dither_bias_range (SRC : ctype) (dither d : Z) :
  0 <= d -> 0 <= dither_bias SRC dither d <= 1 + d.
Proof.
  intros Hd. unfold dither_bias, to_size_t.
  set (k := (sizeof SRC * 8 - dither + 3) mod 2 ^ 64).
  assert (Hk : 0 <= k) by (apply Z.mod_pos_bound; reflexivity).
  rewrite Z.shiftr_div_pow2 by exact Hk.
  assert (Hp : 0 < 2 ^ k) by (apply Z.pow_pos_nonneg; lia).
  split.
  - apply Z.div_pos; lia.
  - apply Z.div_le_upper_bound; nia.
Qed.

Lemma sample_bound (b : basetype) (v : Z) :
  sizeof_base b <= 2 -> in_range b v -> 0 <= v < 2 ^ 16.
Proof.
  unfold in_range, bits. destruct b; cbn; intros Hb Hv; lia.
Qed.

(** With equal depths the sum of four samples and the bias 2, shifted by
    two bits, is again a sample. *)
Lemma rounded_average_in_range (b : basetype) (i1 i2 i3 i4 bias : Z) :
  in_range b i1 -> in_range b i2 -> in_range b i3 -> in_range b i4 ->
  0 <= bias <= 3 ->
  in_range b (Z.shiftr (i1 + i2 + i3 + i4 + bias) 2).
Proof.
  unfold in_range. intros H1 H2 H3 H4 Hb.
  rewrite Z.shiftr_div_pow2 by lia. change (2 ^ 2) with 4.
  pose proof (pow2_bits_pos b).
  split.
  - apply Z.div_pos; lia.
  - apply Z.div_lt_upper_bound; lia.
Qed.

(** C6. On the equal-depth path without dither, [add_conv_shift1] with
    [shift = 0] adds 2 to the sum of the four samples and shifts it down
    by two bits, which rounds the mean of the samples to the nearest
    integer with halves going up ([out = floor (sum / 4 + 1/2)]); for the
    samples 10, 10, 10, 10 the output is [(10+10+10+10+2) >> 2 = 10]. *)
Theorem add_conv_shift1_rounds_half_up (b : basetype)
    (dither d i1 i2 i3 i4 : Z) :
  sizeof_base b <= 2 ->
  in_range b i1 -> in_range b i2 -> in_range b i3 -> in_range b i4 ->
  let out := add_conv_shift1 (Scalar b) (Scalar b) 0 dither i1 i2 i3 i4 d in
  out = Z.shiftr (i1 + i2 + i3 + i4 + 2) 2
  /\ 4 * out <= (i1 + i2 + i3 + i4) + 2 < 4 * out + 4
  /\ add_conv_shift1 (Scalar uchar) (Scalar uchar) 0 0 10 10 10 10 0
     = Z.shiftr (10 + 10 + 10 + 10 + 2) 2
  /\ add_conv_shift1 (Scalar uchar) (Scalar uchar) 0 0 10 10 10 10 0 = 10.
Proof.
  intros Hb H1 H2 H3 H4 out.
  assert (Hout : out = Z.shiftr (i1 + i2 + i3 + i4 + 2) 2).
  { subst out. rewrite add_conv_shift1_spec.
    pose proof (sample_bound b i1 Hb H1). pose proof (sample_bound b i2 Hb H2).
    pose proof (sample_bound b i3 Hb H3). pose proof (sample_bound b i4 Hb H4).
    rewrite accumulate_exact by (unfold UINT_MAX; lia).
    unfold shift_and_truncate. cbn [Z.gtb Z.compare base Z.add].
    apply cast_small. apply rounded_average_in_range; auto; lia. }
  split; [exact Hout |].
  split; [| split; reflexivity].
  rewrite Hout, Z.shiftr_div_pow2 by lia. change (2 ^ 2) with 4.
  pose proof (Z.div_mod (i1 + i2 + i3 + i4 + 2) 4 ltac:(lia)).
  pose proof (Z.mod_pos_bound (i1 + i2 + i3 + i4 + 2) 4 ltac:(lia)).
  lia.
Qed.

Lemma add_conv_shift1_rounds_half_up_witness :
  sizeof_base uchar <= 2 /\ in_range uchar 10 /\ in_range uchar 11
  /\ add_conv_shift1 (Scalar uchar) (Scalar uchar) 0 0 10 10 11 11 0
     = Z.shiftr (10 + 10 + 11 + 11 + 2) 2.
Proof.
  assert (H10 : in_range uchar 10) by (unfold in_range, bits, sizeof_base; lia).
  assert (H11 : in_range uchar 11) by (unfold in_range, bits, sizeof_base; lia).
  assert (Hb : sizeof_base uchar <= 2) by (unfold sizeof_base; lia).
  split; [exact Hb |]. split; [exact H10 |]. split; [exact H11 |].
  exact (proj1 (add_conv_shift1_rounds_half_up uchar 0 0 10 10 11 11
                  Hb H10 H10 H11 H11)).
Defined.

(** With the template parameter [dither = 0] the kernel passes [d = 0],
    and the bias of [add_conv_shift1_d] is [1 >> (8 * sizeof(SRC) + 3)],
    which is 0: the sum is truncated, not rounded. *)
Lemma add_conv_shift1_d_truncates (b : basetype) (i1 i2 i3 i4 : Z) :
  sizeof_base b <= 2 ->
  in_range b i1 -> in_range b i2 -> in_range b i3 -> in_range b i4 ->
  add_conv_shift1_d (Scalar b) (Scalar b) 0 0 i1 i2 i3 i4 0
  = Z.shiftr (i1 + i2 + i3 + i4) 2.
Proof.
  intros Hb H1 H2 H3 H4. rewrite add_conv_shift1_d_spec.
  pose proof (sample_bound b i1 Hb H1). pose proof (sample_bound b i2 Hb H2).
  pose proof (sample_bound b i3 Hb H3). pose proof (sample_bound b i4 Hb H4).
  assert (Hz : dither_bias (Scalar b) 0 0 = 0) by (destruct b; reflexivity).
  rewrite Hz, accumulate_exact by (unfold UINT_MAX; lia).
  unfold shift_and_truncate. change (0 >? -2) with true. cbv iota.
  change (2 + 0) with 2. cbn [base].
  rewrite cast_small by (apply rounded_average_in_range; auto; lia).
  now rewrite Z.add_0_r.
Qed.

(** C1. The two functors are not equal at equal depths: for the 8-bit
    samples 1, 1, 0, 0 the kernel [Subsample_Bilinear_8_8], whose functor
    is [add_conv_shift1_d] with [dither = 0], stores [2 >> 2 = 0], and the
    kernel [Subsample_Bilinear_8_8_c], whose functor is
    [add_conv_shift1], stores [(2 + 2) >> 2 = 1]. *)
Theorem equal_depth_functors_differ :
  DITHER (instantiation (d8_8, sfx_)) = 0
  /\ functor (instantiation (d8_8, sfx_)) 1 1 0 0 0 = 0
  /\ functor (instantiation (d8_8, sfx_c)) 1 1 0 0 0 = 1
  /\ add_conv_shift1_d (Scalar uchar) (Scalar uchar) 0 0 1 1 0 0 0
     <> add_conv_shift1 (Scalar uchar) (Scalar uchar) 0 0 1 1 0 0 0.
Proof. repeat split. discriminate. Qed.

(** The template arguments of the 28 kernels. *)
Lemma SHIFT_instantiation (n : kernel_name) :
  SHIFT (instantiation n)
  = match fst n with d8_8 | d16_16 => 0 | d8_16 => -8 | d16_8 => 8 end.
Proof. destruct n as [[] []]; reflexivity. Qed.

Lemma DITHER_instantiation (n : kernel_name) :
  DITHER (instantiation n)
  = match n with (d16_8, sfx_) => 1 | _ => 0 end.
Proof. destruct n as [[] []]; reflexivity. Qed.

Lemma base_SRC_instantiation (n : kernel_name) :
  base (SRC (instantiation n))
  = match fst n with d8_8 | d8_16 => uchar | d16_16 | d16_8 => ushort end.
Proof. destruct n as [[] []]; reflexivity. Qed.

Lemma base_DST_instantiation (n : kernel_name) :
  base (DST (instantiation n))
  = match fst n with d8_8 | d16_8 => uchar | d16_16 | d8_16 => ushort end.
Proof. destruct n as [[] []]; reflexivity. Qed.

(** C9. For samples of the source type of any of the 28 kernels and a
    16-bit dither value, the sum of four samples and the bias (2, or the
    dither bias) stays below [2^32], so that the accumulation in
    [unsigned] is the exact sum; every shift count is below 32 and the
    upward shift does not leave [unsigned] either. *)
Theorem accumulation_does_not_wrap (n : kernel_name) (i1 i2 i3 i4 d : Z) :
  let V := instantiation n in
  let b := base (SRC V) in
  in_range b i1 -> in_range b i2 -> in_range b i3 -> in_range b i4 ->
  in_range ushort d ->
  let bias := dither_bias (Scalar b) (DITHER V) d in
  (i1 + i2 + i3 + i4 + 2 <= UINT_MAX
   /\ accumulate i1 i2 i3 i4 2 = i1 + i2 + i3 + i4 + 2)
  /\ (i1 + i2 + i3 + i4 + bias <= UINT_MAX
      /\ accumulate i1 i2 i3 i4 bias = i1 + i2 + i3 + i4 + bias)
  /\ (0 <= sizeof_base b * 8 - DITHER V + 3 < 32
      /\ to_size_t (sizeof_base b * 8 - DITHER V + 3)
         = sizeof_base b * 8 - DITHER V + 3)
  /\ (if SHIFT V >? -2
      then 0 <= Z.abs (2 + SHIFT V) < 32
      else 0 <= Z.abs (- SHIFT V - 2) < 32
           /\ Z.shiftl (i1 + i2 + i3 + i4 + 2) (Z.abs (- SHIFT V - 2))
              <= UINT_MAX
           /\ Z.shiftl (i1 + i2 + i3 + i4 + bias) (Z.abs (- SHIFT V - 2))
              <= UINT_MAX).
Proof.
  intros V b H1 H2 H3 H4 Hd bias.
  assert (Hb : sizeof_base b <= 2).
  { subst b V. rewrite base_SRC_instantiation.
    destruct (fst n); unfold sizeof_base; lia. }
  pose proof (sample_bound b i1 Hb H1). pose proof (sample_bound b i2 Hb H2).
  pose proof (sample_bound b i3 Hb H3). pose proof (sample_bound b i4 Hb H4).
  assert (Hd' : 0 <= d < 2 ^ 16) by exact Hd.
  pose proof (dither_bias_range (Scalar b) (DITHER V) d ltac:(lia)) as Hbias.
  fold bias in Hbias.
  split; [| split; [| split]].
  - split; [unfold UINT_MAX; lia | apply accumulate_exact; unfold UINT_MAX; lia].
  - split; [unfold UINT_MAX; lia | apply accumulate_exact; unfold UINT_MAX; lia].
  - subst b V. rewrite base_SRC_instantiation, DITHER_instantiation.
    destruct n as [[] []]; cbn [fst sizeof_base]; split; (lia || reflexivity).
  - assert (Hu : b = uchar -> 0 <= i1 + i2 + i3 + i4 + 2 <= 1022
                              /\ 0 <= i1 + i2 + i3 + i4 + bias <= 66556).
    { intros E. rewrite E in H1, H2, H3, H4.
      unfold in_range, bits in H1, H2, H3, H4. cbn in H1, H2, H3, H4. lia. }
    subst bias b V. rewrite base_SRC_instantiation in Hu |- *.
    rewrite SHIFT_instantiation.
    destruct n as [[] sfx]; cbn [fst] in *.
    1, 2, 4: change (0 <= 2 < 32); lia.
    change (Z.abs (- -8 - 2)) with 6. cbv iota.
    change (-8 >? -2) with false. cbv iota.
    destruct (Hu eq_refl) as [Hs2 Hsb].
    rewrite !Z.shiftl_mul_pow2 by lia. unfold UINT_MAX. lia.
Qed.

Lemma accumulation_does_not_wrap_witness :
  in_range ushort 65535
  /\ accumulate 65535 65535 65535 65535 2 = 65535 + 65535 + 65535 + 65535 + 2.
Proof.
  assert (H : in_range ushort 65535)
    by (unfold in_range, bits, sizeof_base; lia).
  split; [exact H |].
  exact (proj2 (proj1 (accumulation_does_not_wrap (d16_8, sfx_)
                         65535 65535 65535 65535 65535 H H H H H))).
Defined.

(** ** The dither value and its bias *)

Lemma sizeof_base_cases (b : basetype) :
  sizeof_base b = 1 \/ sizeof_base b = 2 \/ sizeof_base b = 4.
Proof. destruct b; cbn; auto. Qed.

Lemma ditherLevels_narrowing (SRC DST : basetype) :
  sizeof_base DST < sizeof_base SRC ->
  ditherLevels SRC DST = sizeof_base DST.
Proof.
  intros H. unfold ditherLevels.
  destruct (Z.ltb_spec (sizeof_base DST) (sizeof_base SRC)); [reflexivity | lia].
Qed.

Lemma DITHER_VARIANTSET2 (SRC DST : basetype) (SHIFT : Z) :
  DITHER (VARIANTSET2 SRC DST SHIFT sfx_) = ditherLevels SRC DST.
Proof. reflexivity. Qed.

Lemma dither_bias_count (SRC DST : basetype) :
  to_size_t (sizeof (Scalar SRC) * 8 - ditherLevels SRC DST + 3)
  = bitsInSourceSample SRC - ditherLevels SRC DST + 3.
Proof.
  unfold to_size_t, bitsInSourceSample, ditherLevels. cbn [sizeof].
  destruct SRC, DST; reflexivity.
Qed.

(** C8. In the kernel variant that dithers (the first one of a
    [VARIANTSET2] whose destination sample is narrower than its source
    sample), the bias is
    [(1 + ditherValue) >> (bitsInSourceSample - ditherLevels + 3)], with
    [bitsInSourceSample] 8 times the byte width of the source sample,
    [ditherLevels] the byte width of the destination sample, and
    [ditherValue] the entry of the dither matrix at
    [(xo mod size, yo mod size)] for the destination coordinate
    [(xo, yo)].  The element the kernel stores is the sum of the four
    samples and this bias, modulo [2^32], shifted and cut to the width of
    the destination sample; for samples and a dither value of at most 16
    bits the sum does not wrap.  The right-hand sides are arithmetic of
    [Z] only. *)
Theorem dithered_kernel_bias (SRC DST : basetype) (SHIFT : Z)
    (tex : texture Z) (dst_width dst_height src_width src_height : Z)
    (ditherTex : dither_texture) (xo yo : Z) :
  sizeof_base DST < sizeof_base SRC ->
  let V := VARIANTSET2 SRC DST SHIFT sfx_ in
  let ditherValue :=
    dither_matrix ditherTex (xo mod dither_size ditherTex)
                            (yo mod dither_size ditherTex) in
  let bytes := fun b : basetype =>
    match b with uchar => 1 | ushort => 2 | unsigned => 4 end in
  let bias := Z.shiftr (1 + ditherValue) (8 * bytes SRC - bytes DST + 3) in
  let output := fun i0 i1 i2 i3 : Z =>
    (if SHIFT >? -2
     then Z.shiftr ((i0 + i1 + i2 + i3 + bias) mod 2 ^ 32) (2 + SHIFT)
     else Z.shiftl ((i0 + i1 + i2 + i3 + bias) mod 2 ^ 32) (- SHIFT - 2))
    mod 2 ^ (8 * bytes DST) in
  (bitsInSourceSample SRC = 8 * bytes SRC
   /\ ditherLevels SRC DST = bytes DST
   /\ DITHER V = bytes DST)
  /\ ditherVal (DITHER V) ditherTex xo yo = ditherValue
  /\ (forall i0 i1 i2 i3,
        functor V i0 i1 i2 i3 ditherValue = output i0 i1 i2 i3)
  /\ Subsample_Bilinear_value (functor V) (DITHER V) tex
       dst_width dst_height src_width src_height ditherTex xo yo
     = (let '(i0, i1, i2, i3) :=
          Subsample_Bilinear_reads tex dst_width dst_height
            src_width src_height xo yo in
        output i0 i1 i2 i3)
  /\ (forall i0 i1 i2 i3,
        0 <= i0 < 2 ^ 16 -> 0 <= i1 < 2 ^ 16 ->
        0 <= i2 < 2 ^ 16 -> 0 <= i3 < 2 ^ 16 ->
        0 <= ditherValue < 2 ^ 16 ->
        (i0 + i1 + i2 + i3 + bias) mod 2 ^ 32 = i0 + i1 + i2 + i3 + bias
        /\ functor V i0 i1 i2 i3 ditherValue
           = (if SHIFT >? -2
              then Z.shiftr (i0 + i1 + i2 + i3 + bias) (2 + SHIFT)
              else Z.shiftl (i0 + i1 + i2 + i3 + bias) (- SHIFT - 2))
             mod 2 ^ (8 * bytes DST)).
Proof.
  intros Hn V ditherValue bytes bias output.
  assert (Eb : forall b, bytes b = sizeof_base b) by (now intros []).
  unfold output, bias. rewrite (Eb SRC), (Eb DST). clear output bias.
  set (bias := Z.shiftr (1 + ditherValue)
                 (8 * sizeof_base SRC - sizeof_base DST + 3)).
  set (output := fun i0 i1 i2 i3 : Z =>
    (if SHIFT >? -2
     then Z.shiftr ((i0 + i1 + i2 + i3 + bias) mod 2 ^ 32) (2 + SHIFT)
     else Z.shiftl ((i0 + i1 + i2 + i3 + bias) mod 2 ^ 32) (- SHIFT - 2))
    mod 2 ^ (8 * sizeof_base DST)).
  clearbody bytes.
  assert (HL : ditherLevels SRC DST = sizeof_base DST)
    by now apply ditherLevels_narrowing.
  assert (HD : DITHER V = sizeof_base DST) by (rewrite <- HL; reflexivity).
  assert (Hv : ditherVal (DITHER V) ditherTex xo yo = ditherValue).
  { unfold ditherVal. rewrite HD.
    destruct (Z.eqb_spec (sizeof_base DST) 0) as [E | _].
    - pose proof (sizeof_base_cases DST). lia.
    - reflexivity. }
  assert (Hb : dither_bias (Scalar SRC) (ditherLevels SRC DST) ditherValue
               = bias).
  { unfold dither_bias. rewrite dither_bias_count.
    unfold bitsInSourceSample. now rewrite HL. }
  assert (Hf : forall i0 i1 i2 i3,
             functor V i0 i1 i2 i3 ditherValue = output i0 i1 i2 i3).
  { intros.
    change (functor V i0 i1 i2 i3 ditherValue)
      with (add_conv_shift1_d (Scalar SRC) (Scalar DST) SHIFT
              (ditherLevels SRC DST) i0 i1 i2 i3 ditherValue).
    unfold add_conv_shift1_d. cbv zeta.
    rewrite select_plain, accumulate_mod, Hb. reflexivity. }
  split; [repeat split; assumption |].
  split; [exact Hv |]. split; [exact Hf |]. split.
  - unfold Subsample_Bilinear_value. rewrite Hv.
    destruct (Subsample_Bilinear_reads _ _ _ _ _ _ _) as [[[i0 i1] i2] i3].
    apply Hf.
  - intros i0 i1 i2 i3 H0 H1 H2 H3 Hd.
    assert (Hbias : 0 <= bias <= 1 + ditherValue).
    { unfold bias.
      pose proof (sizeof_base_cases SRC). pose proof (sizeof_base_cases DST).
      rewrite Z.shiftr_div_pow2 by lia.
      assert (0 < 2 ^ (8 * sizeof_base SRC - sizeof_base DST + 3))
        by (apply Z.pow_pos_nonneg; lia).
      split; [apply Z.div_pos; lia |].
      apply Z.div_le_upper_bound; [lia |]. nia. }
    assert (E : (i0 + i1 + i2 + i3 + bias) mod 2 ^ 32
                = i0 + i1 + i2 + i3 + bias) by (apply Z.mod_small; lia).
    split; [exact E |]. rewrite Hf. unfold output. now rewrite E.
Qed.

Lemma dithered_kernel_bias_witness :
  sizeof_base uchar < sizeof_base ushort
  /\ functor (VARIANTSET2 ushort uchar 8 sfx_)
       65535 65535 65535 65535 65535
     = 255.
Proof.
  assert (H : sizeof_base uchar < sizeof_base ushort)
    by (unfold sizeof_base; lia).
  split; [exact H |].
  exact (proj1 (proj2 (proj2 (dithered_kernel_bias ushort uchar 8
                                (fun _ _ => 0) 4 4 8 8
                                {| dither_matrix := fun _ _ => 65535;
                                   dither_size := 2 |}
                                3 1 H)))
           65535 65535 65535 65535).
Defined.

(** In the one instantiated kernel that dithers,
    [Subsample_Bilinear_16_8], the count of the shift is
    [16 - 1 + 3 = 18]: the bias of a 16-bit dither value is 0. *)
Lemma Subsample_Bilinear_16_8_bias (d : Z) :
  in_range ushort d ->
  DITHER (instantiation (d16_8, sfx_)) = 1
  /\ dither_bias (SRC (instantiation (d16_8, sfx_)))
                 (DITHER (instantiation (d16_8, sfx_))) d
     = Z.shiftr (1 + d) 18
  /\ Z.shiftr (1 + d) 18 = 0.
Proof.
  intros Hd. split; [reflexivity |]. split; [reflexivity |].
  unfold in_range, bits, sizeof_base in Hd.
  rewrite Z.shiftr_div_pow2 by lia. apply Z.div_small. lia.
Qed.

(** ** Where dithering is enabled *)

Lemma BITS_div (n : Z) : BITS n = 8 * ((n + 7) / 8).
Proof.
  unfold BITS. rewrite <- Z.ldiff_land.
  change 7 with (Z.ones 3) at 2.
  rewrite Z.ldiff_ones_r by lia.
  rewrite Z.shiftr_div_pow2, Z.shiftl_mul_pow2 by lia.
  change (2 ^ 3) with 8. lia.
Qed.

Lemma BITS_8 (n : Z) : BITS n = 8 <-> 1 <= n <= 8.
Proof.
  rewrite BITS_div.
  pose proof (Z.div_mod (n + 7) 8 ltac:(lia)).
  pose proof (Z.mod_pos_bound (n + 7) 8 ltac:(lia)). lia.
Qed.

Lemma BITS_16 (n : Z) : BITS n = 16 <-> 9 <= n <= 16.
Proof.
  rewrite BITS_div.
  pose proof (Z.div_mod (n + 7) 8 ltac:(lia)).
  pose proof (Z.mod_pos_bound (n + 7) 8 ltac:(lia)). lia.
Qed.


Lemma ditherVal_off (dither : Z) (t : dither_texture) (xo yo : Z) :
  dither = 0 -> ditherVal dither t xo yo = 0.
Proof. intros ->. reflexivity. Qed.






(** ** The stores of the kernel *)

Lemma to_size_t_small (v : Z) : 0 <= v < 2 ^ 64 -> to_size_t v = v.
Proof. intros H. unfold to_size_t. now apply Z.mod_small. Qed.

Lemma to_int_small (v : Z) : 0 <= v < 2 ^ 31 -> to_int v = v.
Proof. intros H. unfold to_int. rewrite Z.mod_small; lia. Qed.

Lemma thread_coord_small (b bd t : Z) :
  0 <= b * bd + t < 2 ^ 31 -> thread_coord b bd t = b * bd + t.
Proof.
  intros H. unfold thread_coord.
  rewrite to_unsigned_small by (unfold UINT_MAX; lia).
  now apply to_int_small.
Qed.

Lemma dst_index_exact (sizeof_DST pitch dst_pitch xo yo : Z) :
  0 <= yo < 2 ^ 31 -> 0 <= dst_pitch < 2 ^ 31 -> 0 < sizeof_DST ->
  0 <= xo * pitch < 2 ^ 31 ->
  dst_index sizeof_DST pitch dst_pitch xo yo
  = yo * (dst_pitch / sizeof_DST) + xo * pitch.
Proof.
  intros Hy Hp Hs Hx. unfold dst_index.
  assert (Hq : 0 <= dst_pitch / sizeof_DST < 2 ^ 31).
  { split; [apply Z.div_pos; lia |].
    apply Z.div_lt_upper_bound; [lia |].
    apply Z.lt_le_trans with (1 * 2 ^ 31); [lia |].
    apply Z.mul_le_mono_nonneg_r; lia. }
  rewrite (to_size_t_small yo), (to_size_t_small dst_pitch) by lia.
  rewrite to_int_small by lia.
  assert (Hm : 0 <= yo * (dst_pitch / sizeof_DST) < 2 ^ 62).
  { split; [apply Z.mul_nonneg_nonneg; lia |].
    change (2 ^ 62) with (2 ^ 31 * 2 ^ 31).
    apply Z.mul_lt_mono_nonneg; lia. }
  rewrite (to_size_t_small (yo * _)), (to_size_t_small (xo * pitch)) by lia.
  apply to_size_t_small. lia.
Qed.

Section Stores.

Context {S D : Type}.
Variable sizeof_DST : Z.
Variable conv : S -> S -> S -> S -> Z -> D.
Variables pitch dither : Z.
Variable tex : texture S.
Variables dst_width dst_height dst_pitch src_width src_height : Z.
Variable ditherTex : dither_texture.


Lemma store_guard (xo yo : Z) :
  is_Some ((Subsample_Bilinear_store sizeof_DST conv pitch dither tex dst_width dst_height dst_pitch src_width src_height ditherTex xo yo)) <-> xo < dst_width /\ yo < dst_height.
Proof.
  unfold Subsample_Bilinear_store.
  destruct (Z.ltb_spec yo dst_height), (Z.ltb_spec xo dst_width); cbn [andb];
    (split; [intros [? E]; (discriminate E || lia) | intros; (lia || eauto)]).
Qed.

Lemma store_index (xo yo i : Z) (v : D) :
  (Subsample_Bilinear_store sizeof_DST conv pitch dither tex dst_width dst_height dst_pitch src_width src_height ditherTex xo yo) = Some (i, v) ->
  i = dst_index sizeof_DST pitch dst_pitch xo yo
  /\ v = Subsample_Bilinear_value conv dither tex dst_width dst_height
           src_width src_height ditherTex xo yo.
Proof.
  unfold Subsample_Bilinear_store.
  destruct (_ && _); [| discriminate]. now intros [= <- <-].
Qed.

(** A thread changes no element but the one it stores to. *)
Lemma run_at_other (dst : gmap Z D) (xo yo j : Z) :
  (xo < dst_width -> yo < dst_height ->
   j <> dst_index sizeof_DST pitch dst_pitch xo yo) ->
  Subsample_Bilinear_at sizeof_DST conv pitch dither tex dst dst_width dst_height dst_pitch src_width src_height ditherTex xo yo !! j = dst !! j.
Proof.
  intros Hj. unfold Subsample_Bilinear_at.
  destruct ((Subsample_Bilinear_store sizeof_DST conv pitch dither tex dst_width dst_height dst_pitch src_width src_height ditherTex xo yo)) as [[i v] |] eqn:E; [| reflexivity].
  assert (Hg : xo < dst_width /\ yo < dst_height)
    by (apply store_guard; rewrite E; eauto).
  apply store_index in E. destruct E as [-> _].
  apply lookup_insert_ne. intros Heq. now apply Hj.
Qed.

(** The threads of the grid that [call_resize_kernel] launches have
    coordinates that are not negative. *)
Lemma threads_coords (bt : (Z * Z) * (Z * Z)) :
  dst_width <= 2 ^ 31 - 32 -> dst_height <= 2 ^ 31 - 16 ->
  bt ∈ threads (DIV_UP dst_width BLOCKX, DIV_UP dst_height BLOCKY)
               (BLOCKX, BLOCKY) ->
  let xo := thread_coord (fst (fst bt)) BLOCKX (fst (snd bt)) in
  let yo := thread_coord (snd (fst bt)) BLOCKY (snd (snd bt)) in
  0 <= xo < 2 ^ 31 /\ 0 <= yo < 2 ^ 31.
Proof.
  intros Hw Hh Hin. unfold threads in Hin. cbn [fst snd] in Hin.
  apply list_elem_of_bind in Hin. destruct Hin as (bx & Hin & Hbx).
  apply list_elem_of_bind in Hin. destruct Hin as (by_ & Hin & Hby).
  apply list_elem_of_bind in Hin. destruct Hin as (tx & Hin & Htx).
  apply list_elem_of_bind in Hin. destruct Hin as (ty & Hin & Hty).
  apply list_elem_of_singleton in Hin. subst bt. cbn [fst snd].
  apply elem_of_seqZ in Hbx, Hby, Htx, Hty.
  unfold DIV_UP, BLOCKX, BLOCKY in *.
  assert (Hx : 32 * ((dst_width + 32 - 1) / 32) <= dst_width + 32 - 1)
    by (apply Z.mul_div_le; lia).
  assert (Hy : 16 * ((dst_height + 16 - 1) / 16) <= dst_height + 16 - 1)
    by (apply Z.mul_div_le; lia).
  rewrite !thread_coord_small by lia. lia.
Qed.

(** A launch changes no element but those that some thread inside the
    [dst_width] x [dst_height] grid stores to. *)
Lemma launch_frame (dst : gmap Z D) (j : Z) :
  dst_width <= 2 ^ 31 - 32 -> dst_height <= 2 ^ 31 - 16 ->
  (forall xo yo, 0 <= xo < dst_width -> 0 <= yo < dst_height ->
                 j <> dst_index sizeof_DST pitch dst_pitch xo yo) ->
  cuLaunchKernel (fun m => Subsample_Bilinear sizeof_DST conv pitch dither tex m dst_width dst_height dst_pitch src_width src_height ditherTex)
    (DIV_UP dst_width BLOCKX, DIV_UP dst_height BLOCKY) (BLOCKX, BLOCKY) dst
  !! j = dst !! j.
Proof.
  intros Hw Hh Hj. unfold cuLaunchKernel.
  set (l := threads _ _).
  assert (Hl : forall bt, bt ∈ l ->
            bt ∈ threads (DIV_UP dst_width BLOCKX, DIV_UP dst_height BLOCKY)
                         (BLOCKX, BLOCKY)) by auto.
  clearbody l. revert dst.
  induction l as [| bt l IH]; intros dst; [reflexivity |].
  cbn [fold_left]. rewrite IH by (intros; apply Hl; now right).
  unfold Subsample_Bilinear. cbn [fst snd].
  pose proof (threads_coords bt Hw Hh (Hl bt ltac:(left))) as [Hx Hy].
  cbv zeta in Hx, Hy.
  apply run_at_other. intros Hxw Hyh. apply Hj; lia.
Qed.

End Stores.

(** ** The dimensions of the chroma planes *)

Lemma AV_CEIL_RSHIFT_ceiling (a b : Z) :
  0 <= b -> ceiling_shift a b (AV_CEIL_RSHIFT a b).
Proof.
  intros Hb. unfold ceiling_shift, AV_CEIL_RSHIFT.
  assert (Hp : 0 < 2 ^ b) by (apply Z.pow_pos_nonneg; lia).
  pose proof (Z.div_mod (a + 2 ^ b - 1) (2 ^ b) ltac:(lia)).
  pose proof (Z.mod_pos_bound (a + 2 ^ b - 1) (2 ^ b) Hp).
  lia.
Qed.

(** The ceiling shift is the negated shift of the negated number, the
    form [-((-a) >> b)] that a C macro gives it. *)
Lemma AV_CEIL_RSHIFT_opp (a b : Z) :
  0 <= b -> AV_CEIL_RSHIFT a b = - Z.shiftr (- a) b.
Proof.
  intros Hb. rewrite Z.shiftr_div_pow2 by exact Hb.
  pose proof (AV_CEIL_RSHIFT_ceiling a b Hb) as Hc.
  unfold ceiling_shift in Hc.
  assert (Hp : 0 < 2 ^ b) by (apply Z.pow_pos_nonneg; lia).
  pose proof (Z.div_mod (- a) (2 ^ b) ltac:(lia)).
  pose proof (Z.mod_pos_bound (- a) (2 ^ b) Hp).
  nia.
Qed.

(** The ceiling shift and the truncating shift of [init_stage] differ
    exactly on the numbers that are not multiples of [2^b]. *)
Lemma AV_CEIL_RSHIFT_shiftr (a b : Z) :
  0 <= b ->
  AV_CEIL_RSHIFT a b
  = Z.shiftr a b + (if a mod 2 ^ b =? 0 then 0 else 1).
Proof.
  intros Hb. rewrite Z.shiftr_div_pow2 by exact Hb.
  pose proof (AV_CEIL_RSHIFT_ceiling a b Hb) as Hc.
  unfold ceiling_shift in Hc.
  assert (Hp : 0 < 2 ^ b) by (apply Z.pow_pos_nonneg; lia).
  pose proof (Z.div_mod a (2 ^ b) ltac:(lia)).
  pose proof (Z.mod_pos_bound a (2 ^ b) Hp).
  destruct (Z.eqb_spec (a mod 2 ^ b) 0); nia.
Qed.

(** C3. The source and destination dimensions of every chroma launch of
    [scalecuda_resize] are the luma dimensions of the input and output
    frame divided by [2^log2_chroma_w] and [2^log2_chroma_h] of the
    respective format, rounded up: 1920x1080 gives 960x540 and 1921x1081
    gives 961x541 for 4:2:0. *)
Theorem chroma_launch_dimensions (s : CUDAScaleContext) (out in_ : AVFrame) :
  0 <= log2_chroma_w (in_desc s) -> 0 <= log2_chroma_h (in_desc s) ->
  0 <= log2_chroma_w (out_desc s) -> 0 <= log2_chroma_h (out_desc s) ->
  tl (scalecuda_resize s out in_) = chroma_launches s out in_
  /\ chroma_launches s out in_ <> []
  /\ Forall (fun l =>
       ceiling_shift (width in_) (log2_chroma_w (in_desc s)) (l_src_width l)
       /\ ceiling_shift (height in_) (log2_chroma_h (in_desc s))
            (l_src_height l)
       /\ ceiling_shift (width out) (log2_chroma_w (out_desc s))
            (l_dst_width l)
       /\ ceiling_shift (height out) (log2_chroma_h (out_desc s))
            (l_dst_height l))
       (chroma_launches s out in_)
  /\ (AV_CEIL_RSHIFT 1920 1 = 960 /\ AV_CEIL_RSHIFT 1080 1 = 540)
  /\ (AV_CEIL_RSHIFT 1921 1 = 961 /\ AV_CEIL_RSHIFT 1081 1 = 541).
Proof.
  intros Hiw Hih How Hoh.
  split; [reflexivity |].
  split; [unfold chroma_launches; discriminate |].
  split; [| split; split; reflexivity].
  unfold chroma_launches.
  destruct (cu_func_chroma_v s); repeat constructor; cbn;
    now apply AV_CEIL_RSHIFT_ceiling.
Qed.

Lemma chroma_launch_dimensions_witness :
  0 <= log2_chroma_w yuv420p /\ 0 <= log2_chroma_h nv12
  /\ map (fun l => (l_src_width l, l_src_height l,
                    l_dst_width l, l_dst_height l))
       (tl (scalecuda_resize
              (match select_kernels
                       (Host.Build_CUDAScaleContext [] [] None None None
                          yuv420p nv12 3 2 None)
               with Ok s => s | Error _ => context_of yuv420p nv12 end)
              (frame_of 1281 721 2048) (frame_of 1921 1081 2048)))
     = [(961, 541, 641, 361); (961, 541, 641, 361)].
Proof.
  assert (H : 0 <= 1) by lia.
  split; [exact H |]. split; [exact H |].
  rewrite (proj1 (chroma_launch_dimensions
                    (match select_kernels
                             (Host.Build_CUDAScaleContext [] [] None None None
                                yuv420p nv12 3 2 None)
                     with Ok s => s | Error _ => context_of yuv420p nv12 end)
                    (frame_of 1281 721 2048) (frame_of 1921 1081 2048)
                    H H H H)).
  reflexivity.
Defined.

(** [init_stage] fills its table of plane sizes with the truncating
    shift; [scalecuda_resize] does not read that table. *)
Lemma init_stage_planes_truncate :
  init_stage_planes 1 1 1 1 {| pl_width := 1921; pl_height := 1081 |}
                            {| pl_width := 1281; pl_height := 721 |}
  = ([ {| pl_width := 1921; pl_height := 1081 |};
       {| pl_width := 960; pl_height := 540 |};
       {| pl_width := 960; pl_height := 540 |} ],
     [ {| pl_width := 1281; pl_height := 721 |};
       {| pl_width := 640; pl_height := 360 |};
       {| pl_width := 640; pl_height := 360 |} ]).
Proof. reflexivity. Qed.

(** ** binary32: the number of digits *)

Lemma digits2_pos_bounds (p : positive) :
  2 ^ (Zpos (digits2_pos p) - 1) <= Zpos p < 2 ^ Zpos (digits2_pos p).
Proof.
  induction p as [p IH | p IH |]; cbn [digits2_pos].
  - rewrite Pos2Z.inj_succ.
    replace (Z.succ (Zpos (digits2_pos p)) - 1) with (Zpos (digits2_pos p)) by lia.
    rewrite Z.pow_succ_r by lia.
    replace (Zpos (digits2_pos p)) with (Zpos (digits2_pos p) - 1 + 1) at 1 by lia.
    rewrite Z.pow_add_r by lia. lia.
  - rewrite Pos2Z.inj_succ.
    replace (Z.succ (Zpos (digits2_pos p)) - 1) with (Zpos (digits2_pos p)) by lia.
    rewrite Z.pow_succ_r by lia.
    replace (Zpos (digits2_pos p)) with (Zpos (digits2_pos p) - 1 + 1) at 1 by lia.
    rewrite Z.pow_add_r by lia. lia.
  - cbn. lia.
Qed.

Lemma Zdigits2_bounds (m : Z) :
  0 < m -> 2 ^ (Zdigits2 m - 1) <= m < 2 ^ Zdigits2 m.
Proof. destruct m as [| p | p]; try lia. intros _. apply digits2_pos_bounds. Qed.

Lemma Zdigits2_pos (m : Z) : 0 < m -> 0 < Zdigits2 m.
Proof. destruct m; cbn; lia. Qed.

Lemma pow2_lt_inv (a b : Z) : 0 <= b -> 2 ^ a < 2 ^ b -> a < b.
Proof.
  intros Hb H. destruct (Z.lt_ge_cases a b) as [|Hge]; [assumption|].
  exfalso. assert (2 ^ b <= 2 ^ a) by (apply Z.pow_le_mono_r; lia). lia.
Qed.

Lemma Zdigits2_unique (m k : Z) :
  2 ^ (k - 1) <= m < 2 ^ k -> 0 < m -> Zdigits2 m = k.
Proof.
  intros [Hl Hu] Hm.
  pose proof (Zdigits2_bounds m Hm) as [Hl' Hu'].
  pose proof (Zdigits2_pos m Hm).
  assert (0 < k).
  { destruct (Z.lt_ge_cases 0 k) as [| Hk]; [assumption |]. exfalso.
    destruct (Z.eq_dec k 0) as [-> | Hne].
    - change (2 ^ 0) with 1 in Hu. lia.
    - rewrite Z.pow_neg_r in Hu by lia. lia. }
  assert (k - 1 < Zdigits2 m) by (apply pow2_lt_inv; lia).
  assert (Zdigits2 m - 1 < k) by (apply pow2_lt_inv; lia).
  lia.
Qed.

Lemma Zdigits2_mul_pow2 (m k : Z) :
  0 < m -> 0 <= k -> Zdigits2 (m * 2 ^ k) = Zdigits2 m + k.
Proof.
  intros Hm Hk. pose proof (Zdigits2_bounds m Hm) as [Hl Hu].
  pose proof (Zdigits2_pos m Hm).
  assert (0 < 2 ^ k) by (apply Z.pow_pos_nonneg; lia).
  apply Zdigits2_unique; [| nia].
  replace (Zdigits2 m + k - 1) with (Zdigits2 m - 1 + k) by lia.
  rewrite !Z.pow_add_r by lia. nia.
Qed.

Lemma Zdigits2_mono (a b : Z) : 0 < a -> a <= b -> Zdigits2 a <= Zdigits2 b.
Proof.
  intros Ha Hab.
  pose proof (Zdigits2_bounds a Ha) as [Hl _].
  pose proof (Zdigits2_bounds b ltac:(lia)) as [_ Hu].
  pose proof (Zdigits2_pos b ltac:(lia)).
  assert (Zdigits2 a - 1 < Zdigits2 b) by (apply pow2_lt_inv; lia). lia.
Qed.

(** ** binary32: shifting a mantissa right *)

Lemma iter_pos_nat {A : Type} (f : A -> A) (p : positive) (x : A) :
  SpecFloat.iter_pos f p x = Nat.iter (Pos.to_nat p) f x.
Proof.
  revert x. induction p as [p IH | p IH |]; intros x; cbn [SpecFloat.iter_pos].
  - rewrite !IH, Pos2Nat.inj_xI. cbn [Nat.iter Nat.mul].
    rewrite Nat.add_0_r, <- Nat.iter_add.
    rewrite <- Nat.iter_succ_r. cbn [Nat.iter]. reflexivity.
  - rewrite !IH, Pos2Nat.inj_xO. cbn [Nat.mul].
    now rewrite Nat.add_0_r, <- Nat.iter_add.
  - reflexivity.
Qed.

Lemma shr_1_arith (m : Z) (r s : bool) :
  0 <= m ->
  shr_1 (Build_shr_record m r s)
  = Build_shr_record (m / 2) (Z.odd m) (r || s).
Proof.
  intros Hm. destruct m as [| p | p]; [reflexivity | | lia].
  destruct p as [p | p |]; cbn [shr_1 Z.odd].
  - f_equal. rewrite Pos2Z.inj_xI.
    apply Z.div_unique with 1; lia.
  - f_equal. rewrite Pos2Z.inj_xO.
    apply Z.div_unique with 0; lia.
  - reflexivity.
Qed.

(** The record after [k + 1] steps. *)
Lemma shr_iter (k : nat) (m : Z) (r s : bool) :
  0 <= m ->
  Nat.iter (S k) shr_1 (Build_shr_record m r s)
  = Build_shr_record (m / 2 ^ Z.of_nat (S k))
      (Z.odd (m / 2 ^ Z.of_nat k))
      (r || s || negb (m mod 2 ^ Z.of_nat k =? 0)).
Proof.
  intros Hm. induction k as [| k IH].
  - cbn [Nat.iter]. rewrite shr_1_arith by exact Hm.
    change (2 ^ Z.of_nat 1) with 2. change (2 ^ Z.of_nat 0) with 1.
    rewrite Z.div_1_r, Z.mod_1_r. cbn. now rewrite orb_false_r.
  - change (Nat.iter (S (S k)) shr_1 ?x) with (shr_1 (Nat.iter (S k) shr_1 x)).
    rewrite IH.
    assert (Hp : 0 < 2 ^ Z.of_nat k) by (apply Z.pow_pos_nonneg; lia).
    assert (Hq : 0 <= m / 2 ^ Z.of_nat (S k))
      by (apply Z.div_pos; [lia | apply Z.pow_pos_nonneg; lia]).
    rewrite shr_1_arith by exact Hq.
    assert (E1 : 2 ^ Z.of_nat (S k) = 2 ^ Z.of_nat k * 2)
      by (rewrite Nat2Z.inj_succ, Z.pow_succ_r; lia).
    assert (E2 : 2 ^ Z.of_nat (S (S k)) = 2 ^ Z.of_nat (S k) * 2)
      by (rewrite (Nat2Z.inj_succ (S k)), Z.pow_succ_r; lia).
    f_equal.
    + rewrite E2, Z.div_div by lia. reflexivity.
    + assert (Es : negb (m mod 2 ^ Z.of_nat (S k) =? 0)
                   = Z.odd (m / 2 ^ Z.of_nat k)
                     || negb (m mod 2 ^ Z.of_nat k =? 0)).
      { rewrite E1, Z.rem_mul_r by lia.
        pose proof (Z.mod_pos_bound m (2 ^ Z.of_nat k) Hp).
        pose proof (Z.mod_pos_bound (m / 2 ^ Z.of_nat k) 2 ltac:(lia)).
        rewrite Zodd_mod.
        clear IH.
        destruct (Z.eqb_spec (m mod 2 ^ Z.of_nat k
                              + 2 ^ Z.of_nat k * ((m / 2 ^ Z.of_nat k) mod 2)) 0);
        destruct (Z.eqb_spec (m mod 2 ^ Z.of_nat k) 0) as [E | E];
        destruct (Z.eqb_spec ((m / 2 ^ Z.of_nat k) mod 2) 1) as [E' | E'];
          cbn [orb negb]; try reflexivity; exfalso; nia. }
      rewrite Es. destruct r, s, (Z.odd (m / 2 ^ Z.of_nat k)); reflexivity.
Qed.

Lemma shr_pos (p : positive) (m : Z) (r s : bool) :
  0 <= m ->
  SpecFloat.iter_pos shr_1 p (Build_shr_record m r s)
  = Build_shr_record (m / 2 ^ Zpos p)
      (Z.odd (m / 2 ^ (Zpos p - 1)))
      (r || s || negb (m mod 2 ^ (Zpos p - 1) =? 0)).
Proof.
  intros Hm. rewrite iter_pos_nat.
  destruct (Pos2Nat.is_succ p) as [k Hk]. rewrite Hk.
  rewrite shr_iter by exact Hm.
  assert (Zpos p = Z.of_nat (S k)) by (rewrite <- Hk; now rewrite positive_nat_Z).
  replace (Z.of_nat k) with (Zpos p - 1) by lia.
  now replace (Z.of_nat (S k)) with (Zpos p) by lia.
Qed.

(** Rounding to nearest even on a record. *)
Lemma round_nearest_even_arith (m : Z) (r s : bool) :
  round_nearest_even m (loc_of_shr_record (Build_shr_record m r s))
  = m + (if r && (s || Z.odd m) then 1 else 0).
Proof.
  destruct r, s; cbn [loc_of_shr_record round_nearest_even andb orb];
    rewrite <- ?Z.negb_even; destruct (Z.even m); cbn; lia.
Qed.

(** Shifting an exact mantissa and rounding it is [rne_shift]. *)
Lemma shr_round_exact (p : positive) (m : Z) :
  0 <= m ->
  let mrs := SpecFloat.iter_pos shr_1 p (Build_shr_record m false false) in
  round_nearest_even (shr_m mrs) (loc_of_shr_record mrs)
  = rne_shift m (Zpos p).
Proof.
  intros Hm mrs. subst mrs. rewrite shr_pos by exact Hm. cbn [shr_m].
  rewrite round_nearest_even_arith. unfold rne_shift. cbn [orb].
  set (k := Zpos p). set (h := 2 ^ (k - 1)).
  assert (Hh : 0 < h) by (apply Z.pow_pos_nonneg; lia).
  assert (E : 2 ^ k = h * 2).
  { unfold h. replace k with (k - 1 + 1) at 1 by lia.
    rewrite Z.pow_add_r by lia. reflexivity. }
  rewrite E, Z.rem_mul_r by lia. rewrite <- Z.div_div by lia.
  pose proof (Z.mod_pos_bound m h Hh) as Hr.
  pose proof (Z.mod_pos_bound (m / h) 2 ltac:(lia)) as Hb.
  rewrite (Zodd_mod (m / h)).
  rewrite <- Z.negb_even.
  pose proof (Z.div_mod (m / h) 2 ltac:(lia)) as Hd.
  destruct (Z.eqb_spec ((m / h) mod 2) 1) as [E1 | E1];
  destruct (Z.eqb_spec (m mod h) 0) as [E0 | E0]; cbn [andb orb negb].
  - rewrite E0, E1.
    replace (0 + h * 1 <? h) with false by (symmetry; apply Z.ltb_ge; lia).
    replace (h <? 0 + h * 1) with false by (symmetry; apply Z.ltb_ge; lia).
    destruct (Z.even (m / h / 2)); cbn; lia.
  - rewrite E1.
    replace (m mod h + h * 1 <? h) with false by (symmetry; apply Z.ltb_ge; lia).
    replace (h <? m mod h + h * 1) with true by (symmetry; apply Z.ltb_lt; lia).
    lia.
  - assert (Ez : (m / h) mod 2 = 0) by lia. rewrite E0, Ez.
    replace (0 + h * 0 <? h) with true by (symmetry; apply Z.ltb_lt; lia). lia.
  - assert (Ez : (m / h) mod 2 = 0) by lia. rewrite Ez.
    replace (m mod h + h * 0 <? h) with true by (symmetry; apply Z.ltb_lt; lia).
    lia.
Qed.

(** ** binary32: rounding a mantissa *)

Lemma fexp_eq (x : Z) : fexp prec emax x = Z.max (x - 24) (-149).
Proof. reflexivity. Qed.

Lemma rne_shift_bounds (V s : Z) :
  V / 2 ^ s <= rne_shift V s <= V / 2 ^ s + 1.
Proof.
  unfold rne_shift.
  repeat match goal with |- context [if ?c then _ else _] => destruct c end; lia.
Qed.

Lemma div_pow2_lt (m d n : Z) :
  0 <= m < 2 ^ d -> 0 <= n -> 0 <= d - n -> m / 2 ^ n < 2 ^ (d - n).
Proof.
  intros Hm Hn Hd.
  assert (0 < 2 ^ n) by (apply Z.pow_pos_nonneg; lia).
  apply Z.div_lt_upper_bound; [lia |].
  rewrite <- Z.pow_add_r by lia. now replace (n + (d - n)) with d by lia.
Qed.

(** The mantissa after the first shift and the rounding is at most
    [2^prec]. *)
Lemma round_pair_first (m e : Z) :
  0 < m ->
  let n := fexp prec emax (Zdigits2 m + e) - e in
  0 <= n ->
  0 <= (if 0 <? n then rne_shift m n else m) <= 2 ^ prec.
Proof.
  intros Hm n Hn. pose proof (Zdigits2_bounds m Hm) as [_ Hu].
  pose proof (Zdigits2_pos m Hm) as Hd.
  assert (Hge : Zdigits2 m - 24 <= n) by (unfold n; rewrite fexp_eq; lia).
  assert (H24 : 2 ^ prec = 2 ^ 24) by reflexivity.
  destruct (Z.ltb_spec 0 n) as [Hpos | Hz].
  - pose proof (rne_shift_bounds m n) as [Hl Hr].
    assert (0 <= m / 2 ^ n)
      by (apply Z.div_pos; [lia | apply Z.pow_pos_nonneg; lia]).
    split; [lia |].
    destruct (Z.le_gt_cases n (Zdigits2 m)) as [Hle | Hgt].
    + assert (m / 2 ^ n < 2 ^ (Zdigits2 m - n))
        by (apply div_pow2_lt; lia).
      assert (2 ^ (Zdigits2 m - n) <= 2 ^ 24)
        by (apply Z.pow_le_mono_r; lia).
      rewrite H24. lia.
    + assert (2 ^ Zdigits2 m <= 2 ^ n) by (apply Z.pow_le_mono_r; lia).
      rewrite Z.div_small in Hr by lia. rewrite H24. lia.
  - assert (n = 0) by lia.
    assert (2 ^ Zdigits2 m <= 2 ^ 24) by (apply Z.pow_le_mono_r; lia).
    rewrite H24. lia.
Qed.

Lemma shr_fexp_exact (m e : Z) :
  0 <= m ->
  let n := fexp prec emax (Zdigits2 m + e) - e in
  shr_fexp prec emax m e loc_Exact
  = (if 0 <? n
     then Build_shr_record (m / 2 ^ n) (Z.odd (m / 2 ^ (n - 1)))
            (negb (m mod 2 ^ (n - 1) =? 0))
     else Build_shr_record m false false,
     if 0 <? n then e + n else e).
Proof.
  intros Hm n. unfold shr_fexp. fold n. cbn [shr_record_of_loc].
  unfold shr. destruct n as [| p | p] eqn:E; try reflexivity.
  rewrite shr_pos by exact Hm. reflexivity.
Qed.

Theorem binary_round_aux_exact (m e : Z) :
  0 < m ->
  0 <= fexp prec emax (Zdigits2 m + e) - e ->
  binary_round_aux prec emax false m e loc_Exact
  = float_of_pair (round_pair m e).
Proof.
  intros Hm Hn.
  pose proof (round_pair_first m e Hm Hn) as HM.
  unfold binary_round_aux, round_pair.
  set (n := fexp prec emax (Zdigits2 m + e) - e) in *.
  assert (HE : -149 <= (if 0 <? n then e + n else e)).
  { destruct (Z.ltb_spec 0 n); unfold n in *; rewrite fexp_eq in *; lia. }
  assert (H1 : shr_fexp prec emax m e loc_Exact
               = (if 0 <? n
                  then SpecFloat.iter_pos shr_1 (Z.to_pos n)
                         (Build_shr_record m false false)
                  else Build_shr_record m false false,
                  if 0 <? n then e + n else e)).
  { unfold shr_fexp. fold n. cbn [shr_record_of_loc]. unfold shr.
    destruct n as [| p | p]; reflexivity || lia. }
  rewrite H1.
  assert (H2 : round_nearest_even
                 (shr_m (if 0 <? n
                         then SpecFloat.iter_pos shr_1 (Z.to_pos n)
                                (Build_shr_record m false false)
                         else Build_shr_record m false false))
                 (loc_of_shr_record
                    (if 0 <? n
                     then SpecFloat.iter_pos shr_1 (Z.to_pos n)
                            (Build_shr_record m false false)
                     else Build_shr_record m false false))
               = if 0 <? n then rne_shift m n else m).
  { destruct (Z.ltb_spec 0 n) as [Hp | Hz]; [| reflexivity].
    rewrite shr_round_exact by lia. now rewrite Z2Pos.id by lia. }
  rewrite H2.
  set (M := if 0 <? n then rne_shift m n else m) in *.
  set (E := if 0 <? n then e + n else e) in *.
  destruct (Z.eqb_spec M (2 ^ prec)) as [EM | NM].
  - rewrite EM.
    replace (shr_fexp prec emax (2 ^ prec) E loc_Exact)
      with (Build_shr_record (2 ^ (prec - 1)) false false, E + 1).
    + reflexivity.
    + rewrite shr_fexp_exact by (cbn; lia).
      change (Zdigits2 (2 ^ prec)) with 25. rewrite fexp_eq.
      replace (Z.max (25 + E - 24) (-149) - E) with 1 by lia. reflexivity.
  - assert (HM' : 0 <= M < 2 ^ prec) by lia.
    replace (shr_fexp prec emax M E loc_Exact)
      with (Build_shr_record M false false, E).
    + reflexivity.
    + rewrite shr_fexp_exact by lia.
      assert (Hn2 : fexp prec emax (Zdigits2 M + E) - E <= 0).
      { rewrite fexp_eq.
        destruct (Z.eq_dec M 0) as [-> | Hne]; [cbn [Zdigits2]; lia |].
        pose proof (Zdigits2_bounds M ltac:(lia)) as [Hl _].
        assert (Zdigits2 M - 1 < 24).
        { apply pow2_lt_inv; [lia |]. change (2 ^ prec) with (2 ^ 24) in HM'. lia. }
        lia. }
      destruct (Z.ltb_spec 0 (fexp prec emax (Zdigits2 M + E) - E)); [lia |].
      reflexivity.
Qed.

(** ** binary32: the value of a rounded mantissa *)

Lemma pow2_pos (k : Z) : 0 <= k -> 0 < 2 ^ k.
Proof. intros. apply Z.pow_pos_nonneg; lia. Qed.

Lemma pow2_split (a b : Z) : 0 <= a -> 0 <= b -> 2 ^ (a + b) = 2 ^ a * 2 ^ b.
Proof. intros. now rewrite Z.pow_add_r. Qed.

Lemma rne_shift_scale (m n k : Z) :
  0 < n -> 0 <= k -> rne_shift (m * 2 ^ k) (n + k) = rne_shift m n.
Proof.
  intros Hn Hk. unfold rne_shift.
  pose proof (pow2_pos k Hk) as Pk. pose proof (pow2_pos n ltac:(lia)) as Pn.
  pose proof (pow2_pos (n - 1) ltac:(lia)) as Ph.
  rewrite (pow2_split n k) by lia.
  replace (n + k - 1) with (n - 1 + k) by lia.
  rewrite (pow2_split (n - 1) k) by lia.
  rewrite Z.div_mul_cancel_r by lia.
  rewrite Z.mul_mod_distr_r by lia.
  pose proof (Z.mod_pos_bound m (2 ^ n) Pn) as Hr.
  set (r := m mod 2 ^ n) in *. set (h := 2 ^ (n - 1)) in *.
  set (q := m / 2 ^ n).
  destruct (Z.ltb_spec r h), (Z.ltb_spec (r * 2 ^ k) (h * 2 ^ k)); try nia.
  destruct (Z.ltb_spec h r), (Z.ltb_spec (h * 2 ^ k) (r * 2 ^ k)); try nia;
    reflexivity.
Qed.

Lemma rne_shift_exact (m s : Z) :
  0 < s -> rne_shift (m * 2 ^ s) s = m.
Proof.
  intros Hs. unfold rne_shift.
  pose proof (pow2_pos s ltac:(lia)). pose proof (pow2_pos (s - 1) ltac:(lia)).
  rewrite Z.div_mul, Z.mod_mul by lia.
  destruct (Z.ltb_spec 0 (2 ^ (s - 1))); [reflexivity | lia].
Qed.

Lemma rne_shift_mono (V1 V2 s : Z) :
  0 < s -> V1 <= V2 -> rne_shift V1 s <= rne_shift V2 s.
Proof.
  intros Hs HV. pose proof (pow2_pos s ltac:(lia)) as Ps.
  assert (Hq : V1 / 2 ^ s <= V2 / 2 ^ s) by (apply Z.div_le_mono; lia).
  pose proof (rne_shift_bounds V1 s). pose proof (rne_shift_bounds V2 s).
  destruct (Z.eq_dec (V1 / 2 ^ s) (V2 / 2 ^ s)) as [E | NE]; [| lia].
  assert (Hr : V1 mod 2 ^ s <= V2 mod 2 ^ s).
  { pose proof (Z.div_mod V1 (2 ^ s) ltac:(lia)).
    pose proof (Z.div_mod V2 (2 ^ s) ltac:(lia)). nia. }
  unfold rne_shift. rewrite E.
  repeat match goal with
         | |- context [Z.ltb ?a ?b] => destruct (Z.ltb_spec a b)
         end; try lia;
  destruct (Z.even (V2 / 2 ^ s)); lia.
Qed.

Lemma scaled_digits (m e : Z) :
  0 < m -> - U <= e -> Zdigits2 (scaled m e) = Zdigits2 m + e + U.
Proof.
  intros Hm He. unfold scaled. rewrite Zdigits2_mul_pow2 by lia. lia.
Qed.

Lemma div_pow2_ge (m d n : Z) :
  2 ^ (d - 1) <= m -> 0 <= n <= d - 1 -> 2 ^ (d - 1 - n) <= m / 2 ^ n.
Proof.
  intros Hm Hn. pose proof (pow2_pos n ltac:(lia)).
  apply Z.div_le_lower_bound; [lia |].
  rewrite <- Z.pow_add_r by lia. now replace (n + (d - 1 - n)) with (d - 1) by lia.
Qed.

(** What [round_pair] returns: its value, its range and its form. *)
Lemma round_pair_spec (m e : Z) :
  0 < m -> - U <= e ->
  0 <= fexp prec emax (Zdigits2 m + e) - e ->
  let M := fst (round_pair m e) in
  let E := snd (round_pair m e) in
  scaled M E = rv (scaled m e)
  /\ 0 <= M < 2 ^ 24 /\ -149 <= E
  /\ (M = 0 \/ fexp prec emax (Zdigits2 M + E) = E)
  /\ (-149 < E -> 2 ^ 23 <= M).
Proof.
  intros Hm He Hn.
  pose proof (round_pair_first m e Hm Hn) as HM0.
  unfold round_pair. cbv zeta.
  set (n := fexp prec emax (Zdigits2 m + e) - e) in *.
  set (M0 := if 0 <? n then rne_shift m n else m) in *.
  set (E0 := if 0 <? n then e + n else e).
  pose proof (Zdigits2_bounds m Hm) as [Hdl Hdu].
  pose proof (Zdigits2_pos m Hm) as Hd.
  assert (HE0 : E0 = e + n) by (unfold E0; destruct (Z.ltb_spec 0 n); lia).
  assert (HE0' : E0 = Z.max (Zdigits2 m + e - 24) (-149))
    by (rewrite HE0; unfold n; rewrite fexp_eq; lia).
  assert (Hs : Z.max (Zdigits2 (scaled m e) - prec) (U + emin prec emax)
               = E0 + U).
  { rewrite scaled_digits by lia. change prec with 24.
    change (emin 24 emax) with (-149). lia. }
  assert (Hval : scaled M0 E0 = rv (scaled m e)).
  { unfold rv. rewrite Hs. unfold scaled at 1. f_equal.
    unfold M0. destruct (Z.ltb_spec 0 n) as [Hp | Hz].
    - unfold scaled. replace (E0 + U) with (n + (e + U)) by lia.
      symmetry. apply rne_shift_scale; unfold U in *; lia.
    - assert (n = 0) by lia. unfold scaled.
      replace (E0 + U) with (e + U) by lia.
      symmetry. apply rne_shift_exact. unfold U in *; lia. }
  assert (Hnorm : -149 < E0 -> 2 ^ 23 <= M0).
  { intros Hgt. assert (Hnd : n = Zdigits2 m - 24) by lia.
    assert (2 ^ (Zdigits2 m - 1 - n) <= m / 2 ^ n)
      by (apply div_pow2_ge; lia).
    replace (Zdigits2 m - 1 - n) with 23 in * by lia.
    unfold M0. destruct (Z.ltb_spec 0 n) as [Hp | Hz].
    - pose proof (rne_shift_bounds m n). lia.
    - replace n with 0 in * by lia. rewrite Z.div_1_r in *. lia. }
  change (2 ^ prec) with (2 ^ 24) in *.
  destruct (Z.eqb_spec M0 (2 ^ 24)) as [EM | NM]; cbn [fst snd].
  - change (2 ^ (prec - 1)) with (2 ^ 23).
    split; [| split; [| split; [| split]]]; try lia.
    + rewrite <- Hval, EM. unfold scaled.
      replace (E0 + 1 + U) with (1 + (E0 + U)) by lia.
      rewrite Z.pow_add_r by (unfold U in *; lia). lia.
    + right. change (Zdigits2 (2 ^ 23)) with 24. rewrite fexp_eq. lia.
  - split; [exact Hval |]. split; [lia |]. split; [lia |].
    split; [| exact Hnorm].
    destruct (Z.eq_dec M0 0) as [Ez | Hnz]; [now left | right].
    rewrite fexp_eq.
    pose proof (Zdigits2_bounds M0 ltac:(lia)) as [Hl Hu].
    assert (Zdigits2 M0 - 1 < 24) by (apply pow2_lt_inv; lia).
    destruct (Z.eq_dec E0 (-149)) as [E149 | N149]; [lia |].
    assert (23 < Zdigits2 M0).
    { apply pow2_lt_inv; [pose proof (Zdigits2_pos M0 ltac:(lia)); lia |].
      specialize (Hnorm ltac:(lia)). lia. }
    lia.
Qed.

Lemma top_eq : top = 2 ^ 428.
Proof. reflexivity. Qed.

Lemma float_of_pair_spec (M E : Z) :
  0 <= M < 2 ^ 24 -> -149 <= E ->
  (M = 0 \/ fexp prec emax (Zdigits2 M + E) = E) ->
  (-149 < E -> 2 ^ 23 <= M) ->
  nonneg (float_of_pair (M, E)) = true
  /\ ord (float_of_pair (M, E)) = Z.min (scaled M E) top.
Proof.
  intros HM HE Hc Hn. unfold float_of_pair. cbn [fst snd].
  destruct M as [| p | p]; [| | lia].
  - cbn. unfold scaled, top. cbn. split; [reflexivity |].
    pose proof (pow2_pos (emax + U) ltac:(unfold emax, U; lia)). lia.
  - destruct Hc as [Hc | Hc]; [discriminate |].
    assert (Hp : 0 < 2 ^ (E + U)) by (apply pow2_pos; unfold U; lia).
    destruct (Z.leb_spec E (emax - prec)) as [Hle | Hgt].
    + cbn [nonneg valid_binary ord]. unfold bounded, canonical_mantissa.
      cbn [Zdigits2] in Hc. rewrite Hc, Z.eqb_refl.
      replace (E <=? emax - prec) with true by (symmetry; apply Z.leb_le; lia).
      split; [reflexivity |].
      assert (scaled (Z.pos p) E < top); [| lia].
      unfold scaled. rewrite top_eq.
      change (emax - prec) with 104 in Hle.
      apply Z.lt_le_trans with (2 ^ 24 * 2 ^ (E + U)); [nia |].
      rewrite <- Z.pow_add_r by (unfold U; lia).
      apply Z.pow_le_mono_r; unfold U; lia.
    + cbn [nonneg ord]. split; [reflexivity |].
      assert (top <= scaled (Z.pos p) E); [| lia].
      change (emax - prec) with 104 in Hgt.
      specialize (Hn ltac:(lia)). unfold scaled. rewrite top_eq.
      apply Z.le_trans with (2 ^ 23 * 2 ^ (E + U)); [| nia].
      rewrite <- Z.pow_add_r by (unfold U; lia).
      apply Z.pow_le_mono_r; unfold U; lia.
Qed.

(** The value of [binary_round_aux] on an exact mantissa. *)
Theorem binary_round_aux_ord (m e : Z) :
  0 < m -> - U <= e ->
  0 <= fexp prec emax (Zdigits2 m + e) - e ->
  nonneg (binary_round_aux prec emax false m e loc_Exact) = true
  /\ ord (binary_round_aux prec emax false m e loc_Exact)
     = Z.min (rv (scaled m e)) top.
Proof.
  intros Hm He Hn. rewrite binary_round_aux_exact by assumption.
  pose proof (round_pair_spec m e Hm He Hn) as (Hv & HM & HE & Hc & Hnm).
  cbv zeta in *. rewrite <- Hv.
  rewrite (surjective_pairing (round_pair m e)).
  now apply float_of_pair_spec.
Qed.

Lemma Pos_iter_xO (p : positive) (k : positive) :
  Zpos (Pos.iter xO p k) = Zpos p * 2 ^ Zpos k.
Proof.
  rewrite Pos2Nat.inj_iter. rewrite <- (positive_nat_Z k).
  induction (Pos.to_nat k) as [| n IH].
  - cbn. lia.
  - cbn [nat_rect]. rewrite Pos2Z.inj_xO, IH, Nat2Z.inj_succ, Z.pow_succ_r by lia.
    lia.
Qed.

Lemma shl_align_spec (p : positive) (e e' : Z) :
  let k := Z.max 0 (e - e') in
  Zpos (fst (shl_align p e e')) = Zpos p * 2 ^ k
  /\ snd (shl_align p e e') = e - k.
Proof.
  unfold shl_align. destruct (e' - e) as [| d | d] eqn:E; cbn [fst snd].
  - replace (Z.max 0 (e - e')) with 0 by lia. cbn. lia.
  - replace (Z.max 0 (e - e')) with 0 by lia. cbn. lia.
  - replace (Z.max 0 (e - e')) with (Zpos d) by lia.
    rewrite Pos_iter_xO. lia.
Qed.

(** The value of [binary_round]. *)
Theorem binary_round_ord (p : positive) (e : Z) :
  - U + 24 <= e ->
  nonneg (binary_round prec emax false p e) = true
  /\ ord (binary_round prec emax false p e)
     = Z.min (rv (scaled (Zpos p) e)) top.
Proof.
  intros He. unfold binary_round.
  pose proof (shl_align_spec p e (fexp prec emax (Zpos (digits2_pos p) + e)))
    as [Hm Hx].
  destruct (shl_align p e _) as [mz ez]. cbn [fst snd] in Hm, Hx.
  set (k := Z.max 0 (e - fexp prec emax (Z.pos (digits2_pos p) + e))) in *.
  assert (Hk : 0 <= k) by lia.
  assert (Hk24 : k <= 24).
  { unfold k. rewrite fexp_eq. lia. }
  assert (Hd : Zdigits2 (Zpos mz) = Zdigits2 (Zpos p) + k)
    by (rewrite Hm; apply Zdigits2_mul_pow2; lia).
  assert (HV : scaled (Zpos mz) ez = scaled (Zpos p) e).
  { unfold scaled. rewrite Hm, Hx.
    replace (e + U) with (k + (e - k + U)) by lia.
    rewrite (Z.pow_add_r 2 k) by (unfold U in *; lia). lia. }
  rewrite <- HV. apply binary_round_aux_ord; [lia | unfold U in *; lia |].
  rewrite Hd, Hx. replace (Zdigits2 (Z.pos p) + k + (e - k))
    with (Zdigits2 (Z.pos p) + e) by lia.
  unfold k. cbn [Zdigits2]. lia.
Qed.

(** ** binary32: the rounding function *)

Lemma Zdigits2_0 : Zdigits2 0 = 0.
Proof. reflexivity. Qed.

Lemma Zdigits2_nonneg (V : Z) : 0 <= Zdigits2 V.
Proof. destruct V; cbn; lia. Qed.

Lemma Zdigits2_le (a b : Z) : 0 <= a <= b -> Zdigits2 a <= Zdigits2 b.
Proof.
  intros [Ha Hab]. destruct (Z.eq_dec a 0) as [-> | Hn].
  - apply Zdigits2_nonneg.
  - apply Zdigits2_mono; lia.
Qed.

Lemma Zdigits2_lt_pow2 (V : Z) : 0 <= V -> V < 2 ^ Zdigits2 V.
Proof.
  intros HV. destruct (Z.eq_dec V 0) as [-> | Hn]; [cbn; lia |].
  apply Zdigits2_bounds. lia.
Qed.

Lemma rv_unfold (V : Z) : rv V = rne_shift V (rv_shift V) * 2 ^ rv_shift V.
Proof. reflexivity. Qed.

Lemma rv_shift_pos (V : Z) : 0 < rv_shift V.
Proof. unfold rv_shift, U. lia. Qed.

Lemma rv_upper (V : Z) :
  0 <= V -> rv V <= 2 ^ Z.max (Zdigits2 V) (rv_shift V).
Proof.
  intros HV. rewrite rv_unfold. set (s := rv_shift V).
  pose proof (rv_shift_pos V) as Hs. fold s in Hs.
  pose proof (pow2_pos s ltac:(lia)) as Ps.
  pose proof (rne_shift_bounds V s) as [_ Hu].
  pose proof (Zdigits2_lt_pow2 V HV) as HD.
  pose proof (Zdigits2_nonneg V) as HD0.
  destruct (Z.le_gt_cases s (Zdigits2 V)) as [Hle | Hgt].
  - rewrite Z.max_l by lia.
    assert (V / 2 ^ s < 2 ^ (Zdigits2 V - s)) by (apply div_pow2_lt; lia).
    replace (2 ^ Zdigits2 V) with (2 ^ (Zdigits2 V - s) * 2 ^ s)
      by (rewrite <- Z.pow_add_r by lia; f_equal; lia).
    nia.
  - rewrite Z.max_r by lia.
    assert (2 ^ Zdigits2 V <= 2 ^ s) by (apply Z.pow_le_mono_r; lia).
    rewrite Z.div_small in Hu by lia. nia.
Qed.

Lemma rv_lower (V : Z) :
  0 < V -> rv_shift V = Zdigits2 V - 24 -> 2 ^ (Zdigits2 V - 1) <= rv V.
Proof.
  intros HV Hs. rewrite rv_unfold. rewrite Hs.
  pose proof (rv_shift_pos V) as Hp. rewrite Hs in Hp.
  pose proof (pow2_pos (Zdigits2 V - 24) ltac:(lia)) as Ps.
  pose proof (rne_shift_bounds V (Zdigits2 V - 24)) as [Hl _].
  pose proof (Zdigits2_bounds V HV) as [HD _].
  assert (2 ^ (Zdigits2 V - 1 - (Zdigits2 V - 24)) <= V / 2 ^ (Zdigits2 V - 24))
    by (apply div_pow2_ge; lia).
  replace (2 ^ (Zdigits2 V - 1))
    with (2 ^ (Zdigits2 V - 1 - (Zdigits2 V - 24)) * 2 ^ (Zdigits2 V - 24))
    by (rewrite <- Z.pow_add_r by lia; f_equal; lia).
  nia.
Qed.

(** Rounding is monotone. *)
Theorem rv_mono (V1 V2 : Z) : 0 <= V1 <= V2 -> rv V1 <= rv V2.
Proof.
  intros [H1 H12].
  pose proof (Zdigits2_le V1 V2 ltac:(lia)) as HD.
  assert (Hs : rv_shift V1 <= rv_shift V2) by (unfold rv_shift; lia).
  destruct (Z.eq_dec (rv_shift V1) (rv_shift V2)) as [E | NE].
  - rewrite !rv_unfold, E.
    pose proof (rv_shift_pos V2). pose proof (pow2_pos (rv_shift V2) ltac:(lia)).
    pose proof (rne_shift_mono V1 V2 (rv_shift V2) ltac:(lia) H12). nia.
  - assert (Hs2 : rv_shift V2 = Zdigits2 V2 - 24) by (unfold rv_shift in *; lia).
    assert (HV2 : 0 < V2).
    { destruct (Z.eq_dec V2 0) as [-> | ?]; [| lia].
      unfold rv_shift in *. cbn [Zdigits2] in *.
      pose proof (Zdigits2_nonneg V1). lia. }
    pose proof (rv_lower V2 HV2 Hs2) as HL.
    pose proof (rv_upper V1 H1) as HU.
    assert (Z.max (Zdigits2 V1) (rv_shift V1) <= Zdigits2 V2 - 1)
      by (unfold rv_shift in *; lia).
    assert (2 ^ Z.max (Zdigits2 V1) (rv_shift V1) <= 2 ^ (Zdigits2 V2 - 1))
      by (apply Z.pow_le_mono_r; lia).
    lia.
Qed.

(** Numbers with a mantissa of at most 24 bits at an exponent that is
    not below the least one are left as they are. *)
Theorem rv_fix (M k : Z) :
  0 <= M < 2 ^ 24 -> U - 149 <= k -> rv (M * 2 ^ k) = M * 2 ^ k.
Proof.
  intros HM Hk. destruct (Z.eq_dec M 0) as [-> | Hn]; [reflexivity |].
  rewrite rv_unfold. set (s := rv_shift (M * 2 ^ k)).
  assert (Hk0 : 0 <= k) by (unfold U in *; lia).
  assert (Hs : 0 < s <= k).
  { split; [apply rv_shift_pos |]. unfold s, rv_shift.
    rewrite Zdigits2_mul_pow2 by lia.
    pose proof (Zdigits2_bounds M ltac:(lia)) as [Hl _].
    assert (Zdigits2 M - 1 < 24) by (apply pow2_lt_inv; lia). lia. }
  replace (M * 2 ^ k) with (M * 2 ^ (k - s) * 2 ^ s) at 1.
  - rewrite rne_shift_exact by lia.
    rewrite <- Z.mul_assoc, <- Z.pow_add_r by lia.
    now replace (k - s + s) with k by lia.
  - rewrite <- Z.mul_assoc, <- Z.pow_add_r by lia.
    now replace (k - s + s) with k by lia.
Qed.

Lemma rne_shift_err (V s : Z) :
  0 < s -> 2 * Z.abs (rne_shift V s * 2 ^ s - V) <= 2 ^ s.
Proof.
  intros Hs. pose proof (pow2_pos s ltac:(lia)) as Ps.
  pose proof (pow2_pos (s - 1) ltac:(lia)) as Ph.
  assert (E : 2 ^ s = 2 * 2 ^ (s - 1)).
  { replace s with (1 + (s - 1)) at 1 by lia. now rewrite Z.pow_add_r by lia. }
  pose proof (Z.div_mod V (2 ^ s) ltac:(lia)) as Hd.
  pose proof (Z.mod_pos_bound V (2 ^ s) Ps) as Hr.
  unfold rne_shift.
  repeat match goal with
         | |- context [Z.ltb ?a ?b] => destruct (Z.ltb_spec a b)
         end; try destruct (Z.even _); nia.
Qed.

Lemma rv_err (V : Z) : 2 * Z.abs (rv V - V) <= 2 ^ rv_shift V.
Proof. rewrite rv_unfold. apply rne_shift_err, rv_shift_pos. Qed.

Lemma rv_nonneg (V : Z) : 0 <= V -> 0 <= rv V.
Proof.
  intros HV. rewrite rv_unfold.
  pose proof (rv_shift_pos V). pose proof (pow2_pos (rv_shift V) ltac:(lia)).
  pose proof (rne_shift_bounds V (rv_shift V)) as [Hl _].
  assert (0 <= V / 2 ^ rv_shift V) by (apply Z.div_pos; lia). nia.
Qed.

(** ** binary32: comparison *)

Lemma valid_finite (m : positive) (e : Z) :
  valid_binary prec emax (S754_finite false m e) = true ->
  -149 <= e <= 104 /\ 0 < Zpos m < 2 ^ 24
  /\ (-149 < e -> 2 ^ 23 <= Zpos m).
Proof.
  cbn [valid_binary]. unfold bounded, canonical_mantissa.
  intros H. apply andb_true_iff in H. destruct H as [Hc Hb].
  apply Z.eqb_eq in Hc. apply Z.leb_le in Hb. rewrite fexp_eq in Hc.
  change (emax - prec) with 104 in Hb.
  pose proof (digits2_pos_bounds m) as [Hl Hu].
  set (d := Zpos (digits2_pos m)) in *.
  assert (Hd : 0 < d) by (unfold d; lia).
  assert (d <= 24) by lia.
  assert (2 ^ d <= 2 ^ 24) by (apply Z.pow_le_mono_r; lia).
  split; [lia |]. split; [lia |].
  intros Hn. assert (d = 24) by lia. subst d.
  replace (Zpos (digits2_pos m) - 1) with 23 in Hl by lia. exact Hl.
Qed.

Lemma scaled_pos_lt (m1 e1 m2 e2 : Z) :
  0 < m1 < 2 ^ 24 -> 2 ^ 23 <= m2 -> - U <= e1 -> e1 < e2 ->
  scaled m1 e1 < scaled m2 e2.
Proof.
  intros H1 H2 He Hlt. unfold scaled.
  pose proof (pow2_pos (e1 + U) ltac:(lia)) as P1.
  pose proof (pow2_pos (e2 + U) ltac:(lia)) as P2.
  apply Z.lt_le_trans with (2 ^ 24 * 2 ^ (e1 + U)); [nia |].
  apply Z.le_trans with (2 ^ 23 * 2 ^ (e2 + U)); [| nia].
  rewrite <- !Z.pow_add_r by lia. apply Z.pow_le_mono_r; lia.
Qed.

Lemma ord_finite (m : positive) (e : Z) :
  valid_binary prec emax (S754_finite false m e) = true ->
  0 < ord (S754_finite false m e) < top.
Proof.
  intros H. apply valid_finite in H. destruct H as (He & Hm & _).
  cbn [ord]. unfold scaled. rewrite top_eq.
  pose proof (pow2_pos (e + U) ltac:(unfold U; lia)) as P.
  split; [nia |].
  apply Z.lt_le_trans with (2 ^ 24 * 2 ^ (e + U)); [nia |].
  rewrite <- Z.pow_add_r by (unfold U; lia).
  apply Z.pow_le_mono_r; unfold U; lia.
Qed.

Lemma ord_range (x : float) : nonneg x = true -> 0 <= ord x <= top.
Proof.
  destruct x as [[] | [] | | [] m e]; cbn [nonneg]; try discriminate; intros H.
  - cbn. rewrite top_eq. lia.
  - cbn [ord]. rewrite top_eq. lia.
  - pose proof (ord_finite m e H). lia.
Qed.

Theorem SFcompare_ord (x y : float) :
  nonneg x = true -> nonneg y = true ->
  SFcompare x y = Some (ord x ?= ord y).
Proof.
  intros Hx Hy.
  destruct x as [[] | [] | | [] mx ex]; cbn [nonneg] in Hx; try discriminate;
  destruct y as [[] | [] | | [] my ey]; cbn [nonneg] in Hy; try discriminate;
    cbn [SFcompare].
  - reflexivity.
  - reflexivity.
  - pose proof (ord_finite my ey Hy). f_equal. symmetry. apply Z.compare_lt_iff.
    cbn [ord] in *. lia.
  - reflexivity.
  - reflexivity.
  - pose proof (ord_finite my ey Hy). f_equal. symmetry. apply Z.compare_gt_iff.
    cbn [ord] in *. lia.
  - pose proof (ord_finite mx ex Hx). f_equal. symmetry. apply Z.compare_gt_iff.
    cbn [ord] in *. lia.
  - pose proof (ord_finite mx ex Hx). f_equal. symmetry. apply Z.compare_lt_iff.
    cbn [ord] in *. lia.
  - f_equal. cbn [ord].
    pose proof (valid_finite mx ex Hx) as (Hex & Hmx & Hnx).
    pose proof (valid_finite my ey Hy) as (Hey & Hmy & Hny).
    destruct (Z.compare_spec ex ey) as [E | L | G].
    + subst ey. unfold scaled.
      pose proof (pow2_pos (ex + U) ltac:(unfold U; lia)) as P.
      rewrite Pos.compare_cont_spec, Pos2Z.inj_compare.
      rewrite (Zmult_compare_compat_r (Zpos mx) (Zpos my) (2 ^ (ex + U)))
        by lia.
      now destruct (_ ?= _).
    + symmetry. apply Z.compare_lt_iff.
      apply scaled_pos_lt; unfold U; lia.
    + symmetry. apply Z.compare_gt_iff.
      apply scaled_pos_lt; unfold U; lia.
Qed.

Lemma SFleb_ord (x y : float) :
  nonneg x = true -> nonneg y = true ->
  (SFleb x y = true <-> ord x <= ord y).
Proof.
  intros Hx Hy. unfold SFleb. rewrite SFcompare_ord by assumption.
  destruct (Z.compare_spec (ord x) (ord y)); split; (lia || congruence || auto).
Qed.

Lemma SFltb_ord (x y : float) :
  nonneg x = true -> nonneg y = true ->
  (SFltb x y = true <-> ord x < ord y).
Proof.
  intros Hx Hy. unfold SFltb. rewrite SFcompare_ord by assumption.
  destruct (Z.compare_spec (ord x) (ord y)); split; (lia || congruence || auto).
Qed.

(** ** binary32: sum, difference and halving *)

Lemma cap_mono (V1 V2 : Z) : 0 <= V1 <= V2 -> cap V1 <= cap V2.
Proof. intros H. unfold cap. pose proof (rv_mono V1 V2 H). lia. Qed.

Lemma binary_normalize_ord (N e : Z) :
  0 <= N -> - U + 24 <= e ->
  nonneg (binary_normalize prec emax N e false) = true
  /\ ord (binary_normalize prec emax N e false) = cap (scaled N e).
Proof.
  intros HN He. destruct N as [| p | p]; [| | lia].
  - cbn. split; [reflexivity |]. unfold cap. rewrite top_eq. reflexivity.
  - cbn [binary_normalize]. now apply binary_round_ord.
Qed.

Lemma ord_finite_eq (m : positive) (e : Z) :
  ord (S754_finite false m e) = scaled (Zpos m) e.
Proof. reflexivity. Qed.

Lemma scaled_align (m e ez : Z) :
  - U <= ez -> ez <= e ->
  scaled (m * 2 ^ Z.max 0 (e - ez)) ez = scaled m e.
Proof.
  intros H1 H2. unfold scaled. rewrite Z.max_r by lia.
  rewrite <- Z.mul_assoc, <- Z.pow_add_r by lia.
  now replace (e - ez + (ez + U)) with (e + U) by lia.
Qed.

Lemma scaled_add (a b e : Z) : scaled (a + b) e = scaled a e + scaled b e.
Proof. unfold scaled. lia. Qed.

Lemma scaled_sub (a b e : Z) : scaled (a - b) e = scaled a e - scaled b e.
Proof. unfold scaled. lia. Qed.

Lemma scaled_sign (a e : Z) : - U <= e -> (0 <= a <-> 0 <= scaled a e).
Proof.
  intros He. unfold scaled. pose proof (pow2_pos (e + U) ltac:(lia)). nia.
Qed.

Theorem fadd_ord (mx : positive) (ex : Z) (my : positive) (ey : Z) :
  let x := S754_finite false mx ex in
  let y := S754_finite false my ey in
  nonneg x = true -> nonneg y = true ->
  nonneg (fadd x y) = true /\ ord (fadd x y) = cap (ord x + ord y).
Proof.
  intros x y Hx Hy.
  pose proof (valid_finite mx ex Hx) as (Hex & _).
  pose proof (valid_finite my ey Hy) as (Hey & _).
  unfold fadd, x, y. cbn [SFadd cond_Zopp].
  set (ez := Z.min ex ey).
  pose proof (shl_align_spec mx ex ez) as [Ha _].
  pose proof (shl_align_spec my ey ez) as [Hb _].
  cbv zeta in Ha, Hb. rewrite Ha, Hb.
  rewrite !ord_finite_eq.
  rewrite <- (scaled_align (Zpos mx) ex ez), <- (scaled_align (Zpos my) ey ez)
    by (unfold ez, U; lia).
  rewrite <- scaled_add.
  apply binary_normalize_ord; [| unfold ez, U; lia].
  pose proof (pow2_pos (Z.max 0 (ex - ez)) ltac:(lia)).
  pose proof (pow2_pos (Z.max 0 (ey - ez)) ltac:(lia)). nia.
Qed.

Theorem fsub_ord (mx : positive) (ex : Z) (my : positive) (ey : Z) :
  let x := S754_finite false mx ex in
  let y := S754_finite false my ey in
  nonneg x = true -> nonneg y = true -> ord y <= ord x ->
  nonneg (fsub x y) = true /\ ord (fsub x y) = cap (ord x - ord y).
Proof.
  intros x y Hx Hy Hle.
  pose proof (valid_finite mx ex Hx) as (Hex & _).
  pose proof (valid_finite my ey Hy) as (Hey & _).
  unfold fsub, x, y. cbn [SFsub cond_Zopp].
  set (ez := Z.min ex ey).
  pose proof (shl_align_spec mx ex ez) as [Ha _].
  pose proof (shl_align_spec my ey ez) as [Hb _].
  cbv zeta in Ha, Hb. rewrite Ha, Hb.
  unfold x, y in Hle. rewrite !ord_finite_eq in *.
  rewrite <- (scaled_align (Zpos mx) ex ez), <- (scaled_align (Zpos my) ey ez)
    in * by (unfold ez, U; lia).
  rewrite <- scaled_sub.
  apply binary_normalize_ord; [| unfold ez, U; lia].
  apply (scaled_sign _ ez); [unfold ez, U; lia |].
  rewrite scaled_sub. lia.
Qed.

Theorem fmul_half_ord (m : positive) (e : Z) :
  let t := S754_finite false m e in
  nonneg t = true ->
  nonneg (fmul half t) = true /\ ord (fmul half t) = cap (ord t / 2).
Proof.
  intros t Ht. pose proof (valid_finite m e Ht) as (He & Hm & _).
  unfold fmul, half, t. cbn [SFmul xorb].
  rewrite ord_finite_eq.
  assert (Hv : scaled (Zpos (8388608 * m)) (-24 + e) = scaled (Zpos m) e / 2).
  { unfold scaled. rewrite Pos2Z.inj_mul.
    set (k := -24 + e + U).
    replace (e + U) with (1 + k + 23) by (unfold k; lia).
    assert (Hk : 0 <= k) by (unfold k, U; lia).
    rewrite (Z.pow_add_r 2 (1 + k) 23), (Z.pow_add_r 2 1 k) by lia.
    change (Z.pos 8388608) with (2 ^ 23).
    pose proof (pow2_pos k Hk).
    apply Z.div_unique_exact; [lia |]. change (2 ^ 1) with 2. lia. }
  rewrite <- Hv.
  apply binary_round_aux_ord; [lia | unfold U; lia |].
  rewrite Pos2Z.inj_mul. change (Z.pos 8388608) with (2 ^ 23).
  rewrite Z.mul_comm, Zdigits2_mul_pow2 by lia.
  pose proof (Zdigits2_pos (Zpos m) ltac:(lia)). rewrite fexp_eq. lia.
Qed.

(** ** binary32: division *)

Lemma shr_record_of_loc_code (q : Z) (l : location) :
  0 <= q ->
  shr_1 (shr_1 (Build_shr_record (4 * q + code l) false false))
  = shr_record_of_loc q l.
Proof.
  intros Hq. rewrite shr_1_arith by (destruct l as [| []]; cbn [code]; lia).
  rewrite shr_1_arith
    by (apply Z.div_pos; [destruct l as [| []]; cbn [code]; lia | lia]).
  assert (Hpar : forall a b, Z.odd (2 * a + b) = Z.odd b).
  { intros a b. rewrite Z.add_comm. apply Z.odd_add_mul_2. }
  assert (Hpar0 : forall a, Z.odd (2 * a) = false).
  { intros a. rewrite Z.odd_mul. reflexivity. }
  destruct l as [| []]; cbn [code shr_record_of_loc orb].
  - replace ((4 * q + 0) / 2) with (2 * q) by (apply Z.div_unique with 0; lia).
    replace (2 * q / 2) with q by (apply Z.div_unique with 0; lia).
    replace (4 * q + 0) with (2 * (2 * q)) by lia.
    rewrite !Hpar0. reflexivity.
  - replace ((4 * q + 2) / 2) with (2 * q + 1)
      by (apply Z.div_unique with 0; lia).
    replace ((2 * q + 1) / 2) with q by (apply Z.div_unique with 1; lia).
    replace (4 * q + 2) with (2 * (2 * q + 1)) by lia.
    rewrite Hpar0, Hpar. reflexivity.
  - replace ((4 * q + 1) / 2) with (2 * q) by (apply Z.div_unique with 1; lia).
    replace (2 * q / 2) with q by (apply Z.div_unique with 0; lia).
    replace (4 * q + 1) with (2 * (2 * q) + 1) by lia.
    rewrite Hpar, Hpar0. reflexivity.
  - replace ((4 * q + 3) / 2) with (2 * q + 1)
      by (apply Z.div_unique with 1; lia).
    replace ((2 * q + 1) / 2) with q by (apply Z.div_unique with 1; lia).
    replace (4 * q + 3) with (2 * (2 * q + 1) + 1) by lia.
    rewrite !Hpar. reflexivity.
Qed.

Lemma code_range (l : location) : 0 <= code l <= 3.
Proof. destruct l as [| []]; cbn; lia. Qed.

Lemma shr_fexp_loc (q e : Z) (l : location) :
  0 < q ->
  0 <= fexp prec emax (Zdigits2 q + e) - e ->
  shr_fexp prec emax q e l
  = shr_fexp prec emax (4 * q + code l) (e - 2) loc_Exact.
Proof.
  intros Hq Hn. pose proof (code_range l) as Hc.
  assert (Hd : Zdigits2 (4 * q + code l) = Zdigits2 q + 2).
  { pose proof (Zdigits2_bounds q Hq) as [Hl Hu].
    pose proof (Zdigits2_pos q Hq).
    apply Zdigits2_unique; [| lia].
    replace (Zdigits2 q + 2 - 1) with (2 + (Zdigits2 q - 1)) by lia.
    rewrite !Z.pow_add_r by lia. change (2 ^ 2) with 4.
    rewrite (Z.mul_comm (2 ^ Zdigits2 q)). lia. }
  unfold shr_fexp. rewrite Hd.
  replace (Zdigits2 q + 2 + (e - 2)) with (Zdigits2 q + e) by lia.
  set (n := fexp prec emax (Zdigits2 q + e) - e) in *.
  replace (fexp prec emax (Zdigits2 q + e) - (e - 2)) with (n + 2) by lia.
  cbn [shr_record_of_loc].
  assert (H2 : forall p : positive, Zpos p = n + 2 ->
     SpecFloat.iter_pos shr_1 p (Build_shr_record (4 * q + code l) false false)
     = match n with
       | Zpos p' => SpecFloat.iter_pos shr_1 p' (shr_record_of_loc q l)
       | _ => shr_record_of_loc q l
       end).
  { intros p Hp. rewrite iter_pos_nat.
    replace (Pos.to_nat p) with (Z.to_nat n + 2)%nat by lia.
    rewrite Nat.iter_add.
    change (Nat.iter 2 shr_1 ?x) with (shr_1 (shr_1 x)).
    rewrite shr_record_of_loc_code by lia.
    destruct n as [| p' | p']; [reflexivity | | lia].
    rewrite iter_pos_nat. reflexivity. }
  unfold shr. destruct (n + 2) as [| p | p] eqn:E; try lia.
  rewrite (H2 p ltac:(lia)).
  destruct n as [| p' | p']; [| | lia].
  - f_equal. lia.
  - f_equal. lia.
Qed.

Theorem binary_round_aux_loc (q e : Z) (l : location) :
  0 < q ->
  0 <= fexp prec emax (Zdigits2 q + e) - e ->
  binary_round_aux prec emax false q e l
  = binary_round_aux prec emax false (4 * q + code l) (e - 2) loc_Exact.
Proof.
  intros Hq Hn. unfold binary_round_aux.
  now rewrite (shr_fexp_loc q e l Hq Hn).
Qed.

Lemma new_location_code (n r : Z) :
  0 < n -> 0 <= r < n ->
  code (new_location n r)
  = if r =? 0 then 0
    else if 2 * r <? n then 1 else if 2 * r =? n then 2 else 3.
Proof.
  intros Hn Hr. unfold new_location, new_location_even, new_location_odd.
  destruct (Z.even n) eqn:Ev; destruct (Z.eqb_spec r 0) as [E | NE];
    try reflexivity.
  - destruct (Z.compare_spec (2 * r) n), (Z.ltb_spec (2 * r) n),
      (Z.eqb_spec (2 * r) n); cbn [code]; lia.
  - assert (Hodd : Z.odd n = true) by (rewrite <- Z.negb_even, Ev; reflexivity).
    apply Z.odd_spec in Hodd. destruct Hodd as [k Hk].
    destruct (Z.compare_spec (2 * r + 1) n), (Z.ltb_spec (2 * r) n),
      (Z.eqb_spec (2 * r) n); cbn [code]; lia.
Qed.

Lemma div_eucl_div_mod (a b : Z) : Z.div_eucl a b = (a / b, a mod b).
Proof. unfold Z.div, Z.modulo. now destruct (Z.div_eucl a b). Qed.

(** The quotient of two normal numbers. *)
Theorem fdiv_normal (mx : positive) (ex : Z) (my : positive) (ey : Z) :
  let x := S754_finite false mx ex in
  let y := S754_finite false my ey in
  2 ^ 23 <= Zpos mx < 2 ^ 24 -> 2 ^ 23 <= Zpos my < 2 ^ 24 ->
  -149 <= ex - ey - 24 <= 100 ->
  let q := Zpos mx * 2 ^ 24 / Zpos my in
  let r := (Zpos mx * 2 ^ 24) mod Zpos my in
  let c := if r =? 0 then 0
           else if 2 * r <? Zpos my then 1
                else if 2 * r =? Zpos my then 2 else 3 in
  nonneg (fdiv x y) = true
  /\ ord (fdiv x y) = cap (scaled (4 * q + c) (ex - ey - 26)).
Proof.
  intros x y Hx Hy He q r c.
  assert (Hdx : Zdigits2 (Zpos mx) = 24) by (apply Zdigits2_unique; cbn; lia).
  assert (Hdy : Zdigits2 (Zpos my) = 24) by (apply Zdigits2_unique; cbn; lia).
  unfold fdiv, x, y. cbn [SFdiv xorb]. unfold SFdiv_core_binary.
  rewrite Hdx, Hdy, fexp_eq.
  replace (Z.min (Z.max (24 + ex - (24 + ey) - 24) (-149)) (ex - ey))
    with (ex - ey - 24) by lia.
  replace (ex - ey - (ex - ey - 24)) with 24 by lia.
  rewrite Z.shiftl_mul_pow2 by lia.
  rewrite div_eucl_div_mod. fold q r.
  assert (Hr : 0 <= r < Zpos my) by (apply Z.mod_pos_bound; lia).
  assert (Hq : 2 ^ 23 <= q < 2 ^ 25).
  { unfold q. split.
    - apply Z.div_le_lower_bound; [lia |]. nia.
    - apply Z.div_lt_upper_bound; [lia |].
      change (2 ^ 25) with (2 ^ 24 * 2). nia. }
  assert (Hdq : 24 <= Zdigits2 q <= 25).
  { pose proof (Zdigits2_bounds q ltac:(lia)) as [Hl Hu].
    pose proof (Zdigits2_pos q ltac:(lia)).
    assert (23 < Zdigits2 q) by (apply pow2_lt_inv; lia).
    assert (Zdigits2 q - 1 < 25) by (apply pow2_lt_inv; lia). lia. }
  rewrite binary_round_aux_loc by (rewrite ?fexp_eq; lia).
  rewrite new_location_code by lia. fold c.
  replace (ex - ey - 24 - 2) with (ex - ey - 26) by lia.
  assert (Hc : 0 <= c <= 3).
  { unfold c. repeat match goal with |- context [if ?b then _ else _] =>
                       destruct b end; lia. }
  apply binary_round_aux_ord; [lia | unfold U; lia |].
  assert (Hd4 : Zdigits2 (4 * q + c) = Zdigits2 q + 2).
  { pose proof (Zdigits2_bounds q ltac:(lia)) as [Hl Hu].
    apply Zdigits2_unique; [| lia].
    replace (Zdigits2 q + 2 - 1) with (2 + (Zdigits2 q - 1)) by lia.
    rewrite !Z.pow_add_r by lia. change (2 ^ 2) with 4.
    rewrite (Z.mul_comm (2 ^ Zdigits2 q)). lia. }
  rewrite Hd4, fexp_eq. lia.
Qed.

(** ** The filter weight *)

Lemma ord_one : ord one = 2 ^ U.
Proof. reflexivity. Qed.

Lemma ord_half : ord half = 2 ^ (U - 1).
Proof. reflexivity. Qed.

Lemma nonneg_cases (x : float) :
  nonneg x = true ->
  (x = S754_zero false /\ ord x = 0)
  \/ (x = S754_infinity false /\ ord x = top)
  \/ (exists m e, x = S754_finite false m e /\ 0 < ord x < top).
Proof.
  destruct x as [[] | [] | | [] m e]; cbn [nonneg]; try discriminate; intros H.
  - left. split; reflexivity.
  - right. left. split; reflexivity.
  - right. right. exists m, e. split; [reflexivity | now apply ord_finite].
Qed.

Lemma cap_fix (M k : Z) :
  0 <= M < 2 ^ 24 -> U - 149 <= k -> M * 2 ^ k <= top ->
  cap (M * 2 ^ k) = M * 2 ^ k.
Proof. intros HM Hk Ht. unfold cap. rewrite rv_fix by assumption. lia. Qed.

Lemma cap_le_top (V : Z) : cap V <= top.
Proof. unfold cap. lia. Qed.

Lemma cap_nonneg (V : Z) : 0 <= V -> 0 <= cap V.
Proof.
  intros HV. unfold cap. pose proof (rv_nonneg V HV). rewrite top_eq. lia.
Qed.

Lemma cap_ord (x : float) :
  nonneg x = true -> cap (ord x) = ord x.
Proof.
  intros Hx. destruct (nonneg_cases x Hx) as [[-> _] | [[-> _] | (m & e & -> & Ho)]].
  - reflexivity.
  - reflexivity.
  - cbn [nonneg] in Hx. pose proof (valid_finite m e Hx) as (He & Hm & _).
    rewrite ord_finite_eq in *. unfold scaled in *.
    apply cap_fix; [lia | unfold U; lia | lia].
Qed.

Lemma fmaxf_zero (t : float) :
  nonneg t = true -> fmaxf t zero = t.
Proof.
  intros Ht. unfold fmaxf.
  assert (Hn : is_nan t = false) by (destruct t as [[] | [] | | []]; easy).
  rewrite Hn. change (is_nan zero) with false. cbv iota.
  destruct (SFltb t zero) eqn:E; [| reflexivity].
  apply SFltb_ord in E; [| assumption | reflexivity].
  pose proof (ord_range t Ht). change (ord zero) with 0 in E. lia.
Qed.

Lemma fminf_one (t : float) :
  nonneg t = true ->
  fminf t one = (if ord one <? ord t then one else t).
Proof.
  intros Ht. unfold fminf.
  assert (Hn : is_nan t = false) by (destruct t as [[] | [] | | []]; easy).
  rewrite Hn. change (is_nan one) with false. cbv iota.
  destruct (SFltb one t) eqn:E; destruct (Z.ltb_spec (ord one) (ord t)) as [L | G];
    try reflexivity.
  - apply SFltb_ord in E; [lia | reflexivity | assumption].
  - assert (SFltb one t = true) by (apply SFltb_ord; [reflexivity | assumption | lia]).
    congruence.
Qed.

Lemma fsub_one_spec (r : float) :
  nonneg r = true -> ord one <= ord r -> ord r < top ->
  nonneg (fsub r one) = true
  /\ ord (fsub r one) = cap (ord r - 2 ^ U)
  /\ ord (fsub r one) < top.
Proof.
  intros Hr Hle Hfin.
  destruct (nonneg_cases r Hr) as [[-> Ho] | [[-> Ho] | (m & e & -> & Ho)]].
  - rewrite ord_one in Hle. cbn [ord] in Hle.
    pose proof (pow2_pos U ltac:(unfold U; lia)). lia.
  - cbn [ord] in Hfin. lia.
  - pose proof (fsub_ord m e 8388608 (-23) Hr eq_refl Hle) as [Hn Hv].
    cbv zeta in Hn, Hv. change (S754_finite false 8388608 (-23)) with one in *.
    rewrite ord_one in *.
    split; [exact Hn |]. split; [exact Hv |].
    rewrite Hv.
    assert (cap (ord (S754_finite false m e) - 2 ^ U)
            <= cap (ord (S754_finite false m e)))
      by (apply cap_mono; pose proof (pow2_pos U ltac:(unfold U; lia)); lia).
    rewrite cap_ord in H by exact Hr. lia.
Qed.

Lemma fmul_half_spec (t : float) :
  nonneg t = true -> ord t < top ->
  nonneg (fmul half t) = true /\ ord (fmul half t) = cap (ord t / 2).
Proof.
  intros Ht Hfin.
  destruct (nonneg_cases t Ht) as [[-> Ho] | [[-> Ho] | (m & e & -> & Ho)]].
  - split; reflexivity.
  - cbn [ord] in Hfin. lia.
  - now apply fmul_half_ord.
Qed.

Theorem weight_spec (r : float) :
  nonneg r = true -> ord one <= ord r ->
  nonneg (weight r) = true /\ ord (weight r) = weight_ord (ord r).
Proof.
  intros Hr Hle.
  destruct (Z.eq_dec (ord r) top) as [Et | Nt].
  - destruct (nonneg_cases r Hr) as [[-> Ho] | [[-> Ho] | (m & e & -> & Ho)]];
      [cbn [ord] in Et; rewrite top_eq in Et; lia | | lia].
    split; [reflexivity |]. vm_compute. reflexivity.
  - pose proof (ord_range r Hr) as Hrange.
    pose proof (fsub_one_spec r Hr Hle ltac:(lia)) as (Hn1 & Hv1 & Hf1).
    pose proof (fmul_half_spec (fsub r one) Hn1 Hf1) as (Hn2 & Hv2).
    unfold weight. rewrite fmaxf_zero by exact Hn2.
    rewrite fminf_one by exact Hn2.
    unfold weight_ord. rewrite <- Hv1, <- Hv2, <- ord_one.
    destruct (Z.ltb_spec (ord one) (ord (fmul half (fsub r one)))).
    + split; [reflexivity | lia].
    + split; [exact Hn2 | lia].
Qed.

Lemma weight_ord_mono (v1 v2 : Z) :
  2 ^ U <= v1 <= v2 -> weight_ord v1 <= weight_ord v2.
Proof.
  intros H. unfold weight_ord.
  assert (H1 : cap (v1 - 2 ^ U) <= cap (v2 - 2 ^ U)) by (apply cap_mono; lia).
  assert (H0 : 0 <= cap (v1 - 2 ^ U)) by (apply cap_nonneg; lia).
  assert (H2 : cap (cap (v1 - 2 ^ U) / 2) <= cap (cap (v2 - 2 ^ U) / 2)).
  { apply cap_mono. split; [apply Z.div_pos; lia | apply Z.div_le_mono; lia]. }
  lia.
Qed.

(** ** The displacement of the taps *)

Lemma ord_two_thirds : ord two_thirds = 11184811 * 2 ^ (U - 24).
Proof. reflexivity. Qed.

(** Exponent and mantissa of a normal number from its value. *)
Lemma normal_form (m : positive) (e : Z) (lo hi : Z) :
  valid_binary prec emax (S754_finite false m e) = true ->
  -125 <= lo ->
  2 ^ (lo + U) <= scaled (Zpos m) e < 2 ^ (hi + U) ->
  2 ^ 23 <= Zpos m < 2 ^ 24 /\ lo - 23 <= e <= hi - 24.
Proof.
  intros Hv Hlo [Hl Hu].
  pose proof (valid_finite m e Hv) as (He & Hm & Hn).
  unfold scaled in *.
  pose proof (pow2_pos (e + U) ltac:(unfold U; lia)) as P.
  assert (Hlt : lo + U < 24 + e + U).
  { apply pow2_lt_inv; [unfold U; lia |].
    apply Z.le_lt_trans with (Zpos m * 2 ^ (e + U)); [exact Hl |].
    replace (24 + e + U) with (24 + (e + U)) by lia.
    rewrite (Z.pow_add_r 2 24 (e + U)) by (unfold U; lia).
    apply Z.mul_lt_mono_pos_r; lia. }
  assert (Hnorm : 2 ^ 23 <= Zpos m) by (apply Hn; lia).
  split; [lia |]. split; [lia |].
  assert (23 + e + U < hi + U); [| lia].
  apply pow2_lt_inv; [| ].
  - destruct (Z.le_gt_cases 0 (hi + U)); [assumption |].
    rewrite (Z.pow_neg_r 2 (hi + U)) in Hu by lia. nia.
  - apply Z.le_lt_trans with (Zpos m * 2 ^ (e + U)); [| exact Hu].
    replace (23 + e + U) with (23 + (e + U)) by lia.
    rewrite (Z.pow_add_r 2 23 (e + U)) by (unfold U; lia).
    apply Z.mul_le_mono_nonneg_r; lia.
Qed.

Lemma pow2_U_25 : 2 ^ U = 2 ^ 25 * 2 ^ (U - 25).
Proof. reflexivity. Qed.

(** The error of rounding a number in a given binade. *)
Lemma rv_err_binade (V k : Z) :
  U - 125 <= k -> 2 ^ (k - 1) <= V < 2 ^ k ->
  2 * Z.abs (rv V - V) <= 2 ^ (k - 24).
Proof.
  intros Hk HV. pose proof (rv_err V) as H.
  assert (HP : 0 < 2 ^ (k - 1)) by (apply pow2_pos; unfold U in *; lia).
  assert (Hd : Zdigits2 V = k) by (apply Zdigits2_unique; lia).
  unfold rv_shift in H. rewrite Hd in H.
  now replace (Z.max (k - 24) (U - 149)) with (k - 24) in H by lia.
Qed.

Theorem displacement_spec (w : float) :
  nonneg w = true -> ord w <= 2 ^ U ->
  ord w = 0 \/ 2 ^ (U - 24) <= ord w ->
  nonneg (displacement w) = true
  /\ ord (displacement w) <= ord two_thirds.
Proof.
  intros Hw Hle Hreach.
  destruct (nonneg_cases w Hw) as [[-> Ho] | [[-> Ho] | (mw & ew & -> & Ho)]].
  - split; [reflexivity | vm_compute; discriminate].
  - cbn [ord] in Hle. rewrite top_eq in Hle. unfold U in Hle. lia.
  - destruct Hreach as [Hz | Hreach]; [lia |].
    set (w := S754_finite false mw ew) in *.
    set (a := ord w) in *.
    set (P := 2 ^ (U - 25)).
    assert (HP : 0 < P) by (apply pow2_pos; unfold U; lia).
    assert (EU : 2 ^ U = 33554432 * P) by reflexivity.
    assert (EU1 : 2 ^ (U - 1) = 16777216 * P) by reflexivity.
    assert (EU24 : 2 ^ (U - 24) = 2 * P) by reflexivity.
    assert (EU23 : 2 ^ (U - 23) = 4 * P) by reflexivity.
    rewrite EU in Hle. rewrite EU24 in Hreach.
    (* the denominator *)
    pose proof (fadd_ord 8388608 (-24) mw ew eq_refl Hw) as [Hny Hvy].
    cbv zeta in Hny, Hvy. change (S754_finite false 8388608 (-24)) with half in *.
    fold w in Hny, Hvy. rewrite ord_half in Hvy. fold a in Hvy.
    set (y := fadd half w) in *. set (V := 2 ^ (U - 1) + a) in *.
    assert (EV : V = 16777216 * P + a) by (unfold V; rewrite EU1; lia).
    assert (HV : 16777216 * P + 2 * P <= V <= 50331648 * P) by lia.
    assert (Hlo : 16777216 * P <= rv V).
    { assert (E : rv (8388608 * 2 ^ (U - 24)) = 16777216 * P)
        by (rewrite rv_fix by (unfold U; lia); rewrite EU24; lia).
      rewrite <- E. apply rv_mono. rewrite EU24. lia. }
    assert (Hhi : rv V <= 50331648 * P).
    { assert (E : rv (12582912 * 2 ^ (U - 23)) = 50331648 * P)
        by (rewrite rv_fix by (unfold U; lia); rewrite EU23; lia).
      rewrite <- E. apply rv_mono. rewrite EU23. lia. }
    assert (Hb : ord y = rv V).
    { rewrite Hvy. unfold cap. rewrite top_eq.
      assert (50331648 * P < 2 ^ 428) by (unfold P, U; reflexivity). lia. }
    assert (Hkey : 16777216 * a <= 11184811 * rv V /\ a <= rv V).
    { destruct (Z.lt_ge_cases V (2 ^ U)) as [Hs | Hg].
      - pose proof (rv_err_binade V U ltac:(lia) ltac:(lia)) as Herr.
        rewrite EU24 in Herr. rewrite EU in Hs. lia.
      - destruct (Z.eq_dec a (33554432 * P)) as [Ea | Na].
        + assert (Ev : rv V = 50331648 * P).
          { replace V with (12582912 * 2 ^ (U - 23)) by (rewrite EU23; lia).
            rewrite rv_fix by (unfold U; lia). rewrite EU23. lia. }
          rewrite Ev. lia.
        + assert (Ha : a <= 33554432 * P - 2 * P).
          { pose proof (normal_form mw ew (-1) 0 Hw ltac:(lia)) as Hf.
            change (ord w) with (scaled (Zpos mw) ew) in a.
            rewrite EU in Hg.
            replace (2 ^ (-1 + U)) with (16777216 * P) in Hf by reflexivity.
            replace (2 ^ (0 + U)) with (33554432 * P) in Hf by reflexivity.
            destruct Hf as [Hm He]; [fold a; lia |].
            assert (ew = -24) by lia. subst ew.
            unfold a, scaled. replace (2 ^ (-24 + U)) with (2 * P) by reflexivity.
            assert (Zpos mw * (2 * P) <= 16777215 * (2 * P))
              by (apply Z.mul_le_mono_nonneg_r; lia).
            lia. }
          pose proof (rv_err_binade V (U + 1) ltac:(lia)) as Herr.
          replace (2 ^ (U + 1 - 1)) with (33554432 * P) in Herr by reflexivity.
          replace (2 ^ (U + 1)) with (67108864 * P) in Herr by reflexivity.
          replace (2 ^ (U + 1 - 24)) with (4 * P) in Herr by reflexivity.
          rewrite EU in Hg. specialize (Herr ltac:(lia)). lia. }
    destruct Hkey as [Hkey Hay].
    (* the two operands are normal *)
    destruct (nonneg_cases y Hny) as [[Ey Hoy] | [[Ey Hoy] | (my & ey & Ey & Hoy)]];
      [lia | rewrite top_eq in Hoy; unfold P, U in *; lia |].
    assert (Hvy' : valid_binary prec emax (S754_finite false my ey) = true)
      by (pose proof Hny as H'; rewrite Ey in H'; exact H').
    pose proof (normal_form mw ew (-24) 1 Hw ltac:(lia)) as [Hmw Hew].
    { change (scaled (Zpos mw) ew) with a.
      replace (2 ^ (-24 + U)) with (2 * P) by reflexivity.
      replace (2 ^ (1 + U)) with (67108864 * P) by reflexivity. lia. }
    pose proof (normal_form my ey (-1) 2 Hvy' ltac:(lia)) as [Hmy Hey].
    { replace (scaled (Zpos my) ey) with (ord y) by (rewrite Ey; reflexivity).
      rewrite Hb.
      replace (2 ^ (-1 + U)) with (16777216 * P) by reflexivity.
      replace (2 ^ (2 + U)) with (134217728 * P) by reflexivity. lia. }
    assert (Hee : ew <= ey).
    { destruct (Z.le_gt_cases ew ey) as [| Hgt]; [assumption | exfalso].
      assert (scaled (Zpos my) ey < scaled (Zpos mw) ew)
        by (apply scaled_pos_lt; unfold U; lia).
      change (scaled (Zpos mw) ew) with a in H.
      replace (scaled (Zpos my) ey) with (ord y) in H by (rewrite Ey; reflexivity).
      lia. }
    (* the quotient *)
    unfold displacement. fold y. rewrite Ey. fold w.
    pose proof (fdiv_normal mw ew my ey Hmw Hmy ltac:(lia)) as [Hnd Hvd].
    cbv zeta in Hnd, Hvd. fold w in Hnd, Hvd.
    split; [exact Hnd |]. rewrite Hvd.
    set (q := Zpos mw * 2 ^ 24 / Zpos my) in *.
    set (r := (Zpos mw * 2 ^ 24) mod Zpos my) in *.
    set (c := if r =? 0 then 0 else _) in *.
    set (C := 11184811 * 2 ^ (ey - ew)).
    assert (HC : Zpos mw * 2 ^ 24 <= C * Zpos my).
    { assert (Ea : a = Zpos mw * 2 ^ (ew + U)) by reflexivity.
      assert (Eb : rv V = Zpos my * 2 ^ (ey - ew) * 2 ^ (ew + U)).
      { rewrite <- Hb, Ey. cbn [ord]. unfold scaled.
        rewrite <- Z.mul_assoc, <- Z.pow_add_r by (unfold U; lia).
        f_equal. f_equal. lia. }
      rewrite Ea, Eb in Hkey. change 16777216 with (2 ^ 24) in Hkey.
      pose proof (pow2_pos (ew + U) ltac:(unfold U; lia)) as Pe.
      unfold C. nia. }
    assert (Hr : 0 <= r < Zpos my) by (apply Z.mod_pos_bound; lia).
    assert (Hqr : Zpos mw * 2 ^ 24 = Zpos my * q + r)
      by (apply Z.div_mod; lia).
    assert (H4 : 4 * q + c <= 4 * C).
    { assert (Hc : 0 <= c <= 3 /\ (r = 0 -> c = 0)).
      { unfold c. destruct (Z.eqb_spec r 0); [lia |].
        repeat match goal with |- context [if ?b then _ else _] =>
                 destruct b end; lia. }
      assert (q <= C) by (apply Z.div_le_upper_bound; lia).
      destruct (Z.eq_dec q C) as [Eq | Nq]; [| lia].
      assert (r = 0) by nia. lia. }
    assert (Hq0 : 0 <= 4 * q + c).
    { assert (0 <= q) by (apply Z.div_pos; lia).
      assert (0 <= c); [| lia].
      unfold c. repeat match goal with |- context [if ?b then _ else _] =>
                         destruct b end; lia. }
    apply Z.le_trans with (cap (scaled (4 * C) (ew - ey - 26))).
    + apply cap_mono. split.
      * unfold scaled.
        pose proof (pow2_pos (ew - ey - 26 + U) ltac:(unfold U; lia)). nia.
      * unfold scaled.
        pose proof (pow2_pos (ew - ey - 26 + U) ltac:(unfold U; lia)). nia.
    + assert (Es : scaled (4 * C) (ew - ey - 26) = 11184811 * 2 ^ (U - 24)).
      { unfold scaled, C. change 4 with (2 ^ 2).
        rewrite (Z.mul_comm (2 ^ 2)), <- !Z.mul_assoc.
        rewrite <- !Z.pow_add_r by (unfold U; lia).
        f_equal. f_equal. lia. }
      rewrite Es, ord_two_thirds.
      rewrite cap_fix; [lia | lia | unfold U; lia |].
      rewrite top_eq. unfold U. cbn. lia.
Qed.

(** ** Weight and displacement of a scale ratio *)

Lemma ord_inj (x y : float) :
  nonneg x = true -> nonneg y = true -> ord x = ord y -> x = y.
Proof.
  intros Hx Hy E.
  destruct (nonneg_cases x Hx) as [[-> Ox] | [[-> Ox] | (mx & ex & -> & Ox)]];
  destruct (nonneg_cases y Hy) as [[-> Oy] | [[-> Oy] | (my & ey & -> & Oy)]];
    try reflexivity; try lia;
    try (rewrite top_eq in *; cbn [ord] in *; lia).
  pose proof (valid_finite mx ex Hx) as (Hex & Hmx & Hnx).
  pose proof (valid_finite my ey Hy) as (Hey & Hmy & Hny).
  rewrite !ord_finite_eq in E.
  destruct (Z.lt_total ex ey) as [L | [Ee | G]].
  - pose proof (scaled_pos_lt (Zpos mx) ex (Zpos my) ey) as H.
    specialize (H Hmx ltac:(lia) ltac:(unfold U; lia) L). lia.
  - subst ey. unfold scaled in E.
    pose proof (pow2_pos (ex + U) ltac:(unfold U; lia)).
    assert (Zpos mx = Zpos my) by nia. congruence.
  - pose proof (scaled_pos_lt (Zpos my) ey (Zpos mx) ex) as H.
    specialize (H Hmy ltac:(lia) ltac:(unfold U; lia) ltac:(lia)). lia.
Qed.

Lemma nonneg_of_ge (x r : float) :
  nonneg x = true -> 0 < ord x ->
  valid_binary prec emax r = true -> fle x r ->
  nonneg r = true /\ ord x <= ord r.
Proof.
  intros Hx Hpos Hv Hle. unfold fle in Hle.
  assert (Hn : nonneg r = true).
  { destruct (nonneg_cases x Hx) as [[-> Ox] | [[-> Ox] | (mx & ex & -> & Ox)]];
      [lia | |];
      destruct r as [[] | [] | | [] m e]; try reflexivity; try discriminate;
      exact Hv. }
  split; [exact Hn |]. now apply SFleb_ord.
Qed.

Lemma weight_reach (v : Z) :
  (exists j, 0 <= j /\ v = (8388608 + j) * 2 ^ (U - 23)) ->
  weight_ord v = 0 \/ 2 ^ (U - 24) <= weight_ord v.
Proof.
  intros (j & Hj & ->). unfold weight_ord.
  set (Q := 2 ^ (U - 24)).
  assert (HQ : 0 < Q) by (apply pow2_pos; unfold U; lia).
  assert (E23 : 2 ^ (U - 23) = 2 * Q) by reflexivity.
  assert (EU : 2 ^ U = 16777216 * Q) by reflexivity.
  rewrite E23, EU.
  replace ((8388608 + j) * (2 * Q) - 16777216 * Q) with (j * (2 * Q)) by lia.
  destruct (Z.eq_dec j 0) as [-> | Hn].
  - left. reflexivity.
  - right.
    assert (H1 : 2 * Q <= cap (j * (2 * Q))).
    { assert (E : cap (1 * 2 ^ (U - 23)) = 2 * Q).
      { rewrite cap_fix; [rewrite E23; lia | lia | unfold U; lia |].
        rewrite top_eq. rewrite E23. unfold Q, U. cbn. lia. }
      pose proof (cap_mono (1 * 2 ^ (U - 23)) (j * (2 * Q))) as Hm.
      rewrite E, E23 in Hm. apply Hm. nia. }
    assert (H2 : Q <= cap (j * (2 * Q)) / 2)
      by (apply Z.div_le_lower_bound; lia).
    assert (H3 : Q <= cap (cap (j * (2 * Q)) / 2)).
    { assert (E : cap (1 * 2 ^ (U - 24)) = Q).
      { rewrite cap_fix; [fold Q; lia | lia | unfold U; lia |].
        rewrite top_eq. unfold U. cbn. lia. }
      pose proof (cap_mono (1 * 2 ^ (U - 24)) (cap (j * (2 * Q)) / 2)) as Hm.
      rewrite E in Hm. apply Hm. fold Q. lia. }
    lia.
Qed.

Lemma ord_multiple (r : float) :
  nonneg r = true -> ord one <= ord r ->
  exists j, 0 <= j /\ ord r = (8388608 + j) * 2 ^ (U - 23).
Proof.
  intros Hr Hle. rewrite ord_one in Hle.
  destruct (nonneg_cases r Hr) as [[-> Ox] | [[-> Ox] | (m & e & -> & Ox)]].
  - cbn [ord] in Hle. pose proof (pow2_pos U ltac:(unfold U; lia)). lia.
  - exists (2 ^ 151 - 8388608). split; [lia |]. reflexivity.
  - pose proof (valid_finite m e Hr) as (He & Hm & Hn).
    rewrite ord_finite_eq in *. unfold scaled in *.
    assert (He23 : -23 <= e).
    { assert (U < 24 + e + U); [| lia].
      apply pow2_lt_inv; [unfold U; lia |].
      apply Z.le_lt_trans with (Zpos m * 2 ^ (e + U)); [exact Hle |].
      replace (24 + e + U) with (24 + (e + U)) by lia.
      rewrite (Z.pow_add_r 2 24 (e + U)) by (unfold U; lia).
      apply Z.mul_lt_mono_pos_r; [apply pow2_pos; unfold U; lia | lia]. }
    exists (Zpos m * 2 ^ (e + 23) - 8388608).
    assert (E : 2 ^ (e + U) = 2 ^ (e + 23) * 2 ^ (U - 23)).
    { rewrite <- Z.pow_add_r by (unfold U; lia). f_equal. lia. }
    assert (EU : 2 ^ U = 8388608 * 2 ^ (U - 23)) by reflexivity.
    pose proof (pow2_pos (U - 23) ltac:(unfold U; lia)).
    rewrite E, EU in *. split; [nia | lia].
Qed.

(** C4 (amended). For every binary32 scale ratio [r >= 1], plus
    infinity included, the weight
    [w = min(max(0.5f * (r - 1.0f), 0.0f), 1.0f)] lies between 0 and 1
    and does not decrease when the ratio grows, and the displacement
    [d = w / (0.5f + w)] lies between 0 and [2.0f / 3.0f], the binary32
    number [11184811 / 2^24] nearest to 2/3. *)
Theorem weight_displacement_bounds (r r' : float) :
  valid_binary prec emax r = true -> valid_binary prec emax r' = true ->
  fle one r -> fle r r' ->
  (fle zero (weight r) /\ fle (weight r) (weight r') /\ fle (weight r') one)
  /\ (fle zero (displacement (weight r))
      /\ fle (displacement (weight r)) two_thirds)
  /\ (fle zero (displacement (weight r'))
      /\ fle (displacement (weight r')) two_thirds).
Proof.
  intros Hv Hv' H1 Hrr.
  pose proof (pow2_pos U ltac:(unfold U; lia)) as PU.
  destruct (nonneg_of_ge one r eq_refl ltac:(rewrite ord_one; lia) Hv H1)
    as [Hn Ho].
  destruct (nonneg_of_ge r r' Hn ltac:(rewrite ord_one in Ho; lia) Hv' Hrr)
    as [Hn' Ho'].
  pose proof (weight_spec r Hn Ho) as [Hw Ew].
  pose proof (weight_spec r' Hn' ltac:(lia)) as [Hw' Ew'].
  assert (Hb : forall x, nonneg x = true -> ord one <= ord x ->
             fle zero (displacement (weight x))
             /\ fle (displacement (weight x)) two_thirds).
  { intros x Hx Hox. pose proof (weight_spec x Hx Hox) as [Hwx Ewx].
    pose proof (displacement_spec (weight x) Hwx) as [Hd Hle].
    - rewrite Ewx. unfold weight_ord. lia.
    - rewrite Ewx. apply weight_reach, ord_multiple; assumption.
    - split.
      + apply SFleb_ord; [reflexivity | exact Hd |].
        pose proof (ord_range _ Hd). cbn [ord zero]. lia.
      + apply SFleb_ord; [exact Hd | reflexivity | exact Hle]. }
  split; [| split; [now apply Hb | apply Hb; [assumption | lia]]].
  split; [| split].
  - apply SFleb_ord; [reflexivity | exact Hw |].
    pose proof (ord_range _ Hw). cbn [ord zero]. lia.
  - apply SFleb_ord; [exact Hw | exact Hw' |].
    rewrite Ew, Ew'. apply weight_ord_mono. rewrite ord_one in Ho. lia.
  - apply SFleb_ord; [exact Hw' | reflexivity |].
    rewrite Ew', ord_one. unfold weight_ord. lia.
Qed.

Lemma weight_displacement_bounds_witness :
  (fle one one /\ fle one (of_int 3))
  /\ fle (weight one) (weight (of_int 3))
  /\ fle (displacement (weight (of_int 3))) two_thirds.
Proof.
  assert (H1 : valid_binary prec emax one = true) by reflexivity.
  assert (H3 : valid_binary prec emax (of_int 3) = true) by reflexivity.
  assert (L1 : fle one one) by reflexivity.
  assert (L3 : fle one (of_int 3)) by reflexivity.
  pose proof (weight_displacement_bounds one (of_int 3) H1 H3 L1 L3) as H.
  split; [split; assumption |].
  split; [exact (proj1 (proj2 (proj1 H))) |].
  exact (proj2 (proj2 (proj2 H))).
Defined.

(** [2.0f / 3.0f] is [two_thirds], and it is above 2/3 by
    [1 / (3 * 2^24)]. *)
Lemma two_thirds_value :
  fdiv (of_int 2) (of_int 3) = two_thirds
  /\ to_Q two_thirds = Some (11184811 # 16777216)%Q
  /\ ((11184811 # 16777216) - (2 # 3) == 1 # 50331648)%Q.
Proof. repeat split. Qed.

(** At the scale ratio 3 (a source three times as wide as the
    destination) the weight is 1 and the displacement is
    [11184811 / 2^24], a number above 2/3: the bound of the specification
    does not hold there. *)
Lemma displacement_above_two_thirds :
  fle one (scale 3 1)
  /\ weight (scale 3 1) = one
  /\ displacement (weight (scale 3 1)) = S754_finite false 11184811 (-24)
  /\ ~ displacement_bounded (displacement (weight (scale 3 1))).
Proof.
  split; [reflexivity |]. split; [reflexivity |]. split; [reflexivity |].
  assert (E : displacement (weight (scale 3 1))
              = S754_finite false 11184811 (-24)) by reflexivity.
  rewrite E. unfold displacement_bounded, to_Q. intros [_ H].
  vm_compute in H. now apply H.
Qed.

(** ** The identity at scale ratio 1 *)

Lemma fmul_one (x : float) : nonneg x = true -> fmul x one = x.
Proof.
  intros Hx.
  destruct (nonneg_cases x Hx) as [[-> _] | [[-> _] | (m & e & -> & Ho)]];
    [reflexivity | reflexivity |].
  pose proof (valid_finite m e Hx) as (He & Hm & _).
  assert (Hs : scaled (Zpos (m * 8388608)) (e + -23) = scaled (Zpos m) e).
  { unfold scaled. rewrite Pos2Z.inj_mul.
    change (Z.pos 8388608) with (2 ^ 23).
    replace (e + U) with (23 + (e + -23 + U)) by lia.
    rewrite (Z.pow_add_r 2 23 (e + -23 + U)) by (unfold U; lia). lia. }
  assert (H : nonneg (fmul (S754_finite false m e) one) = true
              /\ ord (fmul (S754_finite false m e) one)
                 = cap (scaled (Zpos m) e)).
  { unfold fmul, one. cbn [SFmul xorb]. rewrite <- Hs.
    apply binary_round_aux_ord; [lia | unfold U; lia |].
    rewrite Pos2Z.inj_mul. change (Z.pos 8388608) with (2 ^ 23).
    rewrite Zdigits2_mul_pow2 by lia.
    pose proof (Zdigits2_pos (Zpos m) ltac:(lia)). rewrite fexp_eq. lia. }
  destruct H as [Hn Hord].
  apply ord_inj; [exact Hn | exact Hx |].
  rewrite Hord, <- ord_finite_eq. now apply cap_ord.
Qed.

Lemma fsub_zero (x : float) : nonneg x = true -> fsub x zero = x.
Proof. destruct x as [[] | [] | | [] m e]; try discriminate; reflexivity. Qed.

Lemma fadd_zero (x : float) : nonneg x = true -> fadd x zero = x.
Proof. destruct x as [[] | [] | | [] m e]; try discriminate; reflexivity. Qed.

Lemma of_int_ord (n : Z) :
  0 <= n ->
  nonneg (of_int n) = true /\ ord (of_int n) = cap (n * 2 ^ U).
Proof.
  intros Hn. unfold of_int.
  destruct (binary_normalize_ord n 0 Hn ltac:(unfold U; lia)) as [H1 H2].
  split; [exact H1 |]. rewrite H2. reflexivity.
Qed.

Lemma of_int_normal (n : Z) :
  0 < n < 2 ^ 31 ->
  exists m e, of_int n = S754_finite false m e
              /\ nonneg (of_int n) = true
              /\ 2 ^ 23 <= Zpos m < 2 ^ 24.
Proof.
  intros Hn. destruct (of_int_ord n ltac:(lia)) as [Hnn Hord].
  pose proof (pow2_pos U ltac:(unfold U; lia)) as PU.
  assert (Hlo : 2 ^ U <= ord (of_int n)).
  { rewrite Hord.
    pose proof (cap_mono (1 * 2 ^ U) (n * 2 ^ U) ltac:(nia)) as Hm.
    rewrite cap_fix in Hm; [lia | lia | unfold U; lia |].
    rewrite top_eq. unfold U. apply Z.lt_le_incl. reflexivity. }
  assert (Hhi : ord (of_int n) < 2 ^ (32 + U)).
  { rewrite Hord.
    pose proof (cap_mono (n * 2 ^ U) (1 * 2 ^ (31 + U))) as Hm.
    rewrite (cap_fix 1 (31 + U)) in Hm; [| lia | unfold U; lia |].
    - assert (n * 2 ^ U <= 1 * 2 ^ (31 + U)).
      { rewrite (Z.pow_add_r 2 31 U) by (unfold U; lia). nia. }
      assert (2 ^ (31 + U) < 2 ^ (32 + U))
        by (apply Z.pow_lt_mono_r; unfold U; lia).
      specialize (Hm ltac:(nia)). lia.
    - rewrite top_eq. unfold U. apply Z.lt_le_incl. reflexivity. }
  destruct (nonneg_cases _ Hnn) as [[E O] | [[E O] | (m & e & E & O)]].
  - lia.
  - rewrite O, top_eq in Hhi. unfold U in Hhi.
    assert (2 ^ (32 + 300) < 2 ^ 428) by reflexivity. lia.
  - exists m, e. split; [exact E |]. split; [exact Hnn |].
    rewrite E in Hnn, Hlo, Hhi. rewrite ord_finite_eq in *.
    now destruct (normal_form m e 0 32 Hnn ltac:(lia) ltac:(split; assumption)).
Qed.

Lemma fdiv_self (m : positive) (e : Z) :
  -149 <= e <= 104 -> 2 ^ 23 <= Zpos m < 2 ^ 24 ->
  fdiv (S754_finite false m e) (S754_finite false m e) = one.
Proof.
  intros He Hm.
  pose proof (fdiv_normal m e m e Hm Hm ltac:(lia)) as H.
  cbv zeta in H. destruct H as [Hn Hord].
  apply ord_inj; [exact Hn | reflexivity |].
  rewrite Hord.
  rewrite (Z.mul_comm (Zpos m) (2 ^ 24)).
  rewrite Z.mod_mul by lia. rewrite Z.div_mul by lia.
  cbn [Z.eqb]. rewrite ord_one.
  replace (e - e - 26) with (-26) by lia.
  change (scaled (4 * 2 ^ 24 + 0) (-26)) with (1 * 2 ^ U).
  apply cap_fix; [lia | unfold U; lia |].
  rewrite top_eq. unfold U. apply Z.lt_le_incl. reflexivity.
Qed.

Lemma scale_self (n : Z) : 0 < n < 2 ^ 31 -> scale n n = one.
Proof.
  intros Hn. destruct (of_int_normal n Hn) as (m & e & E & Hv & Hm).
  unfold scale. rewrite E. rewrite E in Hv.
  pose proof (valid_finite m e Hv) as (He & _). now apply fdiv_self.
Qed.

Lemma weight_one : weight one = zero.
Proof. reflexivity. Qed.

Lemma displacement_zero : displacement zero = zero.
Proof. reflexivity. Qed.

Lemma center_one (o : Z) :
  0 <= o < 2 ^ 31 ->
  center o one = fadd (of_int o) half /\ nonneg (center o one) = true.
Proof.
  intros Ho. unfold center.
  assert (Hn : nonneg (fadd (of_int o) half) = true).
  { destruct (Z.eq_dec o 0) as [-> | Hne]; [reflexivity |].
    destruct (of_int_normal o ltac:(lia)) as (m & e & E & Hv & Hm).
    rewrite E. rewrite E in Hv.
    now destruct (fadd_ord m e 8388608 (-24) Hv eq_refl). }
  rewrite (fmul_one _ Hn). split; [reflexivity | exact Hn].
Qed.

Lemma taps_coincide (xi yi : float) :
  nonneg xi = true -> nonneg yi = true ->
  taps xi yi zero zero = [(xi, yi); (xi, yi); (xi, yi); (xi, yi)].
Proof.
  intros Hx Hy. unfold taps.
  now rewrite !fsub_zero, !fadd_zero by assumption.
Qed.

Lemma reads_at_unit_scale {S : Type} (tex : texture S)
    (width height xo yo : Z) :
  0 < width < 2 ^ 31 -> 0 < height < 2 ^ 31 ->
  0 <= xo < 2 ^ 31 -> 0 <= yo < 2 ^ 31 ->
  Subsample_Bilinear_reads tex width height width height xo yo
  = let v := tex2D tex (fadd (of_int xo) half) (fadd (of_int yo) half) in
    (v, v, v, v).
Proof.
  intros Hw Hh Hx Hy. unfold Subsample_Bilinear_reads. cbv zeta.
  rewrite !scale_self by assumption.
  rewrite weight_one, displacement_zero.
  destruct (center_one xo Hx) as [Ex Hnx].
  destruct (center_one yo Hy) as [Ey Hny].
  rewrite !fsub_zero, !fadd_zero by assumption.
  now rewrite Ex, Ey.
Qed.

Lemma average_of_equal (b : basetype) (v bias : Z) :
  sizeof_base b <= 2 -> in_range b v -> 0 <= bias <= 3 ->
  shift_and_truncate b 0 (accumulate v v v v bias) = v.
Proof.
  intros Hb Hv Hbias. pose proof (sample_bound b v Hb Hv).
  rewrite accumulate_exact by (unfold UINT_MAX; lia).
  unfold shift_and_truncate. change (0 >? -2) with true. cbv iota.
  change (2 + 0) with 2. rewrite Z.shiftr_div_pow2 by lia.
  change (2 ^ 2) with 4.
  replace ((v + v + v + v + bias) / 4) with v
    by (apply Z.div_unique with bias; lia).
  now apply cast_small.
Qed.

Lemma dither_bias_off (b : basetype) : dither_bias (Scalar b) 0 0 = 0.
Proof. destruct b; reflexivity. Qed.

Lemma functor_of_equal (b : basetype) (s : suffix)
    (v : val (SRC (VARIANTSET2 b b 0 s))) :
  sizeof_base b <= 2 -> valid v ->
  functor (VARIANTSET2 b b 0 s) v v v v 0 = texel_part b b 0 s v.
Proof.
  intros Hb Hv.
  assert (H2 : forall x, in_range b x ->
             shift_and_truncate b 0 (accumulate x x x x 2) = x)
    by (intros; apply average_of_equal; [assumption | assumption | lia]).
  destruct s; unfold valid in Hv; cbn [components base SRC VARIANTSET2] in Hv;
    repeat match goal with
           | H : Forall _ (_ :: _) |- _ =>
               apply Forall_cons_1 in H; destruct H as [? H]
           end.
  - change (add_conv_shift1_d (Scalar b) (Scalar b) 0
              (if sizeof_base b <? sizeof_base b then sizeof_base b else 0)
              v v v v 0 = v).
    rewrite Z.ltb_irrefl, add_conv_shift1_d_spec, dither_bias_off. cbn [base].
    apply average_of_equal; [assumption | assumption | lia].
  - change (add_conv_shift1 (Scalar b) (Scalar b) 0 0 v v v v 0 = v).
    rewrite add_conv_shift1_spec. now apply H2.
  - change (add_conv_shift1 (Scalar b) (Scalar b) 0 0 v v v v 0 = v).
    rewrite add_conv_shift1_spec. now apply H2.
  - change (add_conv_shift2 (Vec2 b) (Vec2 b) 0 0 v v v v 0 = v).
    unfold add_conv_shift2. cbv zeta. change (0 >? -2) with true. cbv iota.
    rewrite !SHIFTDOWN_spec by reflexivity. cbn [base].
    rewrite !H2 by assumption. now destruct v.
  - change (add_conv_shift1 (Scalar unsigned) (Scalar b) 0 0
              (x2 v) (x2 v) (x2 v) (x2 v) 0 = x2 v).
    rewrite add_conv_shift1_spec. now apply H2.
  - change (add_conv_shift1 (Scalar unsigned) (Scalar b) 0 0
              (y2 v) (y2 v) (y2 v) (y2 v) 0 = y2 v).
    rewrite add_conv_shift1_spec. now apply H2.
  - change (add_conv_shift4 (Vec4 b) (Vec4 b) 0 0 v v v v 0 = v).
    unfold add_conv_shift4. cbv zeta. change (0 >? -2) with true. cbv iota.
    rewrite !SHIFTDOWN_spec by reflexivity. cbn [base].
    rewrite !H2 by assumption. now destruct v.
Qed.

Lemma DITHER_equal_depth (b : basetype) (s : suffix) :
  DITHER (VARIANTSET2 b b 0 s) = 0.
Proof. destruct s; try reflexivity. cbn. now rewrite Z.ltb_irrefl. Qed.

Lemma value_at_unit_scale (b : basetype) (s : suffix)
    (tex : texture (val (SRC (VARIANTSET2 b b 0 s))))
    (width height : Z) (ditherTex : dither_texture) (xo yo : Z) :
  sizeof_base b <= 2 ->
  0 < width < 2 ^ 31 -> 0 < height < 2 ^ 31 ->
  0 <= xo < 2 ^ 31 -> 0 <= yo < 2 ^ 31 ->
  (forall x y, valid (tex x y)) ->
  Subsample_Bilinear_value (functor (VARIANTSET2 b b 0 s))
    (DITHER (VARIANTSET2 b b 0 s)) tex width height width height
    ditherTex xo yo
  = texel_part b b 0 s
      (tex2D tex (fadd (of_int xo) half) (fadd (of_int yo) half)).
Proof.
  intros Hb Hw Hh Hx Hy Hv. unfold Subsample_Bilinear_value.
  rewrite reads_at_unit_scale by assumption. cbv zeta.
  rewrite ditherVal_off by apply DITHER_equal_depth.
  apply functor_of_equal; [assumption | apply Hv].
Qed.

(** C2. When source and destination have the same width and the same
    height, both scale factors are exactly 1, both weights and both
    displacements are 0, the centre of the destination pixel [(xo, yo)]
    is mapped to [(xo + 0.5f, yo + 0.5f)], the four taps coincide there,
    and every kernel that keeps the bit depth stores what the texture
    unit returns at that point (its first or second component for the
    two kernels that split an interleaved plane). *)
Theorem unit_scale_is_identity (n : kernel_name)
    (tex : texture (val (SRC (instantiation n))))
    (width height : Z) (ditherTex : dither_texture) (xo yo : Z) :
  fst n = d8_8 \/ fst n = d16_16 ->
  0 < width < 2 ^ 31 -> 0 < height < 2 ^ 31 ->
  0 <= xo < width -> 0 <= yo < height ->
  (forall x y, valid (tex x y)) ->
  let hscale := scale width width in
  let vscale := scale height height in
  let xi := center xo hscale in
  let yi := center yo vscale in
  let wh := weight hscale in
  let wv := weight vscale in
  let dx := displacement wh in
  let dy := displacement wv in
  (hscale = one /\ vscale = one)
  /\ (wh = zero /\ wv = zero)
  /\ (dx = zero /\ dy = zero)
  /\ (xi = fadd (of_int xo) half /\ yi = fadd (of_int yo) half)
  /\ taps xi yi dx dy = [(xi, yi); (xi, yi); (xi, yi); (xi, yi)]
  /\ Subsample_Bilinear_value (functor (instantiation n))
       (DITHER (instantiation n)) tex width height width height
       ditherTex xo yo
     = input_sample n (tex2D tex xi yi).
Proof.
  intros Hn Hw Hh Hx Hy Hv hscale vscale xi yi wh wv dx dy.
  assert (Eh : hscale = one) by now apply scale_self.
  assert (Ev : vscale = one) by now apply scale_self.
  subst dx dy wh wv xi yi. rewrite Eh, Ev, weight_one, displacement_zero.
  destruct (center_one xo ltac:(lia)) as [Ex Hnx].
  destruct (center_one yo ltac:(lia)) as [Ey Hny].
  repeat split; try assumption.
  - now apply taps_coincide.
  - rewrite Ex, Ey. destruct n as [d s]. cbn [fst] in Hn.
    destruct Hn as [-> | ->].
    + apply (value_at_unit_scale uchar s tex); try assumption; try lia.
      unfold sizeof_base; lia.
    + apply (value_at_unit_scale ushort s tex); try assumption; try lia.
      unfold sizeof_base; lia.
Qed.

Lemma unit_scale_is_identity_witness :
  (0 < 1920 < 2 ^ 31 /\ 0 <= 3 < 1920)
  /\ weight (scale 1920 1920) = zero
  /\ Subsample_Bilinear_value (functor (instantiation (d8_8, sfx_)))
       (DITHER (instantiation (d8_8, sfx_))) (fun _ _ => 10)
       1920 1080 1920 1080
       {| dither_matrix := fun x y => x + 2 * y; dither_size := 2 |} 3 1
     = 10.
Proof.
  assert (Hw : 0 < 1920 < 2 ^ 31) by lia.
  assert (Hh : 0 < 1080 < 2 ^ 31) by lia.
  assert (Hx : 0 <= 3 < 1920) by lia.
  assert (Hy : 0 <= 1 < 1080) by lia.
  assert (Hv : forall x y : float,
             @valid (Scalar uchar) ((fun _ _ => 10) x y)).
  { intros x y.
    constructor; [| constructor].
    unfold in_range, bits, base, sizeof_base. lia. }
  pose proof (unit_scale_is_identity (d8_8, sfx_) (fun _ _ => 10) 1920 1080
                {| dither_matrix := fun x y => x + 2 * y; dither_size := 2 |}
                3 1 (or_introl eq_refl) Hw Hh Hx Hy Hv) as H.
  split; [split; assumption |].
  split; [exact (proj1 (proj1 (proj2 H))) |].
  exact (proj2 (proj2 (proj2 (proj2 (proj2 H))))).
Defined.

(** * Further properties of the code *)

(** ** The grid of a launch *)

(** [DIV_UP] is the division rounded up, for a divisor that is positive
    and a sum [a + b - 1] that is not negative (where the division of C
    and the one of [Z] agree). *)
Lemma DIV_UP_ceiling (a b : Z) :
  0 < b -> (DIV_UP a b - 1) * b < a <= DIV_UP a b * b.
Proof.
  intros Hb. unfold DIV_UP.
  pose proof (Z.div_mod (a + b - 1) b ltac:(lia)).
  pose proof (Z.mod_pos_bound (a + b - 1) b Hb). nia.
Qed.

Lemma elem_of_threads (gridDim blockDim : Z * Z) (b t : Z * Z) :
  (b, t) ∈ threads gridDim blockDim
  <-> (0 <= fst b < fst gridDim /\ 0 <= snd b < snd gridDim)
      /\ (0 <= fst t < fst blockDim /\ 0 <= snd t < snd blockDim).
Proof.
  unfold threads. destruct b as [bx by_], t as [tx ty]. cbn [fst snd].
  split.
  - intros Hin.
    apply list_elem_of_bind in Hin. destruct Hin as (bx' & Hin & Hbx).
    apply list_elem_of_bind in Hin. destruct Hin as (by' & Hin & Hby).
    apply list_elem_of_bind in Hin. destruct Hin as (tx' & Hin & Htx).
    apply list_elem_of_bind in Hin. destruct Hin as (ty' & Hin & Hty).
    apply list_elem_of_singleton in Hin. injection Hin as -> -> -> ->.
    apply elem_of_seqZ in Hbx, Hby, Htx, Hty. lia.
  - intros [[Hbx Hby] [Htx Hty]].
    apply list_elem_of_bind. exists bx. split; [| apply elem_of_seqZ; lia].
    apply list_elem_of_bind. exists by_. split; [| apply elem_of_seqZ; lia].
    apply list_elem_of_bind. exists tx. split; [| apply elem_of_seqZ; lia].
    apply list_elem_of_bind. exists ty. split; [| apply elem_of_seqZ; lia].
    now apply list_elem_of_singleton.
Qed.

(** The thread of a pixel of the grid. *)
Lemma thread_of_pixel (dst_width dst_height x y : Z) :
  dst_width <= 2 ^ 31 - 32 -> dst_height <= 2 ^ 31 - 16 ->
  0 <= x < dst_width -> 0 <= y < dst_height ->
  ((x / BLOCKX, y / BLOCKY), (x mod BLOCKX, y mod BLOCKY))
    ∈ threads (DIV_UP dst_width BLOCKX, DIV_UP dst_height BLOCKY)
              (BLOCKX, BLOCKY)
  /\ thread_coord (x / BLOCKX) BLOCKX (x mod BLOCKX) = x
  /\ thread_coord (y / BLOCKY) BLOCKY (y mod BLOCKY) = y.
Proof.
  intros Hw Hh Hx Hy.
  pose proof (DIV_UP_ceiling dst_width BLOCKX ltac:(reflexivity)) as Hgx.
  pose proof (DIV_UP_ceiling dst_height BLOCKY ltac:(reflexivity)) as Hgy.
  unfold BLOCKX, BLOCKY in *.
  pose proof (Z.div_mod x 32 ltac:(lia)) as Dx.
  pose proof (Z.mod_pos_bound x 32 ltac:(lia)) as Mx.
  pose proof (Z.div_mod y 16 ltac:(lia)) as Dy.
  pose proof (Z.mod_pos_bound y 16 ltac:(lia)) as My.
  split.
  - apply elem_of_threads. cbn [fst snd]. lia.
  - rewrite !thread_coord_small by lia. lia.
Qed.

(** X3. Every pixel of the destination grid is computed by exactly one
    thread of the launch, and the grid of [call_resize_kernel] has the
    fewest blocks that cover the plane. *)
Theorem one_thread_per_pixel (dst_width dst_height x y : Z) :
  dst_width <= 2 ^ 31 - 32 -> dst_height <= 2 ^ 31 - 16 ->
  0 <= x < dst_width -> 0 <= y < dst_height ->
  let grid := (DIV_UP dst_width BLOCKX, DIV_UP dst_height BLOCKY) in
  let coords := fun bt : (Z * Z) * (Z * Z) =>
    (thread_coord (fst (fst bt)) BLOCKX (fst (snd bt)),
     thread_coord (snd (fst bt)) BLOCKY (snd (snd bt))) in
  (exists bt, bt ∈ threads grid (BLOCKX, BLOCKY) /\ coords bt = (x, y)
     /\ forall bt', bt' ∈ threads grid (BLOCKX, BLOCKY) ->
                    coords bt' = (x, y) -> bt' = bt)
  /\ ((fst grid - 1) * BLOCKX < dst_width <= fst grid * BLOCKX
      /\ (snd grid - 1) * BLOCKY < dst_height <= snd grid * BLOCKY).
Proof.
  intros Hw Hh Hx Hy grid coords.
  pose proof (DIV_UP_ceiling dst_width BLOCKX ltac:(reflexivity)) as Hgx.
  pose proof (DIV_UP_ceiling dst_height BLOCKY ltac:(reflexivity)) as Hgy.
  split; [| split; assumption].
  destruct (thread_of_pixel dst_width dst_height x y Hw Hh Hx Hy)
    as (Hin & Ex & Ey).
  eexists. split; [exact Hin |]. split.
  - unfold coords. cbn [fst snd]. now rewrite Ex, Ey.
  - intros [[bx by_] [tx ty]] Hin' Hc.
    apply elem_of_threads in Hin'. unfold grid in Hin'.
    cbn [fst snd] in Hin'.
    unfold coords in Hc. cbn [fst snd] in Hc.
    unfold BLOCKX, BLOCKY in *.
    rewrite !thread_coord_small in Hc by lia.
    injection Hc as Ex' Ey'.
    assert (bx = x / 32) by (apply Z.div_unique with tx; lia).
    assert (by_ = y / 16) by (apply Z.div_unique with ty; lia).
    assert (tx = x mod 32) by (apply Z.mod_unique with bx; lia).
    assert (ty = y mod 16) by (apply Z.mod_unique with by_; lia).
    congruence.
Qed.

Lemma one_thread_per_pixel_witness :
  (0 <= 100 < 1920 /\ 0 <= 50 < 1080)
  /\ (DIV_UP 1920 BLOCKX - 1) * BLOCKX < 1920 <= DIV_UP 1920 BLOCKX * BLOCKX.
Proof.
  assert (Hx : 0 <= 100 < 1920) by lia.
  assert (Hy : 0 <= 50 < 1080) by lia.
  split; [split; assumption |].
  exact (proj1 (proj2 (one_thread_per_pixel 1920 1080 100 50
                         ltac:(lia) ltac:(lia) Hx Hy))).
Defined.

(** ** What a launch stores *)

Lemma index_inj (stride pitch w x y x' y' : Z) :
  0 < pitch -> pitch * (w - 1) < stride ->
  0 <= x < w -> 0 <= x' < w -> 0 <= y -> 0 <= y' ->
  y * stride + x * pitch = y' * stride + x' * pitch ->
  x = x' /\ y = y'.
Proof.
  intros Hp Hs Hx Hx' Hy Hy' E.
  assert (Bx : 0 <= x * pitch < stride) by nia.
  assert (Bx' : 0 <= x' * pitch < stride) by nia.
  assert (y = y') by nia. subst y'.
  assert (x * pitch = x' * pitch) by lia. split; [nia | reflexivity].
Qed.

Section Launch.

Context {S D : Type}.
Variable sizeof_DST : Z.
Variable conv : S -> S -> S -> S -> Z -> D.
Variables pitch dither : Z.
Variable tex : texture S.
Variables dst_width dst_height dst_pitch src_width src_height : Z.
Variable ditherTex : dither_texture.

Hypothesis Hw : dst_width <= 2 ^ 31 - 32.
Hypothesis Hh : dst_height <= 2 ^ 31 - 16.
Hypothesis Hdp : 0 <= dst_pitch < 2 ^ 31.
Hypothesis Hsz : 0 < sizeof_DST.
Hypothesis Hpitch : 0 < pitch.
Hypothesis Hrow : pitch * dst_width < 2 ^ 31.
Hypothesis Hfit : pitch * (dst_width - 1) < dst_pitch / sizeof_DST.

(** A run of threads changes no element but those that one of them
    stores to. *)
Lemma run_frame (l : list ((Z * Z) * (Z * Z))) (dst : gmap Z D) (j : Z) :
  (forall bt, bt ∈ l ->
     thread_coord (fst (fst bt)) BLOCKX (fst (snd bt)) < dst_width ->
     thread_coord (snd (fst bt)) BLOCKY (snd (snd bt)) < dst_height ->
     j <> dst_index sizeof_DST pitch dst_pitch
            (thread_coord (fst (fst bt)) BLOCKX (fst (snd bt)))
            (thread_coord (snd (fst bt)) BLOCKY (snd (snd bt)))) ->
  fold_left (fun m bt =>
               Subsample_Bilinear sizeof_DST conv pitch dither tex m
                 dst_width dst_height dst_pitch src_width src_height
                 ditherTex (fst bt) (BLOCKX, BLOCKY) (snd bt)) l dst !! j
  = dst !! j.
Proof.
  revert dst. induction l as [| bt l IH]; intros dst Hj; [reflexivity |].
  cbn [fold_left]. rewrite IH by (intros; apply Hj; [now right | ..]; assumption).
  unfold Subsample_Bilinear. cbn [fst snd].
  apply run_at_other. intros Hx Hy. apply Hj; [now left | ..]; assumption.
Qed.

(** After a run of threads, the element that one of them stores to holds
    the value of a thread of the run that stores there. *)
Lemma run_writes (l : list ((Z * Z) * (Z * Z))) (dst : gmap Z D) (j : Z)
    (v : D) :
  (exists bt, bt ∈ l
     /\ thread_coord (fst (fst bt)) BLOCKX (fst (snd bt)) < dst_width
     /\ thread_coord (snd (fst bt)) BLOCKY (snd (snd bt)) < dst_height
     /\ j = dst_index sizeof_DST pitch dst_pitch
              (thread_coord (fst (fst bt)) BLOCKX (fst (snd bt)))
              (thread_coord (snd (fst bt)) BLOCKY (snd (snd bt)))) ->
  (forall bt, bt ∈ l ->
     thread_coord (fst (fst bt)) BLOCKX (fst (snd bt)) < dst_width ->
     thread_coord (snd (fst bt)) BLOCKY (snd (snd bt)) < dst_height ->
     j = dst_index sizeof_DST pitch dst_pitch
           (thread_coord (fst (fst bt)) BLOCKX (fst (snd bt)))
           (thread_coord (snd (fst bt)) BLOCKY (snd (snd bt))) ->
     Subsample_Bilinear_value conv dither tex dst_width dst_height
       src_width src_height ditherTex
       (thread_coord (fst (fst bt)) BLOCKX (fst (snd bt)))
       (thread_coord (snd (fst bt)) BLOCKY (snd (snd bt))) = v) ->
  fold_left (fun m bt =>
               Subsample_Bilinear sizeof_DST conv pitch dither tex m
                 dst_width dst_height dst_pitch src_width src_height
                 ditherTex (fst bt) (BLOCKX, BLOCKY) (snd bt)) l dst !! j
  = Some v.
Proof.
  induction l as [| a l IH] using rev_ind; intros (bt & Hin & Hx & Hy & Hj) Hv.
  - now apply elem_of_nil in Hin.
  - rewrite fold_left_app. cbn [fold_left].
    unfold Subsample_Bilinear at 1. cbn [fst snd].
    set (xa := thread_coord (fst (fst a)) BLOCKX (fst (snd a))).
    set (ya := thread_coord (snd (fst a)) BLOCKY (snd (snd a))).
    destruct (Z.ltb_spec xa dst_width) as [Hxa | Hxa];
      [destruct (Z.ltb_spec ya dst_height) as [Hya | Hya];
       [destruct (Z.eq_dec j (dst_index sizeof_DST pitch dst_pitch xa ya))
          as [Ej | Nj] | ] | ].
    + unfold Subsample_Bilinear_at, Subsample_Bilinear_store.
      destruct (Z.ltb_spec ya dst_height); [| lia].
      destruct (Z.ltb_spec xa dst_width); [| lia].
      cbn [andb]. rewrite Ej, lookup_insert_eq. f_equal.
      apply (Hv a); [apply elem_of_app; right; now left | ..]; assumption.
    + rewrite run_at_other by (intros; assumption).
      apply IH.
      * exists bt. repeat split; try assumption.
        apply elem_of_app in Hin. destruct Hin as [Hin | Hin]; [exact Hin |].
        apply list_elem_of_singleton in Hin. subst bt. contradiction.
      * intros b Hb. apply Hv. apply elem_of_app. now left.
    + rewrite run_at_other by (intros; lia).
      apply IH.
      * exists bt. repeat split; try assumption.
        apply elem_of_app in Hin. destruct Hin as [Hin | Hin]; [exact Hin |].
        apply list_elem_of_singleton in Hin. subst bt. fold ya in Hy. lia.
      * intros b Hb. apply Hv. apply elem_of_app. now left.
    + rewrite run_at_other by (intros; lia).
      apply IH.
      * exists bt. repeat split; try assumption.
        apply elem_of_app in Hin. destruct Hin as [Hin | Hin]; [exact Hin |].
        apply list_elem_of_singleton in Hin. subst bt. fold xa in Hx. lia.
      * intros b Hb. apply Hv. apply elem_of_app. now left.
Qed.

(** Two threads of the grid that store to the same element are at the
    same pixel. *)
Lemma same_index_same_pixel (bt bt' : (Z * Z) * (Z * Z)) :
  bt ∈ threads (DIV_UP dst_width BLOCKX, DIV_UP dst_height BLOCKY)
               (BLOCKX, BLOCKY) ->
  bt' ∈ threads (DIV_UP dst_width BLOCKX, DIV_UP dst_height BLOCKY)
                (BLOCKX, BLOCKY) ->
  thread_coord (fst (fst bt)) BLOCKX (fst (snd bt)) < dst_width ->
  thread_coord (fst (fst bt')) BLOCKX (fst (snd bt')) < dst_width ->
  dst_index sizeof_DST pitch dst_pitch
    (thread_coord (fst (fst bt)) BLOCKX (fst (snd bt)))
    (thread_coord (snd (fst bt)) BLOCKY (snd (snd bt)))
  = dst_index sizeof_DST pitch dst_pitch
      (thread_coord (fst (fst bt')) BLOCKX (fst (snd bt')))
      (thread_coord (snd (fst bt')) BLOCKY (snd (snd bt'))) ->
  thread_coord (fst (fst bt)) BLOCKX (fst (snd bt))
  = thread_coord (fst (fst bt')) BLOCKX (fst (snd bt'))
  /\ thread_coord (snd (fst bt)) BLOCKY (snd (snd bt))
     = thread_coord (snd (fst bt')) BLOCKY (snd (snd bt')).
Proof.
  intros Hin Hin' Hx Hx'.
  pose proof (threads_coords dst_width dst_height bt Hw Hh Hin) as [Cx Cy].
  pose proof (threads_coords dst_width dst_height bt' Hw Hh Hin') as [Cx' Cy'].
  cbv zeta in Cx, Cy, Cx', Cy'.
  set (x := thread_coord (fst (fst bt)) BLOCKX (fst (snd bt))) in *.
  set (y := thread_coord (snd (fst bt)) BLOCKY (snd (snd bt))) in *.
  set (x' := thread_coord (fst (fst bt')) BLOCKX (fst (snd bt'))) in *.
  set (y' := thread_coord (snd (fst bt')) BLOCKY (snd (snd bt'))) in *.
  rewrite !dst_index_exact by (try assumption; try lia; nia).
  intros E. eapply index_inj; [exact Hpitch | exact Hfit | | | | | exact E]; lia.
Qed.

End Launch.

(** After a run of threads, an element that one of them stores to holds
    the value of a thread of the run that stores there. *)
Lemma run_writes_some {S D : Type}
    (sizeof_DST : Z) (conv : S -> S -> S -> S -> Z -> D) (pitch dither : Z)
    (tex : texture S)
    (dst_width dst_height dst_pitch src_width src_height : Z)
    (ditherTex : dither_texture)
    (l : list ((Z * Z) * (Z * Z))) (dst : gmap Z D) (j : Z) :
  (exists bt, bt ∈ l
     /\ thread_coord (fst (fst bt)) BLOCKX (fst (snd bt)) < dst_width
     /\ thread_coord (snd (fst bt)) BLOCKY (snd (snd bt)) < dst_height
     /\ j = dst_index sizeof_DST pitch dst_pitch
              (thread_coord (fst (fst bt)) BLOCKX (fst (snd bt)))
              (thread_coord (snd (fst bt)) BLOCKY (snd (snd bt)))) ->
  exists bt, bt ∈ l
    /\ thread_coord (fst (fst bt)) BLOCKX (fst (snd bt)) < dst_width
    /\ thread_coord (snd (fst bt)) BLOCKY (snd (snd bt)) < dst_height
    /\ j = dst_index sizeof_DST pitch dst_pitch
             (thread_coord (fst (fst bt)) BLOCKX (fst (snd bt)))
             (thread_coord (snd (fst bt)) BLOCKY (snd (snd bt)))
    /\ fold_left (fun m bt =>
                    Subsample_Bilinear sizeof_DST conv pitch dither tex m
                      dst_width dst_height dst_pitch src_width src_height
                      ditherTex (fst bt) (BLOCKX, BLOCKY) (snd bt)) l dst
       !! j
       = Some (Subsample_Bilinear_value conv dither tex dst_width dst_height
                 src_width src_height ditherTex
                 (thread_coord (fst (fst bt)) BLOCKX (fst (snd bt)))
                 (thread_coord (snd (fst bt)) BLOCKY (snd (snd bt)))).
Proof.
  induction l as [| a l IH] using rev_ind; intros (bt & Hin & Hx & Hy & Hj).
  - now apply elem_of_nil in Hin.
  - rewrite fold_left_app. cbn [fold_left].
    unfold Subsample_Bilinear at 1. cbn [fst snd].
    set (xa := thread_coord (fst (fst a)) BLOCKX (fst (snd a))).
    set (ya := thread_coord (snd (fst a)) BLOCKY (snd (snd a))).
    assert (Hcase : (xa < dst_width /\ ya < dst_height
                     /\ j = dst_index sizeof_DST pitch dst_pitch xa ya)
                    \/ (xa < dst_width -> ya < dst_height ->
                        j <> dst_index sizeof_DST pitch dst_pitch xa ya)).
    { destruct (Z.ltb_spec xa dst_width); [| right; lia].
      destruct (Z.ltb_spec ya dst_height); [| right; lia].
      destruct (Z.eq_dec j (dst_index sizeof_DST pitch dst_pitch xa ya));
        [left | right]; auto. }
    destruct Hcase as [(Hxa & Hya & Ej) | Hno].
    + exists a. split; [apply elem_of_app; right; now left |].
      fold xa ya. repeat split; try assumption.
      unfold Subsample_Bilinear_at, Subsample_Bilinear_store.
      destruct (Z.ltb_spec ya dst_height); [| lia].
      destruct (Z.ltb_spec xa dst_width); [| lia].
      cbn [andb]. now rewrite Ej, lookup_insert_eq.
    + rewrite run_at_other by exact Hno.
      destruct IH as (b & Hb & Hbx & Hby & Hbj & Hv).
      * exists bt. repeat split; try assumption.
        apply elem_of_app in Hin. destruct Hin as [Hin | Hin]; [exact Hin |].
        apply list_elem_of_singleton in Hin. subst bt.
        exfalso. now apply Hno.
      * exists b. split; [apply elem_of_app; now left |].
        repeat split; assumption.
Qed.

(** C10. The thread [(blockIdx, threadIdx)] of a launch has the
    coordinates [xo = blockIdx.x * 32 + threadIdx.x] and
    [yo = blockIdx.y * 16 + threadIdx.y].  The kernel run for it stores
    to the destination exactly when [xo < dst_width] and
    [yo < dst_height]: it then replaces the one element at the index
    [yo * (dst_pitch / sizeof(DST)) + xo * pitch] by its value and
    changes nothing else, and otherwise it leaves the destination as it
    is.  After the launch every element of the [dst_width] x [dst_height]
    grid holds the value of a thread of the grid with that index (of the
    thread at that very pixel when a row fits into the stride), and every
    element outside the indices of the grid, the padding at the end of a
    row included, is as it was. *)
Theorem Subsample_Bilinear_stores_inside_grid {S D : Type}
    (sizeof_DST : Z) (conv : S -> S -> S -> S -> Z -> D) (pitch dither : Z)
    (tex : texture S) (dst : gmap Z D)
    (dst_width dst_height dst_pitch src_width src_height : Z)
    (ditherTex : dither_texture) (blockIdx threadIdx : Z * Z) :
  dst_width <= 2 ^ 31 - 32 -> dst_height <= 2 ^ 31 - 16 ->
  0 <= dst_pitch < 2 ^ 31 -> 0 < sizeof_DST ->
  0 <= pitch -> pitch * dst_width < 2 ^ 31 ->
  (blockIdx, threadIdx)
    ∈ threads (DIV_UP dst_width BLOCKX, DIV_UP dst_height BLOCKY)
              (BLOCKX, BLOCKY) ->
  let xo := fst blockIdx * BLOCKX + fst threadIdx in
  let yo := snd blockIdx * BLOCKY + snd threadIdx in
  let index := fun x y => y * (dst_pitch / sizeof_DST) + x * pitch in
  let value := fun x y =>
    Subsample_Bilinear_value conv dither tex dst_width dst_height
      src_width src_height ditherTex x y in
  let ran :=
    Subsample_Bilinear sizeof_DST conv pitch dither tex dst
      dst_width dst_height dst_pitch src_width src_height ditherTex
      blockIdx (BLOCKX, BLOCKY) threadIdx in
  let launched :=
    cuLaunchKernel
      (fun m => Subsample_Bilinear sizeof_DST conv pitch dither tex m
                  dst_width dst_height dst_pitch src_width src_height
                  ditherTex)
      (DIV_UP dst_width BLOCKX, DIV_UP dst_height BLOCKY) (BLOCKX, BLOCKY)
      dst in
  (0 <= xo /\ 0 <= yo
   /\ thread_coord (fst blockIdx) BLOCKX (fst threadIdx) = xo
   /\ thread_coord (snd blockIdx) BLOCKY (snd threadIdx) = yo)
  /\ (is_Some (Subsample_Bilinear_store sizeof_DST conv pitch dither tex
                 dst_width dst_height dst_pitch src_width src_height
                 ditherTex xo yo)
      <-> xo < dst_width /\ yo < dst_height)
  /\ (xo < dst_width /\ yo < dst_height ->
      ran = <[ index xo yo := value xo yo ]> dst
      /\ ran !! index xo yo = Some (value xo yo))
  /\ (~ (xo < dst_width /\ yo < dst_height) -> ran = dst)
  /\ (forall j, j <> index xo yo -> ran !! j = dst !! j)
  /\ (forall j,
        (forall x y, 0 <= x < dst_width -> 0 <= y < dst_height ->
                     j <> index x y) ->
        launched !! j = dst !! j)
  /\ (forall y c,
        pitch * (dst_width - 1) < c < dst_pitch / sizeof_DST ->
        launched !! (index 0 y + c) = dst !! (index 0 y + c))
  /\ (forall x y,
        0 <= x < dst_width -> 0 <= y < dst_height ->
        exists x' y',
          (0 <= x' < dst_width /\ 0 <= y' < dst_height)
          /\ index x' y' = index x y
          /\ launched !! index x y = Some (value x' y'))
  /\ (0 < pitch -> pitch * (dst_width - 1) < dst_pitch / sizeof_DST ->
      forall x y,
        0 <= x < dst_width -> 0 <= y < dst_height ->
        launched !! index x y = Some (value x y)).
Proof.
  intros Hw Hh Hdp Hsz Hpitch Hrow Hin xo yo index value ran launched.
  pose proof (threads_coords dst_width dst_height _ Hw Hh Hin) as [Cx Cy].
  cbv zeta in Cx, Cy. cbn [fst snd] in Cx, Cy.
  apply elem_of_threads in Hin. cbn [fst snd] in Hin.
  pose proof (DIV_UP_ceiling dst_width BLOCKX ltac:(reflexivity)) as Hgx.
  pose proof (DIV_UP_ceiling dst_height BLOCKY ltac:(reflexivity)) as Hgy.
  assert (Ex : thread_coord (fst blockIdx) BLOCKX (fst threadIdx) = xo).
  { apply thread_coord_small. unfold BLOCKX, BLOCKY in *. lia. }
  assert (Ey : thread_coord (snd blockIdx) BLOCKY (snd threadIdx) = yo).
  { apply thread_coord_small. unfold BLOCKX, BLOCKY in *. lia. }
  rewrite Ex in Cx. rewrite Ey in Cy.
  assert (Hidx : forall x y, 0 <= x < dst_width -> 0 <= y < dst_height ->
            dst_index sizeof_DST pitch dst_pitch x y = index x y).
  { intros x y Hx Hy. apply dst_index_exact; try lia.
    split; [apply Z.mul_nonneg_nonneg; lia |].
    apply Z.le_lt_trans with (pitch * dst_width); [| lia].
    rewrite Z.mul_comm. apply Z.mul_le_mono_nonneg_l; lia. }
  assert (Hran : ran = Subsample_Bilinear_at sizeof_DST conv pitch dither tex
                         dst dst_width dst_height dst_pitch src_width
                         src_height ditherTex xo yo).
  { unfold ran, Subsample_Bilinear. cbn [fst snd]. now rewrite Ex, Ey. }
  assert (Hlaunch : forall j,
            (forall x y, 0 <= x < dst_width -> 0 <= y < dst_height ->
                         j <> index x y) ->
            launched !! j = dst !! j).
  { intros j Hj. apply launch_frame; try assumption.
    intros x y Hx Hy. rewrite Hidx by assumption. now apply Hj. }
  assert (Hsome : forall x y,
            0 <= x < dst_width -> 0 <= y < dst_height ->
            exists x' y',
              (0 <= x' < dst_width /\ 0 <= y' < dst_height)
              /\ index x' y' = index x y
              /\ launched !! index x y = Some (value x' y')).
  { intros x y Hx Hy.
    destruct (thread_of_pixel dst_width dst_height x y Hw Hh Hx Hy)
      as (Hi & Tx & Ty).
    destruct (run_writes_some sizeof_DST conv pitch dither tex dst_width
                dst_height dst_pitch src_width src_height ditherTex
                (threads (DIV_UP dst_width BLOCKX, DIV_UP dst_height BLOCKY)
                         (BLOCKX, BLOCKY)) dst (index x y))
      as (b & Hb & Hbx & Hby & Hbj & Hv).
    { eexists. split; [exact Hi |]. cbn [fst snd]. rewrite Tx, Ty.
      repeat split; try lia. symmetry. now apply Hidx. }
    pose proof (threads_coords dst_width dst_height b Hw Hh Hb) as [Bx By].
    cbv zeta in Bx, By.
    eexists _, _. split; [split; split; [apply Bx | exact Hbx
                                         | apply By | exact Hby] |].
    split; [| exact Hv].
    rewrite Hbj. symmetry. apply Hidx; lia. }
  split; [repeat split; (lia || assumption) |].
  split; [apply store_guard |].
  split.
  { intros [Hx Hy]. rewrite Hran.
    unfold Subsample_Bilinear_at, Subsample_Bilinear_store.
    destruct (Z.ltb_spec yo dst_height); [| lia].
    destruct (Z.ltb_spec xo dst_width); [| lia].
    cbn [andb]. rewrite Hidx by lia.
    split; [reflexivity | apply lookup_insert_eq]. }
  split.
  { intros Hg. rewrite Hran.
    unfold Subsample_Bilinear_at, Subsample_Bilinear_store.
    destruct (Z.ltb_spec yo dst_height); [| reflexivity].
    destruct (Z.ltb_spec xo dst_width); [| reflexivity].
    exfalso. apply Hg. lia. }
  split.
  { intros j Hj. rewrite Hran. apply run_at_other. intros Hx Hy.
    rewrite Hidx by lia. exact Hj. }
  split; [exact Hlaunch |].
  split.
  { intros y c Hc. apply Hlaunch. intros x y' Hx Hy'. subst index. cbv beta.
    set (stride := dst_pitch / sizeof_DST) in *.
    assert (Hxp : 0 <= x * pitch <= pitch * (dst_width - 1)).
    { split; [apply Z.mul_nonneg_nonneg; lia |].
      rewrite Z.mul_comm. apply Z.mul_le_mono_nonneg_l; lia. }
    intros Heq.
    assert (Hd : (y - y') * stride = x * pitch - c) by lia.
    assert (Hcases : y - y' <= -1 \/ y - y' = 0 \/ 1 <= y - y') by lia.
    destruct Hcases as [Hn | [Hz | Hpz]].
    - assert ((y - y') * stride <= -1 * stride)
        by (apply Z.mul_le_mono_nonneg_r; lia). lia.
    - rewrite Hz in Hd. lia.
    - assert (1 * stride <= (y - y') * stride)
        by (apply Z.mul_le_mono_nonneg_r; lia). lia. }
  split; [exact Hsome |].
  intros Hp Hfit x y Hx Hy.
  destruct (Hsome x y Hx Hy) as (x' & y' & [Hx' Hy'] & Ei & Hv).
  destruct (index_inj (dst_pitch / sizeof_DST) pitch dst_width x' y' x y
              Hp Hfit Hx' Hx ltac:(lia) ltac:(lia) Ei) as [-> ->].
  exact Hv.
Qed.

Lemma Subsample_Bilinear_stores_inside_grid_witness :
  (0 <= 8 < 2 ^ 31
   /\ ((0, 0), (3, 1)) ∈ threads (DIV_UP 4 BLOCKX, DIV_UP 2 BLOCKY)
                                (BLOCKX, BLOCKY))
  /\ Subsample_Bilinear 1
       (add_conv_shift1 (Scalar uchar) (Scalar uchar) 0 0) 1 0
       (fun _ _ => 7) (∅ : gmap Z Z) 4 2 8 8 4
       {| dither_matrix := fun x y => x + 2 * y; dither_size := 2 |}
       (0, 0) (BLOCKX, BLOCKY) (3, 1)
     !! (1 * (8 / 1) + 3 * 1)
     = Some 7.
Proof.
  assert (Hp : 0 <= 8 < 2 ^ 31) by lia.
  assert (Hin : ((0, 0), (3, 1))
                  ∈ threads (DIV_UP 4 BLOCKX, DIV_UP 2 BLOCKY)
                            (BLOCKX, BLOCKY))
    by (apply elem_of_threads; vm_compute; repeat split;
        first [reflexivity | discriminate]).
  assert (Hg : 0 * BLOCKX + 3 < 4 /\ 0 * BLOCKY + 1 < 2)
    by (split; reflexivity).
  split; [split; assumption |].
  exact (proj2 (proj1 (proj2 (proj2
           (Subsample_Bilinear_stores_inside_grid 1
              (add_conv_shift1 (Scalar uchar) (Scalar uchar) 0 0) 1 0
              (fun _ _ => 7) (∅ : gmap Z Z) 4 2 8 8 4
              {| dither_matrix := fun x y => x + 2 * y; dither_size := 2 |}
              (0, 0) (3, 1)
              ltac:(lia) ltac:(lia) Hp ltac:(lia) ltac:(lia) ltac:(lia)
              Hin)))
           Hg)).
Defined.

(** X1. When a row of the plane fits into the stride, a launch with the
    grid of [call_resize_kernel] leaves in every element of the
    destination grid the value of the thread at that pixel. *)
Theorem launch_writes_every_pixel {S D : Type}
    (sizeof_DST : Z) (conv : S -> S -> S -> S -> Z -> D) (pitch dither : Z)
    (tex : texture S) (dst : gmap Z D)
    (dst_width dst_height dst_pitch src_width src_height : Z)
    (ditherTex : dither_texture) (x y : Z) :
  dst_width <= 2 ^ 31 - 32 -> dst_height <= 2 ^ 31 - 16 ->
  0 <= dst_pitch < 2 ^ 31 -> 0 < sizeof_DST ->
  0 < pitch -> pitch * dst_width < 2 ^ 31 ->
  pitch * (dst_width - 1) < dst_pitch / sizeof_DST ->
  0 <= x < dst_width -> 0 <= y < dst_height ->
  cuLaunchKernel
    (fun m => Subsample_Bilinear sizeof_DST conv pitch dither tex m
                dst_width dst_height dst_pitch src_width src_height
                ditherTex)
    (DIV_UP dst_width BLOCKX, DIV_UP dst_height BLOCKY) (BLOCKX, BLOCKY) dst
  !! (y * (dst_pitch / sizeof_DST) + x * pitch)
  = Some (Subsample_Bilinear_value conv dither tex dst_width dst_height
            src_width src_height ditherTex x y).
Proof.
  intros Hw Hh Hdp Hsz Hpitch Hrow Hfit Hx Hy.
  destruct (thread_of_pixel dst_width dst_height x y Hw Hh Hx Hy)
    as (Hin & Ex & Ey).
  assert (Ei : dst_index sizeof_DST pitch dst_pitch x y
               = y * (dst_pitch / sizeof_DST) + x * pitch)
    by (apply dst_index_exact; try assumption; try lia; nia).
  unfold cuLaunchKernel. apply run_writes.
  - eexists. split; [exact Hin |]. cbn [fst snd]. rewrite Ex, Ey.
    repeat split; lia.
  - intros bt Hbt Hbx Hby Hj. rewrite <- Ei in Hj.
    rewrite <- Ex, <- Ey in Hj.
    destruct (same_index_same_pixel sizeof_DST pitch dst_width dst_height
                dst_pitch Hw Hh Hdp Hsz Hpitch Hrow Hfit _ _ Hin Hbt
                ltac:(cbn [fst snd]; lia) Hbx Hj) as [E1 E2].
    cbn [fst snd] in E1, E2. rewrite <- E1, <- E2, Ex, Ey. reflexivity.
Qed.

Lemma launch_writes_every_pixel_witness :
  (0 <= 3 < 4 /\ 0 <= 1 < 2)
  /\ cuLaunchKernel
       (fun m => Subsample_Bilinear 1 (add_conv_shift1 (Scalar uchar)
                   (Scalar uchar) 0 0) 1 0 (fun _ _ => 10) m 4 2 8 4 2
                   {| dither_matrix := fun x y => x + 2 * y;
                      dither_size := 2 |})
       (DIV_UP 4 BLOCKX, DIV_UP 2 BLOCKY) (BLOCKX, BLOCKY) ∅
     !! (1 * (8 / 1) + 3 * 1)
     = Some (Subsample_Bilinear_value (add_conv_shift1 (Scalar uchar)
               (Scalar uchar) 0 0) 0 (fun _ _ => 10) 4 2 4 2
               {| dither_matrix := fun x y => x + 2 * y; dither_size := 2 |}
               3 1).
Proof.
  assert (Hx : 0 <= 3 < 4) by lia.
  assert (Hy : 0 <= 1 < 2) by lia.
  split; [split; assumption |].
  apply (launch_writes_every_pixel 1 (add_conv_shift1 (Scalar uchar)
           (Scalar uchar) 0 0) 1 0 (fun _ _ => 10) ∅ 4 2 8 4 2
           {| dither_matrix := fun x y => x + 2 * y; dither_size := 2 |}
           3 1); first [lia | reflexivity].
Defined.

(** X2. The threads of a launch may run in any order: every
    arrangement of the threads of the grid leaves the same destination
    memory as the launch. *)
Theorem launch_order_irrelevant {S D : Type}
    (sizeof_DST : Z) (conv : S -> S -> S -> S -> Z -> D) (pitch dither : Z)
    (tex : texture S) (dst : gmap Z D)
    (dst_width dst_height dst_pitch src_width src_height : Z)
    (ditherTex : dither_texture) (l : list ((Z * Z) * (Z * Z))) :
  dst_width <= 2 ^ 31 - 32 -> dst_height <= 2 ^ 31 - 16 ->
  0 <= dst_pitch < 2 ^ 31 -> 0 < sizeof_DST ->
  0 < pitch -> pitch * dst_width < 2 ^ 31 ->
  pitch * (dst_width - 1) < dst_pitch / sizeof_DST ->
  l ≡ₚ threads (DIV_UP dst_width BLOCKX, DIV_UP dst_height BLOCKY)
               (BLOCKX, BLOCKY) ->
  fold_left (fun m bt =>
               Subsample_Bilinear sizeof_DST conv pitch dither tex m
                 dst_width dst_height dst_pitch src_width src_height
                 ditherTex (fst bt) (BLOCKX, BLOCKY) (snd bt)) l dst
  = cuLaunchKernel
      (fun m => Subsample_Bilinear sizeof_DST conv pitch dither tex m
                  dst_width dst_height dst_pitch src_width src_height
                  ditherTex)
      (DIV_UP dst_width BLOCKX, DIV_UP dst_height BLOCKY) (BLOCKX, BLOCKY)
      dst.
Proof.
  intros Hw Hh Hdp Hsz Hpitch Hrow Hfit Hperm.
  unfold cuLaunchKernel.
  set (T := threads _ _) in *.
  apply map_eq. intros j.
  destruct (decide (Exists (fun bt =>
              thread_coord (fst (fst bt)) BLOCKX (fst (snd bt)) < dst_width
              /\ thread_coord (snd (fst bt)) BLOCKY (snd (snd bt))
                 < dst_height
              /\ j = dst_index sizeof_DST pitch dst_pitch
                       (thread_coord (fst (fst bt)) BLOCKX (fst (snd bt)))
                       (thread_coord (snd (fst bt)) BLOCKY (snd (snd bt))))
              T)) as [He | Hn].
  - apply Exists_exists in He. destruct He as (bt & Hin & Hx & Hy & Hj).
    assert (Hv : forall b, b ∈ T ->
              thread_coord (fst (fst b)) BLOCKX (fst (snd b)) < dst_width ->
              thread_coord (snd (fst b)) BLOCKY (snd (snd b)) < dst_height ->
              j = dst_index sizeof_DST pitch dst_pitch
                    (thread_coord (fst (fst b)) BLOCKX (fst (snd b)))
                    (thread_coord (snd (fst b)) BLOCKY (snd (snd b))) ->
              Subsample_Bilinear_value conv dither tex dst_width dst_height
                src_width src_height ditherTex
                (thread_coord (fst (fst b)) BLOCKX (fst (snd b)))
                (thread_coord (snd (fst b)) BLOCKY (snd (snd b)))
              = Subsample_Bilinear_value conv dither tex dst_width dst_height
                  src_width src_height ditherTex
                  (thread_coord (fst (fst bt)) BLOCKX (fst (snd bt)))
                  (thread_coord (snd (fst bt)) BLOCKY (snd (snd bt)))).
    { intros b Hb Hbx Hby Hbj. rewrite Hj in Hbj.
      destruct (same_index_same_pixel sizeof_DST pitch dst_width dst_height
                  dst_pitch Hw Hh Hdp Hsz Hpitch Hrow Hfit _ _
                  Hin Hb Hx Hbx Hbj) as [E1 E2].
      now rewrite E1, E2. }
    rewrite (run_writes sizeof_DST conv pitch dither tex dst_width dst_height
               dst_pitch src_width src_height ditherTex l dst j _
               ltac:(exists bt; split; [now rewrite Hperm | auto])
               ltac:(intros b Hb; apply Hv; now rewrite <- Hperm)).
    symmetry. apply run_writes; [exists bt; auto | exact Hv].
  - rewrite Exists_exists in Hn.
    rewrite !run_frame; [reflexivity | |].
    + intros b Hb Hx Hy Hj. apply Hn. exists b.
      split; [assumption | auto].
    + intros b Hb Hx Hy Hj. apply Hn. exists b.
      split; [now rewrite <- Hperm | auto].
Qed.

Lemma launch_order_irrelevant_witness :
  (0 <= 8 < 2 ^ 31 /\ 1 * (4 - 1) < 8 / 1)
  /\ fold_left (fun m bt =>
                  Subsample_Bilinear 1 (add_conv_shift1 (Scalar uchar)
                    (Scalar uchar) 0 0) 1 0 (fun _ _ => 10) m 4 2 8 4 2
                    {| dither_matrix := fun _ _ => 0; dither_size := 2 |}
                    (fst bt) (BLOCKX, BLOCKY) (snd bt))
       (reverse (threads (DIV_UP 4 BLOCKX, DIV_UP 2 BLOCKY)
                         (BLOCKX, BLOCKY))) ∅
     = cuLaunchKernel
         (fun m => Subsample_Bilinear 1 (add_conv_shift1 (Scalar uchar)
                     (Scalar uchar) 0 0) 1 0 (fun _ _ => 10) m 4 2 8 4 2
                     {| dither_matrix := fun _ _ => 0; dither_size := 2 |})
         (DIV_UP 4 BLOCKX, DIV_UP 2 BLOCKY) (BLOCKX, BLOCKY) ∅.
Proof.
  assert (Hp : 0 <= 8 < 2 ^ 31) by lia.
  assert (Hf : 1 * (4 - 1) < 8 / 1) by reflexivity.
  split; [split; assumption |].
  apply (launch_order_irrelevant 1 (add_conv_shift1 (Scalar uchar)
           (Scalar uchar) 0 0) 1 0 (fun _ _ => 10) ∅ 4 2 8 4 2
           {| dither_matrix := fun _ _ => 0; dither_size := 2 |});
    [lia | lia | exact Hp | lia | lia | lia | exact Hf |].
  apply reverse_Permutation.
Defined.

(** ** The kernels in unbounded arithmetic *)

Lemma shift_exact (bs bd : basetype) (shift bias a b c e : Z) :
  sizeof_base bs <= 2 -> sizeof_base bd <= 2 ->
  shift = bits bs - bits bd ->
  in_range bs a -> in_range bs b -> in_range bs c -> in_range bs e ->
  0 <= bias <= 3 ->
  shift_and_truncate bd shift (accumulate a b c e bias)
  = exact_mean shift bias a b c e.
Proof.
  intros Hs Hd -> Ha Hb Hc He Hbias.
  pose proof (sample_bound bs a Hs Ha). pose proof (sample_bound bs b Hs Hb).
  pose proof (sample_bound bs c Hs Hc). pose proof (sample_bound bs e Hs He).
  rewrite accumulate_exact by (unfold UINT_MAX; lia).
  unfold shift_and_truncate, exact_mean. cbv zeta.
  unfold in_range, bits in *.
  destruct bs, bd; cbn [sizeof_base] in *; try lia.
  - change (8 * 1 - 8 * 1 >? -2) with true. cbv iota.
    change (2 + (8 * 1 - 8 * 1)) with 2.
    rewrite Z.shiftr_div_pow2 by lia. apply cast_small.
    unfold in_range, bits, sizeof_base. split.
    + apply Z.div_pos; lia.
    + apply Z.div_lt_upper_bound; lia.
  - change (8 * 1 - 8 * 2 >? -2) with false. cbv iota.
    change (- (8 * 1 - 8 * 2) - 2) with 6.
    rewrite Z.shiftl_mul_pow2 by lia. apply cast_small.
    unfold in_range, bits, sizeof_base. lia.
  - change (8 * 2 - 8 * 1 >? -2) with true. cbv iota.
    change (2 + (8 * 2 - 8 * 1)) with 10.
    rewrite Z.shiftr_div_pow2 by lia. apply cast_small.
    unfold in_range, bits, sizeof_base. split.
    + apply Z.div_pos; lia.
    + apply Z.div_lt_upper_bound; lia.
  - change (8 * 2 - 8 * 2 >? -2) with true. cbv iota.
    change (2 + (8 * 2 - 8 * 2)) with 2.
    rewrite Z.shiftr_div_pow2 by lia. apply cast_small.
    unfold in_range, bits, sizeof_base. split.
    + apply Z.div_pos; lia.
    + apply Z.div_lt_upper_bound; lia.
Qed.

(** The dither bias of the first kernel of a set is 0: without dither
    it is [1 >> 11] or [1 >> 19], with dither [(1 + d) >> 18]. *)
Lemma luma_bias_zero (bs bd : basetype) (SHIFT d : Z) :
  sizeof_base bs <= 2 -> sizeof_base bd <= 2 ->
  in_range ushort d ->
  (DITHER (VARIANTSET2 bs bd SHIFT sfx_) = 0 -> d = 0) ->
  dither_bias (Scalar bs) (DITHER (VARIANTSET2 bs bd SHIFT sfx_)) d = 0.
Proof.
  intros Hs Hd Hr H0. unfold in_range, bits, sizeof_base in Hr.
  cbn [DITHER VARIANTSET2 sizeof] in *.
  destruct bs, bd; cbn [sizeof_base] in *; try lia;
    cbn [Z.ltb Z.compare Pos.compare Pos.compare_cont] in *;
    try (rewrite H0 by reflexivity; reflexivity).
  unfold dither_bias. cbn [sizeof sizeof_base].
  change (to_size_t (2 * 8 - 1 + 3)) with 18.
  rewrite Z.shiftr_div_pow2 by lia. apply Z.div_small. lia.
Qed.

Lemma valid_scalar (b : basetype) (v : Z) :
  @valid (Scalar b) v -> in_range b v.
Proof. intros H. now apply Forall_cons_1 in H. Qed.

Lemma valid_vec2 (b : basetype) (v : vec2) :
  @valid (Vec2 b) v -> in_range b (x2 v) /\ in_range b (y2 v).
Proof.
  intros H. apply Forall_cons_1 in H. destruct H as [Hx H].
  apply Forall_cons_1 in H. now destruct H as [Hy _].
Qed.

Lemma valid_vec4 (b : basetype) (v : vec4) :
  @valid (Vec4 b) v ->
  in_range b (x4 v) /\ in_range b (y4 v)
  /\ in_range b (z4 v) /\ in_range b (w4 v).
Proof.
  intros H. apply Forall_cons_1 in H. destruct H as [Hx H].
  apply Forall_cons_1 in H. destruct H as [Hy H].
  apply Forall_cons_1 in H. destruct H as [Hz H].
  apply Forall_cons_1 in H. now destruct H as [Hw _].
Qed.

Lemma functor_exact (bs bd : basetype) (SHIFT : Z) (s : suffix)
    (i0 i1 i2 i3 : val (SRC (VARIANTSET2 bs bd SHIFT s))) (d : Z) :
  sizeof_base bs <= 2 -> sizeof_base bd <= 2 ->
  SHIFT = bits bs - bits bd ->
  valid i0 -> valid i1 -> valid i2 -> valid i3 ->
  in_range ushort d ->
  (DITHER (VARIANTSET2 bs bd SHIFT s) = 0 -> d = 0) ->
  components (functor (VARIANTSET2 bs bd SHIFT s) i0 i1 i2 i3 d)
  = map4 (exact_mean SHIFT (kernel_bias s))
      (components (texel_part bs bd SHIFT s i0))
      (components (texel_part bs bd SHIFT s i1))
      (components (texel_part bs bd SHIFT s i2))
      (components (texel_part bs bd SHIFT s i3)).
Proof.
  intros Hs Hd HS V0 V1 V2 V3 Hr H0.
  assert (E2 : forall a b c e,
             in_range bs a -> in_range bs b -> in_range bs c ->
             in_range bs e ->
             shift_and_truncate bd SHIFT (accumulate a b c e 2)
             = exact_mean SHIFT 2 a b c e)
    by (intros; apply (shift_exact bs); try assumption; lia).
  destruct s; cbn [SRC VARIANTSET2] in V0, V1, V2, V3.
  - apply (valid_scalar bs) in V0, V1, V2, V3.
    change (functor (VARIANTSET2 bs bd SHIFT sfx_) i0 i1 i2 i3 d)
      with (add_conv_shift1_d (Scalar bs) (Scalar bd) SHIFT
              (DITHER (VARIANTSET2 bs bd SHIFT sfx_)) i0 i1 i2 i3 d).
    rewrite add_conv_shift1_d_spec, luma_bias_zero by assumption.
    cbn [base components texel_part map4 kernel_bias DST SRC VARIANTSET2]. f_equal.
    apply (shift_exact bs); try assumption; lia.
  - apply (valid_scalar bs) in V0, V1, V2, V3.
    change (functor (VARIANTSET2 bs bd SHIFT sfx_c) i0 i1 i2 i3 d)
      with (add_conv_shift1 (Scalar bs) (Scalar bd) SHIFT 0 i0 i1 i2 i3 d).
    rewrite add_conv_shift1_spec.
    cbn [base components texel_part map4 kernel_bias DST SRC VARIANTSET2]. f_equal. now apply E2.
  - apply (valid_scalar bs) in V0, V1, V2, V3.
    change (functor (VARIANTSET2 bs bd SHIFT sfx_p2) i0 i1 i2 i3 d)
      with (add_conv_shift1 (Scalar bs) (Scalar bd) SHIFT 0 i0 i1 i2 i3 d).
    rewrite add_conv_shift1_spec.
    cbn [base components texel_part map4 kernel_bias DST SRC VARIANTSET2]. f_equal. now apply E2.
  - apply (valid_vec2 bs) in V0, V1, V2, V3.
    destruct V0, V1, V2, V3.
    change (functor (VARIANTSET2 bs bd SHIFT sfx_2) i0 i1 i2 i3 d)
      with (add_conv_shift2 (Vec2 bs) (Vec2 bd) SHIFT 0 i0 i1 i2 i3 d).
    unfold add_conv_shift2. cbv zeta. cbn [base components texel_part map4 kernel_bias DST SRC VARIANTSET2].
    rewrite <- !E2 by assumption. rewrite <- !select_spec.
    now destruct (SHIFT >? -2).
  - apply (valid_vec2 bs) in V0, V1, V2, V3.
    destruct V0, V1, V2, V3.
    change (functor (VARIANTSET2 bs bd SHIFT sfx_2_u) i0 i1 i2 i3 d)
      with (add_conv_shift1 (Scalar unsigned) (Scalar bd) SHIFT 0
              (x2 i0) (x2 i1) (x2 i2) (x2 i3) d).
    rewrite add_conv_shift1_spec.
    cbn [base components texel_part map4 kernel_bias DST SRC VARIANTSET2]. f_equal. now apply E2.
  - apply (valid_vec2 bs) in V0, V1, V2, V3.
    destruct V0, V1, V2, V3.
    change (functor (VARIANTSET2 bs bd SHIFT sfx_2_v) i0 i1 i2 i3 d)
      with (add_conv_shift1 (Scalar unsigned) (Scalar bd) SHIFT 0
              (y2 i0) (y2 i1) (y2 i2) (y2 i3) d).
    rewrite add_conv_shift1_spec.
    cbn [base components texel_part map4 kernel_bias DST SRC VARIANTSET2]. f_equal. now apply E2.
  - apply (valid_vec4 bs) in V0, V1, V2, V3.
    destruct V0 as (? & ? & ? & ?), V1 as (? & ? & ? & ?),
             V2 as (? & ? & ? & ?), V3 as (? & ? & ? & ?).
    change (functor (VARIANTSET2 bs bd SHIFT sfx_4) i0 i1 i2 i3 d)
      with (add_conv_shift4 (Vec4 bs) (Vec4 bd) SHIFT 0 i0 i1 i2 i3 d).
    unfold add_conv_shift4. cbv zeta. cbn [base components texel_part map4 kernel_bias DST SRC VARIANTSET2].
    rewrite <- !E2 by assumption. rewrite <- !select_spec.
    now destruct (SHIFT >? -2).
Qed.

Lemma SHIFT_VARIANTSET2 (bs bd : basetype) (SH : Z) (s : suffix) :
  SHIFT (VARIANTSET2 bs bd SH s) = SH.
Proof. now destruct s. Qed.

Lemma reads_valid {t : ctype} (tex : texture (val t))
    (dst_width dst_height src_width src_height xo yo : Z) :
  (forall x y, valid (tex x y)) ->
  let '(i0, i1, i2, i3) :=
    Subsample_Bilinear_reads tex dst_width dst_height src_width src_height
      xo yo in
  valid i0 /\ valid i1 /\ valid i2 /\ valid i3.
Proof.
  intros Hv. unfold Subsample_Bilinear_reads, tex2D. cbv zeta.
  repeat split; apply Hv.
Qed.

Lemma ditherVal_range (dither : Z) (ditherTex : dither_texture) (xo yo : Z) :
  (forall x y, in_range ushort (dither_matrix ditherTex x y)) ->
  in_range ushort (ditherVal dither ditherTex xo yo)
  /\ (dither = 0 -> ditherVal dither ditherTex xo yo = 0).
Proof.
  intros Hm. unfold ditherVal, tex2D_dither.
  destruct (Z.eqb_spec dither 0) as [-> | Hn]; cbn [negb].
  - split; [unfold in_range, bits, sizeof_base; lia | reflexivity].
  - split; [apply Hm | contradiction].
Qed.

Lemma value_exact (bs bd : basetype) (SHIFT : Z) (s : suffix)
    (tex : texture (val (SRC (VARIANTSET2 bs bd SHIFT s))))
    (dst_width dst_height src_width src_height : Z)
    (ditherTex : dither_texture) (xo yo : Z) :
  sizeof_base bs <= 2 -> sizeof_base bd <= 2 ->
  SHIFT = bits bs - bits bd ->
  (forall x y, valid (tex x y)) ->
  (forall x y, in_range ushort (dither_matrix ditherTex x y)) ->
  let '(i0, i1, i2, i3) :=
    Subsample_Bilinear_reads tex dst_width dst_height src_width src_height
      xo yo in
  components
    (Subsample_Bilinear_value (functor (VARIANTSET2 bs bd SHIFT s))
       (DITHER (VARIANTSET2 bs bd SHIFT s)) tex dst_width dst_height
       src_width src_height ditherTex xo yo)
  = map4 (exact_mean SHIFT (kernel_bias s))
      (components (texel_part bs bd SHIFT s i0))
      (components (texel_part bs bd SHIFT s i1))
      (components (texel_part bs bd SHIFT s i2))
      (components (texel_part bs bd SHIFT s i3)).
Proof.
  intros Hs Hd HS Hv Hm.
  pose proof (reads_valid tex dst_width dst_height src_width src_height
                xo yo Hv) as Hr.
  unfold Subsample_Bilinear_value.
  destruct (Subsample_Bilinear_reads _ _ _ _ _ _ _) as [[[i0 i1] i2] i3].
  destruct Hr as (V0 & V1 & V2 & V3).
  destruct (ditherVal_range (DITHER (VARIANTSET2 bs bd SHIFT s)) ditherTex
              xo yo Hm) as [Hd1 Hd2].
  now apply functor_exact.
Qed.

(** X4. Each of the 28 kernels stores, in every component, the sum of
    the four samples it read and its bias, divided by [2^(2 + shift)] or
    multiplied by [2^(-shift - 2)], in unbounded arithmetic: neither
    the accumulation nor the shift nor the conversion to the
    destination type loses a bit.  The bias is 2, and 0 in the first
    kernel of each set. *)
Theorem kernels_in_exact_arithmetic (n : kernel_name)
    (tex : texture (val (SRC (instantiation n))))
    (dst_width dst_height src_width src_height : Z)
    (ditherTex : dither_texture) (xo yo : Z) :
  (forall x y, valid (tex x y)) ->
  (forall x y, in_range ushort (dither_matrix ditherTex x y)) ->
  let '(i0, i1, i2, i3) :=
    Subsample_Bilinear_reads tex dst_width dst_height src_width src_height
      xo yo in
  components
    (Subsample_Bilinear_value (functor (instantiation n))
       (DITHER (instantiation n)) tex dst_width dst_height
       src_width src_height ditherTex xo yo)
  = map4 (exact_mean (SHIFT (instantiation n)) (kernel_bias (snd n)))
      (components (input_sample n i0)) (components (input_sample n i1))
      (components (input_sample n i2)) (components (input_sample n i3)).
Proof.
  intros Hv Hm. destruct n as [d s]. cbn [snd].
  destruct d.
  - change (instantiation (d8_8, s)) with (VARIANTSET2 uchar uchar (8 - 8) s).
    change (input_sample (d8_8, s)) with (texel_part uchar uchar (8 - 8) s).
    rewrite SHIFT_VARIANTSET2.
    exact (value_exact uchar uchar (8 - 8) s tex dst_width dst_height
             src_width src_height ditherTex xo yo
             ltac:(unfold sizeof_base; lia) ltac:(unfold sizeof_base; lia)
             eq_refl Hv Hm).
  - change (instantiation (d16_16, s)) with (VARIANTSET2 ushort ushort (16 - 16) s).
    change (input_sample (d16_16, s)) with (texel_part ushort ushort (16 - 16) s).
    rewrite SHIFT_VARIANTSET2.
    exact (value_exact ushort ushort (16 - 16) s tex dst_width dst_height
             src_width src_height ditherTex xo yo
             ltac:(unfold sizeof_base; lia) ltac:(unfold sizeof_base; lia)
             eq_refl Hv Hm).
  - change (instantiation (d8_16, s)) with (VARIANTSET2 uchar ushort (8 - 16) s).
    change (input_sample (d8_16, s)) with (texel_part uchar ushort (8 - 16) s).
    rewrite SHIFT_VARIANTSET2.
    exact (value_exact uchar ushort (8 - 16) s tex dst_width dst_height
             src_width src_height ditherTex xo yo
             ltac:(unfold sizeof_base; lia) ltac:(unfold sizeof_base; lia)
             eq_refl Hv Hm).
  - change (instantiation (d16_8, s)) with (VARIANTSET2 ushort uchar (16 - 8) s).
    change (input_sample (d16_8, s)) with (texel_part ushort uchar (16 - 8) s).
    rewrite SHIFT_VARIANTSET2.
    exact (value_exact ushort uchar (16 - 8) s tex dst_width dst_height
             src_width src_height ditherTex xo yo
             ltac:(unfold sizeof_base; lia) ltac:(unfold sizeof_base; lia)
             eq_refl Hv Hm).
Qed.

Lemma kernels_in_exact_arithmetic_witness :
  in_range ushort 40000
  /\ (let '(i0, i1, i2, i3) :=
        Subsample_Bilinear_reads (fun _ _ => 65535) 4 2 8 4 3 1 in
      components
        (Subsample_Bilinear_value (functor (instantiation (d16_8, sfx_)))
           (DITHER (instantiation (d16_8, sfx_))) (fun _ _ => 65535)
           4 2 8 4
           {| dither_matrix := fun _ _ => 40000; dither_size := 2 |} 3 1)
      = map4 (exact_mean (SHIFT (instantiation (d16_8, sfx_)))
                (kernel_bias sfx_))
          (components (input_sample (d16_8, sfx_) i0))
          (components (input_sample (d16_8, sfx_) i1))
          (components (input_sample (d16_8, sfx_) i2))
          (components (input_sample (d16_8, sfx_) i3))).
Proof.
  assert (Hd : in_range ushort 40000)
    by (unfold in_range, bits, sizeof_base; lia).
  assert (Hv : @valid (Scalar ushort) 65535).
  { constructor; [| constructor].
    unfold in_range, bits, base, sizeof_base. lia. }
  split; [exact Hd |].
  exact (kernels_in_exact_arithmetic (d16_8, sfx_) (fun _ _ => 65535)
           4 2 8 4 {| dither_matrix := fun _ _ => 40000; dither_size := 2 |}
           3 1 (fun _ _ => Hv) (fun _ _ => Hd)).
Defined.

Lemma map4_diag {A B : Type} (f : A -> A -> A -> A -> B) (l : list A) :
  map4 f l l l l = map (fun c => f c c c c) l.
Proof. induction l as [| a l IH]; [reflexivity |]. cbn. now rewrite IH. Qed.

Lemma exact_mean_uniform (n : kernel_name) (c : Z) :
  exact_mean (SHIFT (instantiation n)) (kernel_bias (snd n)) c c c c
  = uniform_out n c.
Proof.
  rewrite SHIFT_instantiation. unfold exact_mean, uniform_out. cbv zeta.
  assert (Hb : kernel_bias (snd n) = 0 \/ kernel_bias (snd n) = 2)
    by (destruct (snd n); cbn; auto).
  destruct (fst n).
  - change (0 >? -2) with true. cbv iota. change (2 ^ (2 + 0)) with 4.
    symmetry. apply Z.div_unique with (kernel_bias (snd n)); lia.
  - change (0 >? -2) with true. cbv iota. change (2 ^ (2 + 0)) with 4.
    symmetry. apply Z.div_unique with (kernel_bias (snd n)); lia.
  - change (-8 >? -2) with false. cbv iota. change (2 ^ (- -8 - 2)) with 64.
    lia.
  - change (8 >? -2) with true. cbv iota. change (2 ^ (2 + 8)) with 1024.
    pose proof (Z.div_mod c 256 ltac:(lia)).
    pose proof (Z.mod_pos_bound c 256 ltac:(lia)).
    symmetry.
    apply Z.div_unique with (4 * (c mod 256) + kernel_bias (snd n)); lia.
Qed.

(** X5. A plane of one colour stays a plane of one colour, whatever the
    two sizes are: where every texel read is [v], every kernel stores at
    every pixel the same value, which is [v] itself when the depth is
    kept, the high byte [v / 256] from 16 to 8 bits, and [256 * v] (first
    kernel of the set) or [256 * v + 128] (the others) from 8 to 16
    bits. *)
Theorem uniform_plane (n : kernel_name) (v : val (SRC (instantiation n)))
    (dst_width dst_height src_width src_height : Z)
    (ditherTex : dither_texture) (xo yo : Z) :
  valid v ->
  (forall x y, in_range ushort (dither_matrix ditherTex x y)) ->
  components
    (Subsample_Bilinear_value (functor (instantiation n))
       (DITHER (instantiation n)) (fun _ _ => v) dst_width dst_height
       src_width src_height ditherTex xo yo)
  = map (uniform_out n) (components (input_sample n v)).
Proof.
  intros Hv Hm.
  assert (H : let '(i0, i1, i2, i3) :=
                Subsample_Bilinear_reads (fun _ _ => v) dst_width dst_height
                  src_width src_height xo yo in
              components
                (Subsample_Bilinear_value (functor (instantiation n))
                   (DITHER (instantiation n)) (fun _ _ => v) dst_width
                   dst_height src_width src_height ditherTex xo yo)
              = map4 (exact_mean (SHIFT (instantiation n))
                        (kernel_bias (snd n)))
                  (components (input_sample n i0))
                  (components (input_sample n i1))
                  (components (input_sample n i2))
                  (components (input_sample n i3))).
  { destruct n as [d s]. cbn [snd].
    destruct d.
    - change (instantiation (d8_8, s)) with (VARIANTSET2 uchar uchar (8 - 8) s).
      change (input_sample (d8_8, s)) with (texel_part uchar uchar (8 - 8) s).
      rewrite SHIFT_VARIANTSET2.
      exact (value_exact uchar uchar (8 - 8) s (fun _ _ => v) dst_width
               dst_height src_width src_height ditherTex xo yo
               ltac:(unfold sizeof_base; lia) ltac:(unfold sizeof_base; lia)
               eq_refl (fun _ _ => Hv) Hm).
    - change (instantiation (d16_16, s)) with (VARIANTSET2 ushort ushort (16 - 16) s).
      change (input_sample (d16_16, s)) with (texel_part ushort ushort (16 - 16) s).
      rewrite SHIFT_VARIANTSET2.
      exact (value_exact ushort ushort (16 - 16) s (fun _ _ => v) dst_width
               dst_height src_width src_height ditherTex xo yo
               ltac:(unfold sizeof_base; lia) ltac:(unfold sizeof_base; lia)
               eq_refl (fun _ _ => Hv) Hm).
    - change (instantiation (d8_16, s)) with (VARIANTSET2 uchar ushort (8 - 16) s).
      change (input_sample (d8_16, s)) with (texel_part uchar ushort (8 - 16) s).
      rewrite SHIFT_VARIANTSET2.
      exact (value_exact uchar ushort (8 - 16) s (fun _ _ => v) dst_width
               dst_height src_width src_height ditherTex xo yo
               ltac:(unfold sizeof_base; lia) ltac:(unfold sizeof_base; lia)
               eq_refl (fun _ _ => Hv) Hm).
    - change (instantiation (d16_8, s)) with (VARIANTSET2 ushort uchar (16 - 8) s).
      change (input_sample (d16_8, s)) with (texel_part ushort uchar (16 - 8) s).
      rewrite SHIFT_VARIANTSET2.
      exact (value_exact ushort uchar (16 - 8) s (fun _ _ => v) dst_width
               dst_height src_width src_height ditherTex xo yo
               ltac:(unfold sizeof_base; lia) ltac:(unfold sizeof_base; lia)
               eq_refl (fun _ _ => Hv) Hm). }
  unfold Subsample_Bilinear_reads, tex2D in H. cbv zeta in H.
  rewrite H, map4_diag. apply map_ext. intros c. apply exact_mean_uniform.
Qed.

Lemma uniform_plane_witness :
  in_range ushort 40000
  /\ components
       (Subsample_Bilinear_value (functor (instantiation (d8_16, sfx_c)))
          (DITHER (instantiation (d8_16, sfx_c))) (fun _ _ => 200)
          1280 720 1920 1080
          {| dither_matrix := fun _ _ => 40000; dither_size := 2 |} 3 1)
     = [51328].
Proof.
  assert (Hd : in_range ushort 40000)
    by (unfold in_range, bits, sizeof_base; lia).
  assert (Hv : @valid (Scalar uchar) 200).
  { constructor; [| constructor].
    unfold in_range, bits, base, sizeof_base. lia. }
  split; [exact Hd |].
  exact (uniform_plane (d8_16, sfx_c) 200 1280 720 1920 1080
           {| dither_matrix := fun _ _ => 40000; dither_size := 2 |}
           3 1 Hv (fun _ _ => Hd)).
Defined.

(** X6. The two kernels that split an interleaved plane store the first
    and the second component of what the kernel for the interleaved
    plane stores at the same pixel. *)
Theorem split_kernels_store_components (SRCb DSTb : basetype)
    (SRCSIZE DSTSIZE : Z) (tex : texture vec2)
    (dst_width dst_height src_width src_height : Z)
    (ditherTex : dither_texture) (xo yo : Z) :
  let V := Device.VARIANTSET SRCb DSTb SRCSIZE DSTSIZE in
  let value := fun s : suffix =>
    Subsample_Bilinear_value (functor (V s)) (DITHER (V s)) in
  value sfx_2_u tex dst_width dst_height src_width src_height ditherTex xo yo
  = x2 (value sfx_2 tex dst_width dst_height src_width src_height
          ditherTex xo yo)
  /\ value sfx_2_v tex dst_width dst_height src_width src_height
       ditherTex xo yo
     = y2 (value sfx_2 tex dst_width dst_height src_width src_height
             ditherTex xo yo).
Proof.
  intros V value. unfold value, Subsample_Bilinear_value.
  destruct (Subsample_Bilinear_reads _ _ _ _ _ _ _) as [[[i0 i1] i2] i3].
  unfold V, Device.VARIANTSET.
  change (DITHER (VARIANTSET2 SRCb DSTb (SRCSIZE - DSTSIZE) sfx_2_u)) with 0.
  change (DITHER (VARIANTSET2 SRCb DSTb (SRCSIZE - DSTSIZE) sfx_2_v)) with 0.
  change (DITHER (VARIANTSET2 SRCb DSTb (SRCSIZE - DSTSIZE) sfx_2)) with 0.
  set (d := ditherVal 0 ditherTex xo yo).
  set (sh := SRCSIZE - DSTSIZE).
  change (functor (VARIANTSET2 SRCb DSTb sh sfx_2_u) i0 i1 i2 i3 d)
    with (add_conv_shift1 (Scalar unsigned) (Scalar DSTb) sh 0
            (x2 i0) (x2 i1) (x2 i2) (x2 i3) d).
  change (functor (VARIANTSET2 SRCb DSTb sh sfx_2_v) i0 i1 i2 i3 d)
    with (add_conv_shift1 (Scalar unsigned) (Scalar DSTb) sh 0
            (y2 i0) (y2 i1) (y2 i2) (y2 i3) d).
  change (functor (VARIANTSET2 SRCb DSTb sh sfx_2) i0 i1 i2 i3 d)
    with (add_conv_shift2 (Vec2 SRCb) (Vec2 DSTb) sh 0 i0 i1 i2 i3 d).
  unfold add_conv_shift1, add_conv_shift2. cbv zeta. cbn [base].
  destruct (sh >? -2); split; reflexivity.
Qed.

(** ** The macros of the host code *)

Lemma ALIGN_UP_pow2 (a k : Z) :
  0 <= k -> ALIGN_UP a (2 ^ k) = 2 ^ k * ((a + 2 ^ k - 1) / 2 ^ k).
Proof.
  intros Hk. unfold ALIGN_UP. rewrite <- Z.ldiff_land.
  replace (2 ^ k - 1) with (Z.ones k) by (rewrite Z.ones_equiv; lia).
  rewrite Z.ldiff_ones_r by lia.
  rewrite Z.shiftr_div_pow2, Z.shiftl_mul_pow2 by lia. lia.
Qed.

(** X11. For a power of two [b] and an [a] that is not negative,
    [ALIGN_UP(a, b)] is the least multiple of [b] that is not below [a],
    and it is [DIV_UP(a, b) * b]; [BITS(n)], the depth that selects the
    kernels, is [ALIGN_UP(n, 8)], which is 8 times the [DEPTH_BYTES(n)]
    that sizes the texels. *)
Theorem ALIGN_UP_least_multiple (a k : Z) :
  0 <= k -> 0 <= a -> a + 2 ^ k <= 2 ^ 31 ->
  let b := 2 ^ k in
  ALIGN_UP a b = DIV_UP a b * b
  /\ (a <= ALIGN_UP a b < a + b /\ ALIGN_UP a b mod b = 0)
  /\ (forall m, a <= m -> m mod b = 0 -> ALIGN_UP a b <= m)
  /\ (BITS a = ALIGN_UP a 8 /\ BITS a = 8 * DEPTH_BYTES a).
Proof.
  intros Hk Ha _ b.
  assert (Hb : 0 < b) by (apply Z.pow_pos_nonneg; lia).
  assert (E : ALIGN_UP a b = DIV_UP a b * b)
    by (unfold b, DIV_UP; rewrite ALIGN_UP_pow2 by lia; lia).
  pose proof (DIV_UP_ceiling a b Hb) as Hc.
  split; [exact E |]. rewrite E. split; [| split].
  - split; [lia |]. apply Z.mod_mul. lia.
  - intros m Hm Hmod.
    pose proof (Z.div_mod m b ltac:(lia)) as Dm. rewrite Hmod in Dm.
    assert (DIV_UP a b <= m / b) by nia. nia.
  - split.
    + change 8 with (2 ^ 3). rewrite ALIGN_UP_pow2 by lia.
      change (2 ^ 3) with 8. replace (a + 8 - 1) with (a + 7) by lia.
      apply BITS_div.
    + rewrite BITS_div. reflexivity.
Qed.

Lemma ALIGN_UP_least_multiple_witness :
  0 <= 5 /\ ALIGN_UP 1081 (2 ^ 5) = DIV_UP 1081 (2 ^ 5) * 2 ^ 5.
Proof.
  assert (Hk : 0 <= 5) by lia.
  split; [exact Hk |].
  exact (proj1 (ALIGN_UP_least_multiple 1081 5 Hk ltac:(lia) ltac:(lia))).
Defined.

(** ** The kernels that [cudascale_config_props] selects *)

Lemma depths_of_BITS (din dout : Z) :
  1 <= din <= 16 -> 1 <= dout <= 16 ->
  (BITS din =? 8) = (din <=? 8) /\ (BITS din =? 16) = negb (din <=? 8)
  /\ (BITS dout =? 8) = (dout <=? 8) /\ (BITS dout =? 16) = negb (dout <=? 8).
Proof.
  intros Hi Ho.
  pose proof (BITS_8 din). pose proof (BITS_16 din).
  pose proof (BITS_8 dout). pose proof (BITS_16 dout).
  repeat split;
    repeat match goal with
           | |- context [?a =? ?b] => destruct (Z.eqb_spec a b)
           | |- context [?a <=? ?b] => destruct (Z.leb_spec a b)
           end; cbn [negb]; try reflexivity; lia.
Qed.

Lemma VARIANTSET_fails (d : depths) (s : CUDAScaleContext) :
  ~ (2 <= in_planes s <= 3 /\ 2 <= out_planes s <= 3) ->
  Host.VARIANTSET d s = Error AVERROR_BUG.
Proof.
  intros Hn. unfold Host.VARIANTSET. cbn [in_planes out_planes].
  destruct (Z.eqb_spec (in_planes s) 3), (Z.eqb_spec (out_planes s) 3),
           (Z.eqb_spec (in_planes s) 2), (Z.eqb_spec (out_planes s) 2);
    cbn [andb]; try reflexivity; exfalso; apply Hn; lia.
Qed.

Lemma select_kernels_fails (s : CUDAScaleContext) :
  ~ (1 <= depth (comp_at (in_desc s) 0) <= 16
     /\ 1 <= depth (comp_at (out_desc s) 0) <= 16
     /\ 2 <= in_planes s <= 3 /\ 2 <= out_planes s <= 3) ->
  select_kernels s = Error AVERROR_BUG.
Proof.
  intros Hn. unfold select_kernels. cbv zeta.
  pose proof (BITS_8 (depth (comp_at (in_desc s) 0))) as I8.
  pose proof (BITS_16 (depth (comp_at (in_desc s) 0))) as I16.
  pose proof (BITS_8 (depth (comp_at (out_desc s) 0))) as O8.
  pose proof (BITS_16 (depth (comp_at (out_desc s) 0))) as O16.
  assert (Hv : forall d,
             1 <= depth (comp_at (in_desc s) 0) <= 16 ->
             1 <= depth (comp_at (out_desc s) 0) <= 16 ->
             Host.VARIANTSET d s = Error AVERROR_BUG).
  { intros d Hi Ho. apply VARIANTSET_fails. intros [Hip Hop].
    apply Hn. repeat split; lia. }
  destruct (Z.eqb_spec (BITS (depth (comp_at (in_desc s) 0))) 8),
           (Z.eqb_spec (BITS (depth (comp_at (out_desc s) 0))) 8),
           (Z.eqb_spec (BITS (depth (comp_at (in_desc s) 0))) 16),
           (Z.eqb_spec (BITS (depth (comp_at (out_desc s) 0))) 16);
    cbn [andb]; try reflexivity; apply Hv; lia.
Qed.

Lemma select_kernels_succeeds (s : CUDAScaleContext) :
  1 <= depth (comp_at (in_desc s) 0) <= 16 ->
  1 <= depth (comp_at (out_desc s) 0) <= 16 ->
  2 <= in_planes s <= 3 -> 2 <= out_planes s <= 3 ->
  let d := depths_of (depth (comp_at (in_desc s) 0))
                     (depth (comp_at (out_desc s) 0)) in
  let x := chroma_suffixes (in_planes s) (out_planes s) in
  select_kernels s
  = Ok {| planes_in := planes_in s; planes_out := planes_out s;
          cu_func_luma := Some (d, sfx_);
          cu_func_chroma_u := Some (d, fst x);
          cu_func_chroma_v :=
            match snd x with
            | Some v => Some (d, v)
            | None => cu_func_chroma_v s
            end;
          in_desc := in_desc s; out_desc := out_desc s;
          in_planes := in_planes s; out_planes := out_planes s;
          ditherTex := ditherTex s |}.
Proof.
  intros Hi Ho Hip Hop d x. subst d x.
  destruct (depths_of_BITS _ _ Hi Ho) as (E1 & E2 & E3 & E4).
  unfold select_kernels. cbv zeta. rewrite E1, E2, E3, E4.
  unfold depths_of, chroma_suffixes, Host.VARIANTSET.
  cbn [in_planes out_planes cu_func_luma cu_func_chroma_u cu_func_chroma_v
       planes_in planes_out in_desc out_desc ditherTex].
  destruct (Z.leb_spec (depth (comp_at (in_desc s) 0)) 8),
           (Z.leb_spec (depth (comp_at (out_desc s) 0)) 8);
    cbn [andb negb];
    destruct (Z.eqb_spec (in_planes s) 3), (Z.eqb_spec (out_planes s) 3);
    destruct (Z.eqb_spec (in_planes s) 2), (Z.eqb_spec (out_planes s) 2);
    cbn [andb fst snd]; try reflexivity; lia.
Qed.

(** X8. [cudascale_config_props] finds its kernels exactly when the two
    depths of the first component are between 1 and 16 bits and the two
    plane counts are 2 or 3; in every other case it fails with
    [AVERROR_BUG].  The set of kernels follows the depths rounded up to 8
    or 16 bits, the luma kernel is the first of the set, and the chroma
    kernels follow the plane counts; with two input and two output
    planes [s->cu_func_chroma_v] is left as it was. *)
Theorem select_kernels_selects (s : CUDAScaleContext) :
  let din := depth (comp_at (in_desc s) 0) in
  let dout := depth (comp_at (out_desc s) 0) in
  let supported :=
    1 <= din <= 16 /\ 1 <= dout <= 16
    /\ 2 <= in_planes s <= 3 /\ 2 <= out_planes s <= 3 in
  (~ supported -> select_kernels s = Error AVERROR_BUG)
  /\ (supported ->
      exists s', select_kernels s = Ok s'
        /\ cu_func_luma s' = Some (depths_of din dout, sfx_)
        /\ cu_func_chroma_u s'
           = Some (depths_of din dout,
                   fst (chroma_suffixes (in_planes s) (out_planes s)))
        /\ cu_func_chroma_v s'
           = match snd (chroma_suffixes (in_planes s) (out_planes s)) with
             | Some v => Some (depths_of din dout, v)
             | None => cu_func_chroma_v s
             end
        /\ (in_planes s' = in_planes s /\ out_planes s' = out_planes s
            /\ in_desc s' = in_desc s /\ out_desc s' = out_desc s
            /\ ditherTex s' = ditherTex s)).
Proof.
  intros din dout supported. split.
  - apply select_kernels_fails.
  - intros (Hi & Ho & Hip & Hop).
    eexists. split; [now apply select_kernels_succeeds |].
    cbn. repeat split.
Qed.

(** ** The textures of the launches *)

Lemma DEPTH_BYTES_BITS (n : Z) :
  (BITS n = 8 -> DEPTH_BYTES n = 1) /\ (BITS n = 16 -> DEPTH_BYTES n = 2).
Proof. rewrite BITS_div. unfold DEPTH_BYTES. lia. Qed.

Lemma depths_of_SRC (din dout : Z) (x : suffix) :
  sizeof_base (base (SRC (instantiation (depths_of din dout, x))))
  = (if din <=? 8 then 1 else 2)
  /\ nchannels (SRC (instantiation (depths_of din dout, x)))
     = match x with sfx_2 | sfx_2_u | sfx_2_v => 2 | sfx_4 => 4 | _ => 1 end.
Proof.
  unfold depths_of.
  destruct (din <=? 8), (dout <=? 8), x; split; reflexivity.
Qed.

(** X9. The texture that [call_resize_kernel] creates for a launch has
    the texel type of the kernel it launches: as many channels as the
    source type of the kernel has components, of as many bytes as its
    samples have.  This holds for the two or three launches of a frame
    after [cudascale_config_props] has selected the kernels in a context
    that held no third kernel before, for a format whose chroma
    components are as deep as its first component. *)
Theorem texture_matches_kernel (s : CUDAScaleContext) (out in_ : AVFrame) :
  1 <= depth (comp_at (in_desc s) 0) <= 16 ->
  1 <= depth (comp_at (out_desc s) 0) <= 16 ->
  2 <= in_planes s <= 3 -> 2 <= out_planes s <= 3 ->
  cu_func_chroma_v s = None ->
  BITS (depth (comp_at (in_desc s) 1)) = BITS (depth (comp_at (in_desc s) 0)) ->
  BITS (depth (comp_at (in_desc s) 2)) = BITS (depth (comp_at (in_desc s) 0)) ->
  exists s', select_kernels s = Ok s'
    /\ length (scalecuda_resize s' out in_)
       = (if (in_planes s =? 2) && (out_planes s =? 2) then 2%nat else 3%nat)
    /\ Forall (fun l =>
         exists n, l_func l = Some n
           /\ l_channels l = nchannels (SRC (instantiation n))
           /\ l_pixel_size l = sizeof_base (base (SRC (instantiation n))))
         (scalecuda_resize s' out in_).
Proof.
  intros Hi Ho Hip Hop Hv H1 H2.
  eexists. split; [now apply select_kernels_succeeds |].
  set (din := depth (comp_at (in_desc s) 0)) in *.
  set (dout := depth (comp_at (out_desc s) 0)) in *.
  assert (Hpx : forall c, BITS c = BITS din ->
                          DEPTH_BYTES c = if din <=? 8 then 1 else 2).
  { intros c Hc. pose proof (DEPTH_BYTES_BITS c) as [P8 P16].
    pose proof (BITS_8 din). pose proof (BITS_16 din).
    destruct (Z.leb_spec din 8); [apply P8 | apply P16]; lia. }
  unfold scalecuda_resize, chroma_launches, call_resize_kernel,
    chroma_suffixes.
  cbn [cu_func_luma cu_func_chroma_u cu_func_chroma_v in_planes out_planes
       in_desc out_desc ditherTex].
  rewrite Hv.
  destruct (Z.eqb_spec (in_planes s) 3), (Z.eqb_spec (out_planes s) 3);
    destruct (Z.eqb_spec (in_planes s) 2), (Z.eqb_spec (out_planes s) 2);
    try lia; cbn [andb fst snd length].
  all: (split; [reflexivity |]).
  all: repeat (apply Forall_cons; split; [| try apply Forall_nil]).
  all: try exact I.
  all: eexists; (split; [reflexivity |]); cbn [l_channels l_pixel_size].
  all: rewrite (proj1 (depths_of_SRC din dout _)),
               (proj2 (depths_of_SRC din dout _)).
  all: split; [reflexivity | apply Hpx; (reflexivity || assumption)].
Qed.

Lemma texture_matches_kernel_witness :
  (1 <= depth (comp_at nv12 0) <= 16 /\ 2 <= 2 <= 3)
  /\ exists s',
       select_kernels
         {| planes_in := []; planes_out := [];
            cu_func_luma := None; cu_func_chroma_u := None;
            cu_func_chroma_v := None;
            in_desc := nv12; out_desc := yuv420p;
            in_planes := 2; out_planes := 3; ditherTex := None |}
       = Ok s'
       /\ length (scalecuda_resize s' (frame_of 1280 720 1280)
                    (frame_of 1920 1080 1920)) = 3%nat
       /\ Forall (fun l =>
            exists n, l_func l = Some n
              /\ l_channels l = nchannels (SRC (instantiation n))
              /\ l_pixel_size l = sizeof_base (base (SRC (instantiation n))))
            (scalecuda_resize s' (frame_of 1280 720 1280)
               (frame_of 1920 1080 1920)).
Proof.
  assert (Hi : 1 <= depth (comp_at nv12 0) <= 16)
    by (vm_compute; split; discriminate).
  assert (Ho : 1 <= depth (comp_at yuv420p 0) <= 16)
    by (vm_compute; split; discriminate).
  assert (Hip : 2 <= 2 <= 3) by lia.
  assert (Hop : 2 <= 3 <= 3) by lia.
  split; [split; assumption |].
  exact (texture_matches_kernel
           {| planes_in := []; planes_out := [];
              cu_func_luma := None; cu_func_chroma_u := None;
              cu_func_chroma_v := None;
              in_desc := nv12; out_desc := yuv420p;
              in_planes := 2; out_planes := 3; ditherTex := None |}
           (frame_of 1280 720 1280) (frame_of 1920 1080 1920)
           Hi Ho Hip Hop eq_refl eq_refl eq_refl).
Defined.

(** ** The number of planes *)

Lemma select_kernels_planes (s s' : CUDAScaleContext) :
  select_kernels s = Ok s' ->
  in_planes s' = in_planes s /\ out_planes s' = out_planes s.
Proof.
  unfold select_kernels, Host.VARIANTSET.
  cbn [in_planes out_planes cu_func_luma cu_func_chroma_v planes_in
       planes_out in_desc out_desc ditherTex].
  repeat match goal with
         | |- context [if ?c then _ else _] => destruct c
         end;
    intros [= <-]; split; reflexivity.
Qed.

Lemma count_planes_fold (desc : AVPixFmtDescriptor) (l : list Z) (p : Z) :
  let r := fold_left (fun acc i => FFMAX acc (plane (comp_at desc i) + 1))
                     l p in
  p <= r
  /\ (forall i, i ∈ l -> plane (comp_at desc i) + 1 <= r)
  /\ (r = p \/ exists i, i ∈ l /\ r = plane (comp_at desc i) + 1).
Proof.
  revert p. induction l as [| a l IH]; intros p; cbn [fold_left].
  - split; [lia |]. split; [| now left].
    intros i Hi. now apply elem_of_nil in Hi.
  - specialize (IH (FFMAX p (plane (comp_at desc a) + 1))).
    cbv zeta in IH. destruct IH as (I1 & I2 & I3).
    assert (Hf : p <= FFMAX p (plane (comp_at desc a) + 1)
                 /\ plane (comp_at desc a) + 1
                    <= FFMAX p (plane (comp_at desc a) + 1)
                 /\ (FFMAX p (plane (comp_at desc a) + 1) = p
                     \/ FFMAX p (plane (comp_at desc a) + 1)
                        = plane (comp_at desc a) + 1)).
    { unfold FFMAX.
      destruct (Z.gtb_spec p (plane (comp_at desc a) + 1)); lia. }
    destruct Hf as (F1 & F2 & F3).
    split; [lia |]. split.
    + intros i Hi. apply elem_of_cons in Hi.
      destruct Hi as [-> | Hi]; [lia | now apply I2].
    + destruct I3 as [E | (i & Hi & E)].
      * destruct F3 as [F | F]; [left; lia |].
        right. exists a. split; [now left | lia].
      * right. exists i. split; [now right | exact E].
Qed.

(** X10. The loop that counts the planes of a format leaves the largest
    of the count it started with and the plane numbers, plus one, of the
    components it visited.  The count is never reset: after
    [cudascale_config_props] the two plane counts of the context are not
    below what they were before. *)
Theorem count_planes_max (n : Z) (desc : AVPixFmtDescriptor) (planes : Z) :
  let r := count_planes n desc planes in
  (planes <= r
   /\ (forall i, 0 <= i < n -> plane (comp_at desc i) + 1 <= r)
   /\ (r = planes
       \/ exists i, 0 <= i < n /\ r = plane (comp_at desc i) + 1))
  /\ (forall created s s',
        cudascale_config_props created s = Ok s' ->
        in_planes s <= in_planes s' /\ out_planes s <= out_planes s').
Proof.
  unfold count_planes. cbv zeta. split.
  - destruct (count_planes_fold desc (seqZ 0 n) planes) as (G1 & G2 & G3).
    split; [exact G1 |]. split.
    + intros i Hi. apply G2. apply elem_of_seqZ. lia.
    + destruct G3 as [E | (i & Hi & E)]; [now left |].
      right. exists i. split; [| exact E]. apply elem_of_seqZ in Hi. lia.
  - intros created s s'. unfold cudascale_config_props.
    set (s0 := {| planes_in := planes_in s |}).
    destruct (select_kernels s0) as [s1 | e] eqn:E; [| discriminate].
    apply select_kernels_planes in E. destruct E as [E1 E2].
    assert (H0 : in_planes s <= in_planes s0 /\ out_planes s <= out_planes s0).
    { unfold s0, count_planes. cbn [in_planes out_planes].
      split; apply count_planes_fold. }
    destruct (wants_dither s1).
    + unfold cudascale_setup_dither. destruct created; [| discriminate].
      intros [= <-]. cbn [in_planes out_planes]. lia.
    + intros [= <-]. lia.
Qed.

(** ** Interleaved planes *)

(** X7. A launch of a kernel with [pitch = 2] (the [_p2] kernels, which
    write one component of an interleaved plane) stores the value of the
    pixel [(x, y)] at element [2 * x] of row [y] and leaves the element
    after it, which belongs to the other component, as it was. *)
Theorem p2_kernel_interleaves {S D : Type}
    (sizeof_DST : Z) (conv : S -> S -> S -> S -> Z -> D) (dither : Z)
    (tex : texture S) (dst : gmap Z D)
    (dst_width dst_height dst_pitch src_width src_height : Z)
    (ditherTex : dither_texture) (x y : Z) :
  dst_width <= 2 ^ 30 - 32 -> dst_height <= 2 ^ 31 - 16 ->
  0 <= dst_pitch < 2 ^ 31 -> 0 < sizeof_DST ->
  2 * dst_width <= dst_pitch / sizeof_DST ->
  0 <= x < dst_width -> 0 <= y < dst_height ->
  let stride := dst_pitch / sizeof_DST in
  let launched :=
    cuLaunchKernel
      (fun m => Subsample_Bilinear sizeof_DST conv 2 dither tex m
                  dst_width dst_height dst_pitch src_width src_height
                  ditherTex)
      (DIV_UP dst_width BLOCKX, DIV_UP dst_height BLOCKY) (BLOCKX, BLOCKY)
      dst in
  launched !! (y * stride + 2 * x)
  = Some (Subsample_Bilinear_value conv dither tex dst_width dst_height
            src_width src_height ditherTex x y)
  /\ launched !! (y * stride + 2 * x + 1) = dst !! (y * stride + 2 * x + 1).
Proof.
  intros Hw Hh Hdp Hsz Hfit Hx Hy stride launched.
  assert (Hw' : dst_width <= 2 ^ 31 - 32) by lia.
  split.
  - destruct (thread_of_pixel dst_width dst_height x y Hw' Hh Hx Hy)
      as (Hin & Ex & Ey).
    assert (Ei : dst_index sizeof_DST 2 dst_pitch x y = y * stride + 2 * x)
      by (unfold stride; rewrite dst_index_exact by lia; lia).
    unfold launched, cuLaunchKernel. apply run_writes.
    + eexists. split; [exact Hin |]. cbn [fst snd]. rewrite Ex, Ey.
      repeat split; lia.
    + intros bt Hbt Hbx Hby Hj. rewrite <- Ei in Hj.
      rewrite <- Ex, <- Ey in Hj.
      destruct (same_index_same_pixel sizeof_DST 2 dst_width dst_height
                  dst_pitch Hw' Hh Hdp Hsz ltac:(lia) ltac:(lia) ltac:(lia)
                  _ _ Hin Hbt ltac:(cbn [fst snd]; lia) Hbx Hj) as [E1 E2].
      cbn [fst snd] in E1, E2. rewrite <- E1, <- E2, Ex, Ey. reflexivity.
  - unfold launched. apply launch_frame; [exact Hw' | exact Hh |].
    intros xo yo Hxo Hyo.
    rewrite dst_index_exact by lia. fold stride.
    intros E.
    assert (0 <= 2 * x + 1 < stride) by (unfold stride; lia).
    assert (0 <= xo * 2 < stride) by (unfold stride; lia).
    assert (y = yo) by nia. subst yo. lia.
Qed.

Lemma p2_kernel_interleaves_witness :
  (0 <= 16 < 2 ^ 31 /\ 2 * 4 <= 16 / 1)
  /\ cuLaunchKernel
       (fun m => Subsample_Bilinear 1 (add_conv_shift1 (Scalar uchar)
                   (Scalar uchar) 0 0) 2 0 (fun _ _ => 10) m 4 2 16 4 2
                   {| dither_matrix := fun _ _ => 0; dither_size := 2 |})
       (DIV_UP 4 BLOCKX, DIV_UP 2 BLOCKY) (BLOCKX, BLOCKY) ∅
     !! (1 * (16 / 1) + 2 * 3 + 1)
     = (∅ : gmap Z Z) !! (1 * (16 / 1) + 2 * 3 + 1).
Proof.
  assert (Hp : 0 <= 16 < 2 ^ 31) by lia.
  assert (Hf : 2 * 4 <= 16 / 1) by (intros H; discriminate H).
  split; [split; assumption |].
  exact (proj2 (p2_kernel_interleaves 1 (add_conv_shift1 (Scalar uchar)
                  (Scalar uchar) 0 0) 0 (fun _ _ => 10) ∅ 4 2 16 4 2
                  {| dither_matrix := fun _ _ => 0; dither_size := 2 |} 3 1
                  ltac:(lia) ltac:(lia) Hp ltac:(lia) Hf
                  ltac:(lia) ltac:(lia))).
Defined.

(** ** The outcomes of [cudascale_config_props] *)


(** ** Scale ratios of 3 and more *)

Lemma weight_ord_saturates (v : Z) :
  3 * 2 ^ U <= v -> weight_ord v = 2 ^ U.
Proof.
  intros Hv. unfold weight_ord.
  pose proof (pow2_pos U ltac:(unfold U; lia)) as PU.
  assert (E1 : cap (1 * 2 ^ (U + 1)) = 2 ^ (U + 1)).
  { rewrite cap_fix; [lia | lia | unfold U; lia |].
    rewrite top_eq. unfold U. apply Z.lt_le_incl. reflexivity. }
  assert (E2 : cap (1 * 2 ^ U) = 2 ^ U).
  { rewrite cap_fix; [lia | lia | unfold U; lia |].
    rewrite top_eq. unfold U. apply Z.lt_le_incl. reflexivity. }
  assert (P1 : 2 ^ (U + 1) = 2 * 2 ^ U)
    by (rewrite Z.pow_add_r by (unfold U; lia); lia).
  pose proof (cap_mono (1 * 2 ^ (U + 1)) (v - 2 ^ U) ltac:(lia)) as M1.
  rewrite E1 in M1.
  assert (H2 : 2 ^ U <= cap (v - 2 ^ U) / 2)
    by (apply Z.div_le_lower_bound; lia).
  pose proof (cap_mono (1 * 2 ^ U) (cap (v - 2 ^ U) / 2) ltac:(lia)) as M2.
  rewrite E2 in M2. lia.
Qed.

(** X14. From a scale ratio of 3 on, the filter does not widen any more:
    the weight is exactly 1 and the displacement is [2.0f / 3.0f],
    whatever the ratio. *)
Theorem weight_saturates (r : float) :
  valid_binary prec emax r = true -> fle (of_int 3) r ->
  weight r = one /\ displacement (weight r) = two_thirds.
Proof.
  intros Hv Hle.
  assert (O3 : ord (of_int 3) = 3 * 2 ^ U) by reflexivity.
  destruct (nonneg_of_ge (of_int 3) r eq_refl
              ltac:(rewrite O3; pose proof (pow2_pos U ltac:(unfold U; lia)); lia)
              Hv Hle) as [Hn Ho].
  rewrite O3 in Ho.
  pose proof (pow2_pos U ltac:(unfold U; lia)) as PU.
  destruct (weight_spec r Hn ltac:(rewrite ord_one; lia)) as [Hw Ew].
  rewrite weight_ord_saturates in Ew by exact Ho.
  assert (E : weight r = one)
    by (apply ord_inj; [exact Hw | reflexivity | now rewrite ord_one]).
  split; [exact E |]. rewrite E. reflexivity.
Qed.

Lemma weight_saturates_witness :
  fle (of_int 3) (scale 1920 480)
  /\ weight (scale 1920 480) = one.
Proof.
  assert (Hv : valid_binary prec emax (scale 1920 480) = true) by reflexivity.
  assert (Hle : fle (of_int 3) (scale 1920 480)) by reflexivity.
  split; [exact Hle |].
  exact (proj1 (weight_saturates (scale 1920 480) Hv Hle)).
Defined.

(** ** Scale ratios of at most 1 *)

Lemma binary_round_aux_opp (m e : Z) (l : location) :
  binary_round_aux prec emax true m e l
  = SFopp (binary_round_aux prec emax false m e l).
Proof.
  unfold binary_round_aux.
  destruct (shr_fexp prec emax m e l) as [mrs' e'].
  destruct (shr_fexp prec emax _ e' loc_Exact) as [mrs'' e''].
  destruct (shr_m mrs''); [reflexivity | | reflexivity].
  now destruct (e'' <=? emax - prec).
Qed.

Lemma binary_round_opp (m : positive) (e : Z) :
  binary_round prec emax true m e = SFopp (binary_round prec emax false m e).
Proof.
  unfold binary_round.
  destruct (shl_align m e _) as [mz ez]. apply binary_round_aux_opp.
Qed.

Lemma binary_round_sign (m : positive) (e : Z) (mt : positive) (et : Z) :
  binary_round prec emax false m e <> S754_finite true mt et.
Proof.
  unfold binary_round. destruct (shl_align m e _) as [mz ez].
  unfold binary_round_aux.
  destruct (shr_fexp prec emax (Zpos mz) ez loc_Exact) as [mrs' e'].
  destruct (shr_fexp prec emax _ e' loc_Exact) as [mrs'' e''].
  destruct (shr_m mrs''); [discriminate | | discriminate].
  now destruct (e'' <=? emax - prec).
Qed.

Lemma binary_round_aux_sign (m e : Z) (l : location) :
  binary_round_aux prec emax false m e l <> S754_zero true.
Proof.
  unfold binary_round_aux.
  destruct (shr_fexp prec emax m e l) as [mrs' e'].
  destruct (shr_fexp prec emax _ e' loc_Exact) as [mrs'' e''].
  destruct (shr_m mrs''); [discriminate | | discriminate].
  now destruct (e'' <=? emax - prec).
Qed.

(** The product of two floats that are not negative is not [-0]. *)
Lemma fmul_not_negative_zero (a b : float) :
  nonneg a = true -> nonneg b = true -> fmul a b <> S754_zero true.
Proof.
  intros Ha Hb.
  destruct (nonneg_cases a Ha) as [[-> _] | [[-> _] | (ma & ea & -> & _)]];
  destruct (nonneg_cases b Hb) as [[-> _] | [[-> _] | (mb & eb & -> & _)]];
    try discriminate.
  unfold fmul. cbn [SFmul xorb]. apply binary_round_aux_sign.
Qed.

Lemma fadd_zero_r (x : float) : x <> S754_zero true -> fadd x zero = x.
Proof. destruct x as [[] | [] | | [] m e]; intros H; try reflexivity. now destruct H. Qed.

Lemma fsub_zero_r (x : float) : fsub x zero = x.
Proof. destruct x as [[] | [] | | [] m e]; reflexivity. Qed.

(** A float below 1 is at most [1 - 2^-24]. *)
Lemma below_one (m : positive) (e : Z) :
  valid_binary prec emax (S754_finite false m e) = true ->
  scaled (Zpos m) e < 2 ^ U ->
  scaled (Zpos m) e <= 2 ^ U - 2 ^ (U - 24).
Proof.
  intros Hv Hlt. pose proof (valid_finite m e Hv) as (He & Hm & Hn).
  unfold scaled in *.
  assert (EU : 2 ^ U = 2 ^ 24 * 2 ^ (U - 24)) by reflexivity.
  pose proof (pow2_pos (U - 24) ltac:(unfold U; lia)) as P.
  destruct (Z_le_gt_dec e (-24)) as [Hle | Hgt].
  - assert (2 ^ (e + U) <= 2 ^ (U - 24))
      by (apply Z.pow_le_mono_r; unfold U; lia).
    pose proof (pow2_pos (e + U) ltac:(unfold U; lia)).
    rewrite EU. nia.
  - exfalso. specialize (Hn ltac:(lia)).
    assert (2 ^ (U - 23) <= 2 ^ (e + U))
      by (apply Z.pow_le_mono_r; unfold U; lia).
    assert (EU' : 2 ^ U = 2 ^ 23 * 2 ^ (U - 23)) by reflexivity.
    pose proof (pow2_pos (U - 23) ltac:(unfold U; lia)).
    rewrite EU' in Hlt. nia.
Qed.

(** The weight of a scale ratio that is at most 1 is 0. *)
Lemma weight_below_one (r : float) :
  nonneg r = true -> ord r <= ord one -> weight r = zero.
Proof.
  intros Hr Hle. rewrite ord_one in Hle.
  pose proof (pow2_pos U ltac:(unfold U; lia)) as PU.
  destruct (nonneg_cases r Hr) as [[-> _] | [[-> Ho] | (m & e & -> & Ho)]].
  - reflexivity.
  - rewrite Ho, top_eq in Hle. unfold U in Hle.
    assert (2 ^ 300 < 2 ^ 428) by reflexivity. lia.
  - rewrite ord_finite_eq in *.
    destruct (Z.eq_dec (scaled (Zpos m) e) (2 ^ U)) as [E1 | N1].
    + assert (E : S754_finite false m e = one)
        by (apply ord_inj; [exact Hr | reflexivity |];
            now rewrite ord_one, ord_finite_eq).
      rewrite E. reflexivity.
    + pose proof (below_one m e Hr ltac:(lia)) as Hb.
      pose proof (fsub_ord 8388608 (-23) m e eq_refl Hr) as Ht.
      cbv zeta in Ht. fold one in Ht. rewrite ord_one, ord_finite_eq in Ht.
      specialize (Ht ltac:(lia)). destruct Ht as [Hnt Hot].
      assert (Q24 : cap (1 * 2 ^ (U - 24)) = 2 ^ (U - 24)).
      { rewrite cap_fix; [lia | lia | unfold U; lia |].
        rewrite top_eq. unfold U. apply Z.lt_le_incl. reflexivity. }
      assert (Q25 : cap (1 * 2 ^ (U - 25)) = 2 ^ (U - 25)).
      { rewrite cap_fix; [lia | lia | unfold U; lia |].
        rewrite top_eq. unfold U. apply Z.lt_le_incl. reflexivity. }
      assert (QU : cap (1 * 2 ^ U) = 2 ^ U).
      { rewrite cap_fix; [lia | lia | unfold U; lia |].
        rewrite top_eq. unfold U. apply Z.lt_le_incl. reflexivity. }
      pose proof (pow2_pos (U - 24) ltac:(unfold U; lia)) as P24.
      pose proof (pow2_pos (U - 25) ltac:(unfold U; lia)) as P25.
      assert (E2425 : 2 ^ (U - 24) = 2 * 2 ^ (U - 25)) by reflexivity.
      assert (Lt1 : 2 ^ (U - 24) <= ord (fsub one (S754_finite false m e))).
      { rewrite Hot.
        pose proof (cap_mono (1 * 2 ^ (U - 24))
                      (2 ^ U - scaled (Zpos m) e) ltac:(lia)). lia. }
      assert (Lt2 : ord (fsub one (S754_finite false m e)) <= 2 ^ U).
      { rewrite Hot.
        pose proof (cap_mono (2 ^ U - scaled (Zpos m) e) (1 * 2 ^ U)) as Hm.
        rewrite QU in Hm. apply Hm. lia. }
      destruct (nonneg_cases _ Hnt) as [[Et Ot] | [[Et Ot] | (mt & et & Et & Ot)]].
      * lia.
      * rewrite Ot, top_eq in Lt2. unfold U in Lt2.
        assert (2 ^ 300 < 2 ^ 428) by reflexivity. lia.
      * assert (Eneg : fsub (S754_finite false m e) one
                       = S754_finite true mt et).
        { revert Et Hnt. unfold fsub, one. cbn [SFsub cond_Zopp].
          rewrite (Z.min_comm e (-23)).
          set (A := Zpos (fst (shl_align m e (Z.min (-23) e)))).
          set (B := Zpos (fst (shl_align 8388608 (-23) (Z.min (-23) e)))).
          replace (A - B) with (- (B - A)) by lia.
          destruct (B - A) as [| p | p]; cbn [Z.opp binary_normalize].
          - discriminate.
          - intros Et _.
            change (binary_round prec emax true p (Z.min (-23) e)
                    = S754_finite true mt et).
            rewrite binary_round_opp, Et. reflexivity.
          - intros Et. rewrite binary_round_opp in Et.
            pose proof (binary_round_sign p (Z.min (-23) e) mt et) as Hs.
            clear - Et Hs. intros _.
            destruct (binary_round prec emax false p (Z.min (-23) e))
              as [| | | [] m' e']; try discriminate.
            injection Et as -> ->. now destruct Hs. }
        pose proof Hnt as Hnt'. rewrite Et in Hnt'.
        destruct (fmul_half_ord mt et Hnt') as [Hnh Hoh].
        rewrite Et in Lt1, Lt2.
        assert (Lh : 2 ^ (U - 25)
                     <= ord (fmul half (S754_finite false mt et))).
        { rewrite Hoh.
          assert (2 ^ (U - 25) <= ord (S754_finite false mt et) / 2)
            by (apply Z.div_le_lower_bound; lia).
          pose proof (cap_mono (1 * 2 ^ (U - 25))
                        (ord (S754_finite false mt et) / 2)
                        ltac:(lia)). lia. }
        assert (Uh : ord (fmul half (S754_finite false mt et)) <= 2 ^ U).
        { rewrite Hoh.
          assert (0 <= ord (S754_finite false mt et) / 2 <= 2 ^ U).
          { split; [apply Z.div_pos; lia |].
            apply Z.div_le_upper_bound; lia. }
          pose proof (cap_mono (ord (S754_finite false mt et) / 2)
                        (1 * 2 ^ U) ltac:(lia)). lia. }
        destruct (nonneg_cases _ Hnh)
          as [[Eh Oh] | [[Eh Oh] | (mh & eh & Eh & Oh)]].
        -- lia.
        -- rewrite Oh, top_eq in Uh. unfold U in Uh.
           assert (2 ^ 300 < 2 ^ 428) by reflexivity. lia.
        -- assert (Ehn : fmul half (S754_finite true mt et)
                         = S754_finite true mh eh).
           { revert Eh. unfold fmul, half. cbn [SFmul xorb].
             rewrite binary_round_aux_opp. now intros ->. }
           unfold weight. rewrite Eneg, Ehn. reflexivity.
Qed.

(** [(float)n] for a positive [int]: a normal number. *)
Lemma of_int_finite (n : Z) :
  0 < n < 2 ^ 31 ->
  exists m e, of_int n = S754_finite false m e
              /\ nonneg (S754_finite false m e) = true
              /\ 2 ^ 23 <= Zpos m < 2 ^ 24 /\ -23 <= e <= 8
              /\ scaled (Zpos m) e = cap (n * 2 ^ U).
Proof.
  intros Hn. destruct (of_int_ord n ltac:(lia)) as [Hnn Hord].
  pose proof (pow2_pos U ltac:(unfold U; lia)) as PU.
  assert (Hlo : 2 ^ U <= ord (of_int n)).
  { rewrite Hord.
    pose proof (cap_mono (1 * 2 ^ U) (n * 2 ^ U) ltac:(nia)) as Hm.
    rewrite cap_fix in Hm; [lia | lia | unfold U; lia |].
    rewrite top_eq. unfold U. apply Z.lt_le_incl. reflexivity. }
  assert (Hhi : ord (of_int n) < 2 ^ (32 + U)).
  { rewrite Hord.
    pose proof (cap_mono (n * 2 ^ U) (1 * 2 ^ (31 + U))) as Hm.
    rewrite (cap_fix 1 (31 + U)) in Hm; [| lia | unfold U; lia |].
    - assert (n * 2 ^ U <= 1 * 2 ^ (31 + U)).
      { rewrite (Z.pow_add_r 2 31 U) by (unfold U; lia). nia. }
      assert (2 ^ (31 + U) < 2 ^ (32 + U))
        by (apply Z.pow_lt_mono_r; unfold U; lia).
      specialize (Hm ltac:(nia)). lia.
    - rewrite top_eq. unfold U. apply Z.lt_le_incl. reflexivity. }
  destruct (nonneg_cases _ Hnn) as [[E O] | [[E O] | (m & e & E & O)]].
  - lia.
  - rewrite O, top_eq in Hhi. unfold U in Hhi.
    assert (2 ^ (32 + 300) < 2 ^ 428) by reflexivity. lia.
  - exists m, e. rewrite E in Hnn, Hlo, Hhi, Hord.
    rewrite ord_finite_eq in *.
    destruct (normal_form m e 0 32 Hnn ltac:(lia) ltac:(split; assumption))
      as [Hm He].
    repeat split; try assumption; lia.
Qed.

(** The quotient of two positive [int]s of which the first is not the
    larger one is at most 1. *)
Lemma scale_le_one (src dst : Z) :
  0 < src -> src <= dst -> dst < 2 ^ 31 ->
  nonneg (scale src dst) = true /\ ord (scale src dst) <= ord one.
Proof.
  intros Hs Hsd Hd.
  destruct (of_int_finite src ltac:(lia))
    as (mx & ex & Ex & Hnx & Hmx & Hex & Ox).
  destruct (of_int_finite dst ltac:(lia))
    as (my & ey & Ey & Hny & Hmy & Hey & Oy).
  pose proof (pow2_pos U ltac:(unfold U; lia)) as PU.
  assert (Hle : scaled (Zpos mx) ex <= scaled (Zpos my) ey).
  { rewrite Ox, Oy. apply cap_mono. nia. }
  unfold scale. rewrite Ex, Ey.
  pose proof (fdiv_normal mx ex my ey Hmx Hmy ltac:(lia)) as H.
  cbv zeta in H. destruct H as [Hn Hord].
  split; [exact Hn |]. rewrite Hord, ord_one.
  set (q := Z.pos mx * 2 ^ 24 / Z.pos my) in *.
  set (r := (Z.pos mx * 2 ^ 24) mod Z.pos my) in *.
  set (c := if r =? 0 then 0
            else if 2 * r <? Z.pos my then 1
                 else if 2 * r =? Z.pos my then 2 else 3) in *.
  assert (Hc : 0 <= c <= 3 /\ (r = 0 -> c = 0)).
  { unfold c. destruct (Z.eqb_spec r 0); [lia |].
    destruct (2 * r <? Z.pos my); [lia |].
    destruct (2 * r =? Z.pos my); lia. }
  pose proof (Z.div_mod (Z.pos mx * 2 ^ 24) (Z.pos my) ltac:(lia)) as Dq.
  pose proof (Z.mod_pos_bound (Z.pos mx * 2 ^ 24) (Z.pos my) ltac:(lia)) as Mq.
  fold q r in Dq, Mq.
  unfold scaled in Hle.
  assert (Hk : ex <= ey).
  { destruct (Z_le_gt_dec ex ey) as [L | G]; [exact L | exfalso].
    assert (2 ^ (ey + 1 + U) <= 2 ^ (ex + U))
      by (apply Z.pow_le_mono_r; unfold U; lia).
    assert (E1 : 2 ^ (ey + 1 + U) = 2 * 2 ^ (ey + U)).
    { replace (ey + 1 + U) with (1 + (ey + U)) by lia.
      rewrite Z.pow_add_r by (unfold U; lia). reflexivity. }
    pose proof (pow2_pos (ey + U) ltac:(unfold U; lia)). nia. }
  set (k := ey - ex).
  assert (Hq : 4 * q + c <= 2 ^ (26 + k)).
  { destruct (Z.eq_dec k 0) as [K0 | Kn].
    - rewrite K0. change (2 ^ (26 + 0)) with 67108864.
      assert (ex = ey) by (unfold k in K0; lia). subst ey.
      pose proof (pow2_pos (ex + U) ltac:(unfold U; lia)).
      assert (Z.pos mx <= Z.pos my) by nia.
      destruct (Z.eq_dec (Z.pos mx) (Z.pos my)) as [Em | Nm].
      + assert (q = 2 ^ 24)
          by (unfold q; rewrite Em, Z.mul_comm; apply Z.div_mul; lia).
        assert (r = 0)
          by (unfold r; rewrite Em, Z.mul_comm; apply Z.mod_mul; lia).
        destruct Hc as [_ Hc0]. rewrite (Hc0 ltac:(assumption)). lia.
      + assert (q < 2 ^ 24) by nia. lia.
    - assert (q < 2 ^ 25) by nia.
      assert (2 ^ 27 <= 2 ^ (26 + k))
        by (apply Z.pow_le_mono_r; unfold k; lia).
      lia. }
  pose proof (cap_mono (scaled (4 * q + c) (ex - ey - 26)) (1 * 2 ^ U)) as Hm.
  rewrite (cap_fix 1 U) in Hm; [| lia | unfold U; lia |].
  - apply Hm. unfold scaled.
    pose proof (pow2_pos (ex - ey - 26 + U) ltac:(unfold U; lia)) as PP.
    assert (EU : 2 ^ U = 2 ^ (26 + k) * 2 ^ (ex - ey - 26 + U)).
    { rewrite <- Z.pow_add_r by (unfold k, U; lia). f_equal. unfold k. lia. }
    assert (0 <= q) by (apply Z.div_pos; lia).
    split; [nia |]. rewrite Z.mul_1_l, EU.
    apply Z.mul_le_mono_nonneg_r; lia.
  - rewrite top_eq. unfold U. apply Z.lt_le_incl. reflexivity.
Qed.

Lemma center_nonneg (o : Z) (r : float) :
  0 <= o < 2 ^ 31 -> nonneg r = true ->
  center o r <> S754_zero true.
Proof.
  intros Ho Hr. unfold center. apply fmul_not_negative_zero; [| exact Hr].
  destruct (Z.eq_dec o 0) as [-> | Hne]; [reflexivity |].
  destruct (of_int_finite o ltac:(lia)) as (m & e & E & Hv & _).
  rewrite E. now destruct (fadd_ord m e 8388608 (-24) Hv eq_refl).
Qed.

(** X12. When the destination is not smaller than the source on either
    axis, both weights and both displacements are 0 and the four reads
    of a thread are one read, at the centre of the destination pixel
    mapped into the source: without shrinking the kernel is the plain
    bilinear fetch of the texture unit. *)
Theorem no_shrink_single_tap {S : Type} (tex : texture S)
    (dst_width dst_height src_width src_height xo yo : Z) :
  0 < src_width -> src_width <= dst_width -> dst_width < 2 ^ 31 ->
  0 < src_height -> src_height <= dst_height -> dst_height < 2 ^ 31 ->
  0 <= xo < 2 ^ 31 -> 0 <= yo < 2 ^ 31 ->
  let hscale := scale src_width dst_width in
  let vscale := scale src_height dst_height in
  (weight hscale = zero /\ weight vscale = zero)
  /\ (displacement (weight hscale) = zero
      /\ displacement (weight vscale) = zero)
  /\ Subsample_Bilinear_reads tex dst_width dst_height
       src_width src_height xo yo
     = let v := tex2D tex (center xo hscale) (center yo vscale) in
       (v, v, v, v).
Proof.
  intros Hsw Hw Hdw Hsh Hh Hdh Hx Hy hscale vscale.
  destruct (scale_le_one src_width dst_width Hsw Hw Hdw) as [Nh Oh].
  destruct (scale_le_one src_height dst_height Hsh Hh Hdh) as [Nv Ov].
  assert (Wh : weight hscale = zero) by now apply weight_below_one.
  assert (Wv : weight vscale = zero) by now apply weight_below_one.
  assert (D0 : displacement zero = zero) by reflexivity.
  split; [split; assumption |].
  split; [now rewrite Wh, Wv |].
  unfold Subsample_Bilinear_reads. cbv zeta. fold hscale vscale.
  rewrite Wh, Wv, D0, !fsub_zero_r.
  rewrite !fadd_zero_r by (apply center_nonneg; assumption).
  reflexivity.
Qed.

Lemma no_shrink_single_tap_witness :
  (0 < 1280 /\ 1280 <= 1920 /\ 1920 < 2 ^ 31)
  /\ weight (scale 1280 1920) = zero.
Proof.
  assert (H1 : 0 < 1280) by lia.
  assert (H2 : 1280 <= 1920) by lia.
  assert (H3 : 1920 < 2 ^ 31) by lia.
  split; [repeat split; assumption |].
  exact (proj1 (proj1 (no_shrink_single_tap (fun _ _ => 0) 1920 1080 1280 720
                         3 1 H1 H2 H3 ltac:(lia) ltac:(lia) ltac:(lia)
                         ltac:(lia) ltac:(lia)))).
Defined.

(** ** Halving a plane *)

Lemma cap_exact (M k : Z) :
  0 <= M < 2 ^ 24 -> U - 149 <= k <= U + 100 -> cap (M * 2 ^ k) = M * 2 ^ k.
Proof.
  intros HM Hk. apply cap_fix; [exact HM | lia |].
  rewrite top_eq.
  apply Z.le_trans with (2 ^ 24 * 2 ^ k).
  - apply Z.mul_le_mono_nonneg_r; [apply Z.pow_nonneg |]; lia.
  - rewrite <- Z.pow_add_r by (unfold U in *; lia).
    apply Z.pow_le_mono_r; unfold U in *; lia.
Qed.

(** A float that is not negative, from its value. *)
Lemma finite_of_ord (x : float) (M k : Z) :
  nonneg x = true -> ord x = M * 2 ^ k -> 0 < M < 2 ^ 24 ->
  U - 149 <= k <= U + 100 ->
  exists m e, x = S754_finite false m e.
Proof.
  intros Hx Ho HM Hk.
  pose proof (pow2_pos k ltac:(unfold U in *; lia)) as P.
  destruct (nonneg_cases x Hx) as [[E O] | [[E O] | (m & e & E & O)]].
  - rewrite O in Ho. nia.
  - exfalso. rewrite O, top_eq in Ho.
    assert (M * 2 ^ k < 2 ^ 24 * 2 ^ k) by nia.
    assert (2 ^ 24 * 2 ^ k <= 2 ^ 428).
    { rewrite <- Z.pow_add_r by (unfold U in *; lia).
      apply Z.pow_le_mono_r; unfold U in *; lia. }
    lia.
  - eauto.
Qed.

Lemma fmul_two_ord (m : positive) (e : Z) :
  nonneg (S754_finite false m e) = true ->
  nonneg (fmul (S754_finite false m e) two) = true
  /\ ord (fmul (S754_finite false m e) two)
     = cap (2 * scaled (Zpos m) e).
Proof.
  intros Ht. pose proof (valid_finite m e Ht) as (He & Hm & _).
  unfold fmul, two. cbn [SFmul xorb].
  assert (Hv : scaled (Zpos (m * 8388608)) (e + -22)
               = 2 * scaled (Zpos m) e).
  { unfold scaled. rewrite Pos2Z.inj_mul.
    change (Z.pos 8388608) with (2 ^ 23).
    replace (e + U) with (e + -22 + U + 22) by lia.
    rewrite (Z.pow_add_r 2 (e + -22 + U) 22) by (unfold U; lia).
    change (2 ^ 23) with (2 * 2 ^ 22). lia. }
  rewrite <- Hv.
  apply binary_round_aux_ord; [lia | unfold U; lia |].
  rewrite Pos2Z.inj_mul. change (Z.pos 8388608) with (2 ^ 23).
  rewrite Zdigits2_mul_pow2 by lia.
  pose proof (Zdigits2_pos (Zpos m) ltac:(lia)). rewrite fexp_eq. lia.
Qed.

(** [(float)n] is exact for an [n] of at most 24 bits. *)
Lemma of_int_exact (n : Z) :
  0 < n < 2 ^ 24 ->
  exists m e, of_int n = S754_finite false m e
              /\ nonneg (S754_finite false m e) = true
              /\ 2 ^ 23 <= Zpos m < 2 ^ 24 /\ -23 <= e <= 8
              /\ scaled (Zpos m) e = n * 2 ^ U.
Proof.
  intros Hn.
  destruct (of_int_finite n ltac:(lia)) as (m & e & E & Hv & Hm & He & O).
  exists m, e. repeat split; try assumption; try lia.
  rewrite O. apply cap_exact; [lia | unfold U; lia].
Qed.

Lemma scale_double (n : Z) : 0 < n < 2 ^ 23 -> scale (2 * n) n = two.
Proof.
  intros Hn.
  destruct (of_int_exact (2 * n) ltac:(lia))
    as (mx & ex & Ex & Hnx & Hmx & Hex & Ox).
  destruct (of_int_exact n ltac:(lia))
    as (my & ey & Ey & Hny & Hmy & Hey & Oy).
  unfold scale. rewrite Ex, Ey.
  assert (Hrel : scaled (Zpos mx) ex = 2 * scaled (Zpos my) ey)
    by (rewrite Ox, Oy; lia).
  unfold scaled in Hrel.
  pose proof (pow2_pos (ey + U) ltac:(unfold U; lia)) as Py.
  assert (Hexp : ex = ey + 1).
  { destruct (Z_le_gt_dec ex ey) as [L | G].
    - exfalso.
      assert (2 ^ (ex + U) <= 2 ^ (ey + U))
        by (apply Z.pow_le_mono_r; unfold U; lia).
      pose proof (pow2_pos (ex + U) ltac:(unfold U; lia)). nia.
    - destruct (Z_le_gt_dec ex (ey + 1)) as [L' | G']; [lia | exfalso].
      assert (2 ^ (ey + 2 + U) <= 2 ^ (ex + U))
        by (apply Z.pow_le_mono_r; unfold U; lia).
      assert (E2 : 2 ^ (ey + 2 + U) = 4 * 2 ^ (ey + U)).
      { replace (ey + 2 + U) with (2 + (ey + U)) by lia.
        rewrite Z.pow_add_r by (unfold U; lia). reflexivity. }
      nia. }
  subst ex.
  assert (Emant : Zpos mx = Zpos my).
  { replace (ey + 1 + U) with (1 + (ey + U)) in Hrel by lia.
    rewrite Z.pow_add_r in Hrel by (unfold U; lia).
    change (2 ^ 1) with 2 in Hrel. nia. }
  pose proof (fdiv_normal mx (ey + 1) my ey Hmx Hmy ltac:(lia)) as H.
  cbv zeta in H. destruct H as [Hn' Hord].
  apply ord_inj; [exact Hn' | reflexivity |].
  rewrite Hord, Emant, (Z.mul_comm (Zpos my) (2 ^ 24)).
  rewrite Z.mod_mul by lia. rewrite Z.div_mul by lia. cbn [Z.eqb].
  replace (ey + 1 - ey - 26) with (-25) by lia.
  change (scaled (4 * 2 ^ 24 + 0) (-25)) with (1 * 2 ^ (U + 1)).
  rewrite cap_exact by (unfold U; lia). reflexivity.
Qed.

(** [(o + 0.5f) * 2.0f - 0.5f] and [(o + 0.5f) * 2.0f + 0.5f] are
    [2 * o + 0.5f] and [2 * o + 1 + 0.5f]. *)
Lemma ord_plus_half (o : Z) :
  0 <= o < 2 ^ 23 ->
  nonneg (fadd (of_int o) half) = true
  /\ ord (fadd (of_int o) half) = (2 * o + 1) * 2 ^ (U - 1).
Proof.
  intros Ho.
  destruct (Z.eq_dec o 0) as [-> | Hne]; [split; reflexivity |].
  destruct (of_int_exact o ltac:(lia)) as (m & e & E & Hv & _ & _ & O).
  rewrite E. unfold half.
  destruct (fadd_ord m e 8388608 (-24) Hv eq_refl) as [Hn Hord].
  split; [exact Hn |]. rewrite Hord, ord_finite_eq, O.
  change (ord (S754_finite false 8388608 (-24))) with (2 ^ (U - 1)).
  assert (EU : 2 ^ U = 2 * 2 ^ (U - 1)) by reflexivity.
  replace (o * 2 ^ U + 2 ^ (U - 1)) with ((2 * o + 1) * 2 ^ (U - 1)) by lia.
  apply cap_exact; [lia | unfold U; lia].
Qed.

Lemma halved_taps (o : Z) :
  0 <= o < 2 ^ 21 ->
  fsub (center o two) half = fadd (of_int (2 * o)) half
  /\ fadd (center o two) half = fadd (of_int (2 * o + 1)) half.
Proof.
  intros Ho.
  assert (EU : 2 ^ U = 2 * 2 ^ (U - 1)) by reflexivity.
  pose proof (pow2_pos (U - 1) ltac:(unfold U; lia)) as PU.
  destruct (ord_plus_half o ltac:(lia)) as [Na Oa].
  destruct (finite_of_ord _ (2 * o + 1) (U - 1) Na Oa ltac:(lia)
              ltac:(unfold U; lia)) as (ma & ea & Ea).
  assert (Hc : nonneg (center o two) = true
               /\ ord (center o two) = (2 * o + 1) * 2 ^ U).
  { unfold center. rewrite Ea. rewrite Ea in Na, Oa.
    destruct (fmul_two_ord ma ea Na) as [Hn Hord].
    split; [exact Hn |]. rewrite Hord, <- ord_finite_eq, Oa.
    replace (2 * ((2 * o + 1) * 2 ^ (U - 1))) with ((2 * o + 1) * 2 ^ U)
      by lia.
    apply cap_exact; [lia | unfold U; lia]. }
  destruct Hc as [Nc Oc].
  destruct (finite_of_ord _ (2 * o + 1) U Nc Oc ltac:(lia)
              ltac:(unfold U; lia)) as (mc & ec & Ec).
  rewrite Ec in *.
  destruct (ord_plus_half (2 * o) ltac:(lia)) as [N0 O0].
  destruct (ord_plus_half (2 * o + 1) ltac:(lia)) as [N1 O1].
  unfold half in *.
  split.
  - destruct (fsub_ord mc ec 8388608 (-24) Nc eq_refl) as [Hn Hord].
    { rewrite Oc. change (ord (S754_finite false 8388608 (-24)))
                    with (2 ^ (U - 1)). nia. }
    apply ord_inj; [exact Hn | exact N0 |].
    rewrite Hord, O0, Oc.
    change (ord (S754_finite false 8388608 (-24))) with (2 ^ (U - 1)).
    replace ((2 * o + 1) * 2 ^ U - 2 ^ (U - 1))
      with ((2 * (2 * o) + 1) * 2 ^ (U - 1)) by lia.
    apply cap_exact; [lia | unfold U; lia].
  - destruct (fadd_ord mc ec 8388608 (-24) Nc eq_refl) as [Hn Hord].
    apply ord_inj; [exact Hn | exact N1 |].
    rewrite Hord, O1, Oc.
    change (ord (S754_finite false 8388608 (-24))) with (2 ^ (U - 1)).
    replace ((2 * o + 1) * 2 ^ U + 2 ^ (U - 1))
      with ((2 * (2 * o + 1) + 1) * 2 ^ (U - 1)) by lia.
    apply cap_exact; [lia | unfold U; lia].
Qed.

(** X13. When the source is exactly twice as wide and twice as high as
    the destination, the scale factors are 2, the weights and the
    displacements are 0.5, and the four reads of the thread at
    [(xo, yo)] are at the centres of the four source texels
    [(2 xo, 2 yo)], [(2 xo + 1, 2 yo)], [(2 xo, 2 yo + 1)] and
    [(2 xo + 1, 2 yo + 1)]: the kernel averages the 2 x 2 block. *)
Theorem halving_reads_texel_centres {S : Type} (tex : texture S)
    (dst_width dst_height xo yo : Z) :
  0 < dst_width < 2 ^ 23 -> 0 < dst_height < 2 ^ 23 ->
  0 <= xo < 2 ^ 21 -> 0 <= yo < 2 ^ 21 ->
  let texel_centre := fun i : Z => fadd (of_int i) half in
  (scale (2 * dst_width) dst_width = two
   /\ scale (2 * dst_height) dst_height = two)
  /\ (weight two = half /\ displacement half = half)
  /\ Subsample_Bilinear_reads tex dst_width dst_height
       (2 * dst_width) (2 * dst_height) xo yo
     = (tex2D tex (texel_centre (2 * xo)) (texel_centre (2 * yo)),
        tex2D tex (texel_centre (2 * xo + 1)) (texel_centre (2 * yo)),
        tex2D tex (texel_centre (2 * xo)) (texel_centre (2 * yo + 1)),
        tex2D tex (texel_centre (2 * xo + 1)) (texel_centre (2 * yo + 1))).
Proof.
  intros Hw Hh Hx Hy texel_centre.
  pose proof (scale_double dst_width Hw) as Eh.
  pose proof (scale_double dst_height Hh) as Ev.
  assert (W2 : weight two = half) by reflexivity.
  assert (D2 : displacement half = half) by reflexivity.
  split; [split; assumption |]. split; [split; assumption |].
  unfold Subsample_Bilinear_reads. cbv zeta.
  rewrite Eh, Ev, W2, D2.
  destruct (halved_taps xo Hx) as [X0 X1].
  destruct (halved_taps yo Hy) as [Y0 Y1].
  now rewrite X0, X1, Y0, Y1.
Qed.

Lemma halving_reads_texel_centres_witness :
  (0 < 960 < 2 ^ 23 /\ 0 <= 3 < 2 ^ 21)
  /\ scale (2 * 960) 960 = two.
Proof.
  assert (Hw : 0 < 960 < 2 ^ 23) by lia.
  assert (Hx : 0 <= 3 < 2 ^ 21) by lia.
  split; [split; assumption |].
  exact (proj1 (proj1 (halving_reads_texel_centres (fun _ _ => 0) 960 540 3 1
                         Hw ltac:(lia) Hx ltac:(lia)))).
Defined.
